(** * EZ-USB firmware download (ezusb.c): a shallow embedding and its properties

    The development follows src/ezusb.c top to bottom: the memory
    classifiers, the control-request transport, the Intel HEX parser, the
    RAM sink, the EEPROM sink, and the EEPROM load and erase operations.
    The definitions come first, the properties after them.

    C integers are modelled as [Z] with the wrap-around of their width
    written out ([u8], [u16], [u32], [size_t_wrap]).  C truth values that
    are only ever tested ([external], [large_eeprom], [doRun], [last]) are
    [bool].  Diagnostic output ([logerror], [fprintf (stderr, ...)]) is not
    modelled: it has no influence on control flow. *)

From Stdlib Require Import ZArith List String Ascii Bool Lia Sorted.
Import ListNotations.

Local Open Scope Z_scope.

(** ** Machine integers *)

Definition u8 (z : Z) : Z := z mod 256.
Definition u16 (z : Z) : Z := z mod 65536.
Definition u32 (z : Z) : Z := z mod 4294967296.
Definition SIZE_MAX : Z := 18446744073709551615.
Definition size_t_wrap (z : Z) : Z := z mod (SIZE_MAX + 1).
Definition USHRT_MAX : Z := 65535.

Definition is_ushort (z : Z) : Prop := 0 <= z <= USHRT_MAX.
Definition is_size_t (z : Z) : Prop := 0 <= z <= SIZE_MAX.

(** Error numbers of <errno.h> (Linux values). *)
Definition EINVAL : Z := 22.
Definition EDOM : Z := 33.
Definition ETIMEDOUT : Z := 110.

(** ** Memory classifiers (ezusb.c, lines 61-116)

    [addr] is an [unsigned short], [len] a [size_t]; the sum [addr + len]
    is computed in [size_t]. *)

Definition fx_is_external (addr len : Z) : bool :=
  if addr <=? 0x1b3f then size_t_wrap (addr + len) >? 0x1b40
  else true.

Definition fx2_is_external (addr len : Z) : bool :=
  if addr <=? 0x1fff then size_t_wrap (addr + len) >? 0x2000
  else if (addr >=? 0xe000) && (addr <=? 0xe1ff) then
    size_t_wrap (addr + len) >? 0xe200
  else true.

Definition fx2lp_is_external (addr len : Z) : bool :=
  if addr <=? 0x3fff then size_t_wrap (addr + len) >? 0x4000
  else if (addr >=? 0xe000) && (addr <=? 0xe1ff) then
    size_t_wrap (addr + len) >? 0xe200
  else true.

(** The range [addr, addr+len) starts inside the window [lo, hi] and does
    not extend past [hi + 1]. *)
Definition within_window (lo hi addr len : Z) : Prop :=
  lo <= addr <= hi /\ addr + len <= hi + 1.

Definition fx2_internal (addr len : Z) : Prop :=
  within_window 0x0000 0x1fff addr len \/ within_window 0xe000 0xe1ff addr len.

Definition fx2lp_internal (addr len : Z) : Prop :=
  within_window 0x0000 0x3fff addr len \/ within_window 0xe000 0xe1ff addr len.

(** ** The transport (ezusb.c, lines 132-277)

    A control request is what [ctrl_msg] stores into
    [struct usbdevfs_ctrltransfer] before the [ioctl]. *)

Record request := mkRequest {
  rq_device : Z;
  bRequestType : Z;
  bRequest : Z;
  wValue : Z;
  wIndex : Z;
  rq_data : list Z;
  wLength : Z
}.

(** What the [ioctl] answers: a count of transferred bytes together with
    the buffer as it is afterwards, or -1 with [errno] set. *)
Inductive reply :=
| Transferred (n : N) (buf : list Z)
| Failed (e : positive).

(** The caller of [ctrl_msg], kept with every request so that a trace can
    be read: [ezusb_read] and [ezusb_write] carry their [label]. *)
Inductive origin :=
| via_read (label : string)
| via_write (label : string)
| via_cpucs.

Record event := mkEvent {
  ev_origin : origin;
  ev_request : request;
  ev_reply : reply
}.

(** The part of the process state the functions touch: the requests issued
    so far, oldest first, and [errno]. *)
Record world := mkWorld {
  trace : list event;
  errno : Z
}.

Definition io (A : Type) : Type := world -> A * world.

Definition ret {A} (a : A) : io A := fun w => (a, w).
Definition bind {A B} (m : io A) (k : A -> io B) : io B :=
  fun w => let (a, w') := m w in k a w'.

Declare Scope io_scope.
Delimit Scope io_scope with io.
Notation "x <- m ;; k" := (bind m (fun x => k))
  (at level 61, m at next level, right associativity) : io_scope.
Notation "' p <- m ;; k" := (bind m (fun p => k))
  (at level 61, p pattern, m at next level, right associativity) : io_scope.

(** The idiom [status = m; if (status < 0) return status;] followed by
    the rest [k] of the function. *)
Definition checked (m : io Z) (k : io Z) : io Z :=
  fun w => let (status, w') := m w in
           if status <? 0 then (status, w') else k w'.

Notation "'check' m ;; k" := (checked m k)
  (at level 61, m at next level, right associativity) : io_scope.

(** <linux/usb/ch9.h> *)
Definition USB_DIR_OUT : Z := 0.
Definition USB_DIR_IN : Z := 0x80.
Definition USB_TYPE_VENDOR : Z := 0x40.
Definition USB_RECIP_DEVICE : Z := 0.

Definition RW_INTERNAL : Z := 0xA0.
Definition RW_EEPROM : Z := 0xA2.
Definition RW_EEPROM_LARGE : Z := 0xA9.
Definition RW_MEMORY : Z := 0xA3.
Definition GET_EEPROM_SIZE : Z := 0xA5.

Definition reply_failed (r : reply) : bool :=
  match r with Failed _ => true | Transferred _ _ => false end.

Definition is_write (e : event) : bool :=
  match ev_origin e with via_write _ => true | _ => false end.

Definition label_of (e : event) : string :=
  match ev_origin e with
  | via_read l | via_write l => l
  | via_cpucs => EmptyString
  end.

Section Transport.

(** The device behind the file descriptor: its answer to a request may
    depend on everything that was asked before. *)
Variable ioctl : list event -> request -> reply.

(** Returns the status and the buffer as it is after the call. *)
Definition ctrl_msg (who : origin)
    (device requestType request value index : Z)
    (data : list Z) (length : Z) : io (Z * list Z) :=
  fun w =>
    if length >? USHRT_MAX then ((- EINVAL, data), w)
    else
      let ctrl := {| rq_device := device;
                     bRequestType := requestType;
                     bRequest := request;
                     wValue := value;
                     wIndex := index;
                     rq_data := data;
                     wLength := u16 length |} in
      let answer := ioctl (trace w) ctrl in
      let ev := {| ev_origin := who; ev_request := ctrl;
                   ev_reply := answer |} in
      match answer with
      | Transferred n buf =>
          ((Z.of_N n, buf), {| trace := trace w ++ [ev]; errno := errno w |})
      | Failed e =>
          ((-1, data), {| trace := trace w ++ [ev]; errno := Z.pos e |})
      end.

Definition ezusb_read (device : Z) (label : string) (opcode addr : Z)
    (data : list Z) (len : Z) : io (Z * list Z) :=
  ctrl_msg (via_read label) device
    (Z.lor (Z.lor USB_DIR_IN USB_TYPE_VENDOR) USB_RECIP_DEVICE)
    (u8 opcode) (u16 addr) 0 data len.

Definition ezusb_write (device : Z) (label : string) (opcode addr : Z)
    (data : list Z) (len : Z) : io Z :=
  (r <- ctrl_msg (via_write label) device
          (Z.lor (Z.lor USB_DIR_OUT USB_TYPE_VENDOR) USB_RECIP_DEVICE)
          (u8 opcode) (u16 addr) 0 data len ;;
   ret (fst r))%io.

Definition ezusb_cpucs (device addr : Z) (doRun : bool) : io bool :=
  (let data := if doRun then 0 else 1 in
   r <- ctrl_msg via_cpucs device
          (Z.lor (Z.lor USB_DIR_OUT USB_TYPE_VENDOR) USB_RECIP_DEVICE)
          RW_INTERNAL (u16 addr) 0 [data] 1 ;;
   ret (fst r =? 1))%io.

Definition ezusb_get_eeprom_type (fd : Z) (data : list Z) : io (Z * list Z) :=
  ezusb_read fd "get EEPROM size" GET_EEPROM_SIZE 0 data 1.

End Transport.

(** ** The Intel HEX parser (ezusb.c, lines 281-432) *)

(** *** Reading the image

    [FILE *image] is the text that remains to be read.  [fgets_lines]
    lists the successive results of [fgets (buf, 512, image)]: at most
    511 characters each, ending after a newline. *)

Definition LF : ascii := "010"%char.
Definition NUL : ascii := "000"%char.

Fixpoint fgets_from (room : nat) (cur : list ascii) (s : list ascii)
  : list (list ascii) :=
  match s with
  | [] => match cur with [] => [] | _ => [rev cur] end
  | c :: s' =>
      if Ascii.eqb c LF then rev (c :: cur) :: fgets_from 511 [] s'
      else match room with
           | S (S r) => fgets_from (S r) (c :: cur) s'
           | _ => rev (c :: cur) :: fgets_from 511 [] s'
           end
  end.

Definition fgets_lines (image : list ascii) : list (list ascii) :=
  fgets_from 511 [] image.

(** The C string held by [buf] once the newline is overwritten by 0. *)
Fixpoint c_string (buf : list ascii) : list ascii :=
  match buf with
  | [] => []
  | c :: rest =>
      if Ascii.eqb c NUL || Ascii.eqb c LF then [] else c :: c_string rest
  end.

Definition strlen (s : list ascii) : Z := Z.of_nat (List.length s).

Definition hex_digit (c : ascii) : option Z :=
  let n := Z.of_nat (nat_of_ascii c) in
  if (48 <=? n) && (n <=? 57) then Some (n - 48)
  else if (65 <=? n) && (n <=? 70) then Some (n - 55)
  else if (97 <=? n) && (n <=? 102) then Some (n - 87)
  else None.

(** [strtoul (s, 0, 16)] on a string of hexadecimal digits: the value of
    the longest prefix of digits.  The blanks, sign and 0x prefix that
    [strtoul] also accepts are not modelled, so this is [strtoul] only on
    fields made of hexadecimal digits: the lines that [line_in_scope]
    below accepts.  The statements that depend on the text of an image
    assume [image_in_scope]. *)
Fixpoint strtoul16_from (acc : Z) (s : list ascii) : Z :=
  match s with
  | [] => acc
  | c :: rest =>
      match hex_digit c with
      | Some d => strtoul16_from (16 * acc + d) rest
      | None => acc
      end
  end.

(** The field of [width] characters at [buf + start], read as the code
    does: a 0 is stored behind the field, [strtoul] is called on
    [buf + start], and the character is restored.  Positions behind the
    end of the line read as the end of the string here; the code reads
    what an earlier line left in [buf] there, so this is the field of
    the code only where the line holds it in full, which for the length,
    offset and type fields is a record line of at least 9 characters, as
    [line_in_scope] requires. *)
Definition hex_field (line : list ascii) (start width : nat) : Z :=
  strtoul16_from 0 (firstn width (skipn start line)).

(** *** The loop *)

(** The locals of [parse_ihex] that live across iterations.  [data] holds
    the first [data_len] bytes of the buffer, so [data_len] is its length. *)
Record parse_state := mkParse {
  data : list Z;
  data_addr : Z;
  first_line : bool;
  external : bool
}.

Definition data_len (ps : parse_state) : Z := Z.of_nat (List.length (data ps)).

Definition sizeof_data : Z := 1023.

Definition parse_init : parse_state :=
  {| data := []; data_addr := 0; first_line := true; external := false |}.

Section Parser.

Context {St : Type}.

(** [is_external] may be null; [poke addr external data len] runs on the
    sink's state (its context and the world) and returns its status. *)
Variable is_external : option (Z -> Z -> bool).
Variable poke : Z -> bool -> list Z -> Z -> St -> Z * St.

Inductive flow :=
| Continue (ps : parse_state) (s : St)
| Break (ps : parse_state) (s : St)
| Return (rc : Z) (s : St).

(** [external = is_external (data_addr, data_len)] when a classifier is
    given, then [poke (context, data_addr, external, data, data_len)]. *)
Definition flush (ps : parse_state) (s : St) : Z * parse_state * St :=
  let ext := match is_external with
             | Some f => f (data_addr ps) (data_len ps)
             | None => external ps
             end in
  let (rc, s') := poke (data_addr ps) ext (data ps) (data_len ps) s in
  (rc, {| data := data ps; data_addr := data_addr ps;
          first_line := first_line ps; external := ext |}, s').

(** The bytes of a record: [len] fields of two characters from [buf + 9]. *)
Definition record_bytes (line : list ascii) (len : Z) : list Z :=
  map (fun idx => u8 (hex_field line (9 + 2 * idx) 2)) (seq 0 (Z.to_nat len)).

(** "append to saved data, flush later" *)
Definition append (ps : parse_state) (line : list ascii) (len : Z)
  : parse_state :=
  {| data := data ps ++ record_bytes line len; data_addr := data_addr ps;
     first_line := first_line ps; external := external ps |}.

(** One turn of the [for (;;)] loop, [buf] being what [fgets] returned. *)
Definition parse_line (buf : list ascii) (ps : parse_state) (s : St) : flow :=
  match buf with
  | "#"%char :: _ => Continue ps s
  | ":"%char :: _ =>
      let line := c_string buf in
      let len := hex_field line 1 2 in
      let off := hex_field line 3 4 in
      let ps :=
        if first_line ps
        then {| data := data ps; data_addr := u16 off;
                first_line := false; external := external ps |}
        else ps in
      let type := hex_field line 7 2 in
      if type =? 1 then Break ps s
      else if negb (type =? 0) then Return (-3) s
      else if len * 2 + 11 >? strlen line then Return (-4) s
      else if negb (data_len ps =? 0)
              && (negb (off =? data_addr ps + data_len ps)
                  || (data_len ps + len >? sizeof_data))
      then
        match flush ps s with
        | (rc, ps', s') =>
            if rc <? 0 then Return (-1) s'
            else
              Continue
                (append {| data := []; data_addr := u16 off;
                           first_line := first_line ps';
                           external := external ps' |} line len) s'
        end
      else Continue (append ps line len) s
  | _ => Return (-2) s
  end.

(** The loop over the results of [fgets]; when [fgets] returns 0 the
    code reports "EOF without EOF record!" and leaves the loop with
    [break], as it does at an end-of-file record. *)
Fixpoint parse_loop (lines : list (list ascii)) (ps : parse_state) (s : St)
  : flow :=
  match lines with
  | [] => Break ps s
  | buf :: rest =>
      match parse_line buf ps s with
      | Continue ps' s' => parse_loop rest ps' s'
      | other => other
      end
  end.

(** "flush any data remaining" *)
Definition parse_finish (ps : parse_state) (s : St) : Z * St :=
  if negb (data_len ps =? 0) then
    match flush ps s with
    | (rc, _, s') => if rc <? 0 then (-1, s') else (0, s')
    end
  else (0, s).

Definition parse_ihex (image : list ascii) (s : St) : Z * St :=
  match parse_loop (fgets_lines image) parse_init s with
  | Return rc s' => (rc, s')
  | Break ps s' | Continue ps s' => parse_finish ps s'
  end.

End Parser.

Arguments Continue {St} ps s.
Arguments Break {St} ps s.
Arguments Return {St} rc s.

(** ** Writing to RAM (ezusb.c, lines 435-611) *)

Inductive ram_mode := _undef | internal_only | skip_internal | skip_external.

Record ram_poke_context := mkRamCtx {
  ram_device : Z;
  mode : ram_mode;
  total : Z;
  count : Z
}.

Definition RETRY_LIMIT : nat := 5.

(** ** Writing to EEPROM (ezusb.c, lines 613-887) *)

Record eeprom_poke_context := mkEepromCtx {
  ee_device : Z;
  ee_addr : Z;
  last : bool;
  eeprom_request : Z
}.

Section Loader.

Variable ioctl : list event -> request -> reply.

(** [fopen (path, "r")]: the text of the file, when it can be opened. *)
Variable fopen : string -> option (list ascii).

(** The content of the local [value] of [ezusb_load_eeprom] before
    anything is stored into it. *)
Variable indeterminate : Z.

(** The [while] loop of [ram_poke].  [budget] is [RETRY_LIMIT - retry],
    so the test [retry < RETRY_LIMIT] is [budget] being a successor. *)
Fixpoint ram_write (budget : nat) (device : Z) (ext : bool)
    (addr : Z) (bytes : list Z) (len : Z) : io Z :=
  fun w =>
    let (rc, w') :=
      ezusb_write ioctl device
        (if ext then "write external" else "write on-chip")%string
        (if ext then RW_MEMORY else RW_INTERNAL)
        addr bytes len w in
    if rc <? 0 then
      match budget with
      | O => (rc, w')
      | S budget' =>
          if negb (errno w' =? ETIMEDOUT) then (rc, w')
          else ram_write budget' device ext addr bytes len w'
      end
    else (rc, w').

Definition ram_poke (addr : Z) (ext : bool) (bytes : list Z) (len : Z)
    (s : ram_poke_context * world) : Z * (ram_poke_context * world) :=
  let (ctx, w) := s in
  let write (_ : unit) :=
    let ctx' := {| ram_device := ram_device ctx; mode := mode ctx;
                   total := u32 (total ctx + len);
                   count := u32 (count ctx + 1) |} in
    let (rc, w') := ram_write RETRY_LIMIT (ram_device ctx) ext addr bytes len w in
    ((if rc <? 0 then - errno w' else 0), (ctx', w')) in
  match mode ctx with
  | internal_only => if ext then (- EINVAL, s) else write tt
  | skip_internal => if negb ext then (0, s) else write tt
  | skip_external => if ext then (0, s) else write tt
  | _undef => (- EDOM, s)
  end.

Definition with_mode (m : ram_mode) (ctx : ram_poke_context) :=
  {| ram_device := ram_device ctx; mode := m;
     total := total ctx; count := count ctx |}.

(** [if (!ezusb_cpucs (fd, cpucs_addr, doRun)) return -1;] *)
Definition cpucs_or_fail (fd cpucs_addr : Z) (doRun : bool) : io Z :=
  (ok <- ezusb_cpucs ioctl fd cpucs_addr doRun ;;
   ret (if negb ok then -1 else 0))%io.

(** One scan of the image: [parse_ihex (image, &ctx, is_external,
    ram_poke)], returning the status and the context as it is then. *)
Definition ram_scan (image : list ascii) (is_external : Z -> Z -> bool)
    (ctx : ram_poke_context) : io (Z * ram_poke_context) :=
  fun w =>
    let '(status, (ctx', w')) :=
      parse_ihex (Some is_external) ram_poke image (ctx, w) in
    ((status, ctx'), w').

(** The global [verbose] of the program, read by [ezusb_load_ram]
    before its statistics line. *)
Variable verbose : Z.

(** [status = m; if (status < 0) return status;] in a function whose
    result is [None] when it does not return. *)
Definition checked_call (m : io Z) (k : io (option Z)) : io (option Z) :=
  fun w => let (status, w') := m w in
           if status <? 0 then (Some status, w') else k w'.

(** The second part of a two-stage load: halt the CPU, scan the image
    again for the on-chip segments. *)
Definition ram_rescan (fd cpucs_addr : Z) (image : list ascii)
    (is_external : Z -> Z -> bool) (stage : Z) (ctx : ram_poke_context)
  : io (Z * ram_poke_context) :=
  if negb (stage =? 0) then
    (halted <- cpucs_or_fail fd cpucs_addr false ;;
     if halted <? 0 then ret (halted, with_mode skip_external ctx)
     else ram_scan image is_external (with_mode skip_external ctx))%io
  else ret (0, ctx).

(** The end of [ezusb_load_ram].  With [verbose] set the statistics
    line evaluates [ctx.total / ctx.count], both [unsigned]: when no
    segment was counted this is a division by zero, the process is
    killed there and the call returns nothing, which is [None].
    Otherwise the CPU is released. *)
Definition ram_release (fd cpucs_addr : Z) (ctx : ram_poke_context)
  : io (option Z) :=
  if negb (verbose =? 0) && (count ctx =? 0) then ret None
  else checked_call (cpucs_or_fail fd cpucs_addr true) (ret (Some 0)).

Definition ezusb_load_ram (fd : Z) (path : string) (fx2 stage : Z)
  : io (option Z) :=
  match fopen path with
  | None => ret (Some (-2))
  | Some image =>
      let '(cpucs_addr, is_external) :=
        if fx2 =? 2 then (0xe600, fx2lp_is_external)
        else if negb (fx2 =? 0) then (0xe600, fx2_is_external)
        else (0x7f92, fx_is_external) in
      checked_call
        (if stage =? 0 then cpucs_or_fail fd cpucs_addr false else ret 0)
        (' (status, ctx) <-
           ram_scan image is_external
             {| ram_device := fd;
                mode := if stage =? 0 then internal_only else skip_internal;
                total := 0; count := 0 |} ;;
         checked_call (ret status)
           (' (status, ctx) <-
              ram_rescan fd cpucs_addr image is_external stage ctx ;;
            checked_call (ret status)
              (ram_release fd cpucs_addr ctx)))%io
  end.

Definition eeprom_poke (addr : Z) (ext : bool) (bytes : list Z) (len : Z)
    (s : eeprom_poke_context * world) : Z * (eeprom_poke_context * world) :=
  let (ctx, w) := s in
  if ext then (- EINVAL, s)
  else if len >? 1023 then (- EDOM, s)
  else
    let header0 := u8 (Z.shiftr len 8) in
    let header1 := u8 len in
    let header2 := u8 (Z.shiftr addr 8) in
    let header3 := u8 addr in
    let header0 := if last ctx then Z.lor header0 0x80 else header0 in
    let (rc, w) :=
      ezusb_write ioctl (ee_device ctx) "write EEPROM segment header"
        (eeprom_request ctx) (ee_addr ctx)
        [header0; header1; header2; header3] 4 w in
    if rc <? 0 then (rc, (ctx, w))
    else
      let (rc, w) :=
        ezusb_write ioctl (ee_device ctx) "write EEPROM segment"
          (eeprom_request ctx) (ee_addr ctx + 4) bytes len w in
      if rc <? 0 then (rc, (ctx, w))
      else
        (0, ({| ee_device := ee_device ctx;
                ee_addr := u16 (ee_addr ctx + 4 + len);
                last := last ctx;
                eeprom_request := eeprom_request ctx |}, w)).

(** The locals [ezusb_load_eeprom] sets up from the variant name. *)
Record eeprom_setup := mkSetup {
  first_byte : Z;
  cpucs_addr : Z;
  is_external : Z -> Z -> bool;
  ee_start : Z;
  request_code : Z;
  config_byte : Z;
  ww_vid : Z;
  ww_pid : Z
}.

(** "EZ-USB family devices differ, apart from the 8051 core": the chain
    of [strcmp]; [None] is a [return -1]. *)
Definition select_variant (path : option string) (type : string)
    (config : Z) (large_eeprom : bool) : option eeprom_setup :=
  let has_path := match path with Some _ => true | None => false end in
  let request := if large_eeprom then RW_EEPROM_LARGE else RW_EEPROM in
  if String.eqb "fx2" type then
    Some {| first_byte := if has_path then 0xC2 else 0xC0;
            cpucs_addr := 0xe600; is_external := fx2_is_external;
            ee_start := 8; request_code := request;
            config_byte := Z.land config 0x4f;
            ww_vid := 0x04B4; ww_pid := 0x6473 |}
  else if String.eqb "fx2lp" type then
    Some {| first_byte := if has_path then 0xC2 else 0xC0;
            cpucs_addr := 0xe600; is_external := fx2lp_is_external;
            ee_start := 8; request_code := request;
            config_byte := Z.land config 0x4f;
            ww_vid := 0x04B4; ww_pid := 0x8613 |}
  else if String.eqb "fx" type then
    if negb has_path then None
    else
      Some {| first_byte := 0xB6;
              cpucs_addr := 0x7f92; is_external := fx_is_external;
              ee_start := 9; request_code := request;
              config_byte := Z.land config 0x07;
              ww_vid := 0; ww_pid := 0 |}
  else if String.eqb "an21" type then
    if negb has_path then None
    else
      Some {| first_byte := 0xB2;
              cpucs_addr := 0x7f92; is_external := fx_is_external;
              ee_start := 7; request_code := request;
              config_byte := 0;
              ww_vid := 0; ww_pid := 0 |}
  else None.

(** [if (ww_config_vid >= 0) ww_vid = ww_config_vid;] with [ww_vid] an
    [unsigned short]. *)
Definition resolve_id (default override : Z) : Z :=
  if override >=? 0 then u16 override else default.

Definition identity_record (vid pid : Z) : list Z :=
  [Z.land vid 0xff; Z.land (Z.shiftr vid 8) 0xff;
   Z.land pid 0xff; Z.land (Z.shiftr pid 8) 0xff; 0x05; 0xa0].

(** The block under [if (path)]: "scan the image, write to EEPROM" and
    "append a reset command". *)
Definition write_segments (dev : Z) (image : list ascii) (v : eeprom_setup)
  : io Z :=
  fun w =>
    let ctx := {| ee_device := dev; ee_addr := ee_start v; last := false;
                  eeprom_request := request_code v |} in
    let '(status, (ctx, w)) :=
      parse_ihex (Some (is_external v)) eeprom_poke image (ctx, w) in
    if status <? 0 then (status, w)
    else
      let ctx := {| ee_device := ee_device ctx; ee_addr := ee_addr ctx;
                    last := true; eeprom_request := eeprom_request ctx |} in
      let '(status, (_, w)) :=
        eeprom_poke (cpucs_addr v) false [0] 1 (ctx, w) in
      (status, w).

(** The part of [ezusb_load_eeprom] from "mark EEPROM as unbootable" on.
    A step that is skipped leaves nothing to check, written [ret 0]. *)
Definition write_image (dev : Z) (image : option (list ascii))
    (type : string) (v : eeprom_setup)
    (ww_config_vid ww_config_pid : Z) : io Z :=
  (check ezusb_write ioctl dev "mark EEPROM as unbootable"
           (request_code v) 0 [0x00] 1 ;;
   let vid := resolve_id (ww_vid v) ww_config_vid in
   let pid := resolve_id (ww_pid v) ww_config_pid in
   check (if negb (vid =? 0) && negb (pid =? 0)
          then ezusb_write ioctl dev "load VID, PID" (request_code v) 1
                 (identity_record vid pid) 6
          else ret 0) ;;
   check (match image with
          | Some text => write_segments dev text v
          | None => ret 0
          end) ;;
   check (if negb (String.eqb "an21" type)
          then ezusb_write ioctl dev "write config byte" (request_code v) 7
                 [u8 (config_byte v)] 1
          else ret 0) ;;
   check (if String.eqb "fx" type
          then ezusb_write ioctl dev "write reserved byte" (request_code v) 8
                 [0] 1
          else ret 0) ;;
   check ezusb_write ioctl dev "write EEPROM type byte"
           (request_code v) 0 [first_byte v] 1 ;;
   ret 0)%io.

Definition ezusb_load_eeprom (dev : Z) (path : option string)
    (type : string) (config : Z) (large_eeprom : bool)
    (ww_config_vid ww_config_pid : Z) : io Z :=
  fun w =>
    let opened :=
      match path with
      | Some p =>
          let '((status, buf), w) :=
            ezusb_get_eeprom_type ioctl dev [indeterminate] w in
          let value := u8 (hd indeterminate buf) in
          if (negb (status =? 1) || negb (value =? 1)) && negb (value =? 0)
          then inr (-1, w)
          else
            match fopen p with
            | None => inr (-2, w)
            | Some text => inl (Some text, w)
            end
      | None => inl (None, w)
      end in
    match opened with
    | inr failure => failure
    | inl (image, w) =>
        match select_variant path type config large_eeprom with
        | None => (-1, w)
        | Some v => write_image dev image type v ww_config_vid ww_config_pid w
        end
    end.

Definition erase_buf : list Z := repeat 0xff 32.

(** The [for (adr = 0; adr < 8192; adr += 32)] loop of
    [ezusb_erase_eeprom]; [fuel] bounds the number of turns (256 are taken). *)
Fixpoint erase_loop (fuel : nat) (dev : Z) (large_eeprom : bool) (adr : Z)
  : io Z :=
  fun w =>
    if adr <? 8192 then
      match fuel with
      | O => (0, w)
      | S fuel' =>
          let (status, w) :=
            ezusb_write ioctl dev "overwrite EEPROM with 0xff"
              (if large_eeprom then RW_EEPROM_LARGE else RW_EEPROM)
              adr erase_buf 32 w in
          if status <? 0 then (status, w)
          else erase_loop fuel' dev large_eeprom (adr + 32) w
      end
    else (0, w).

Definition ezusb_erase_eeprom (dev : Z) (large_eeprom : bool) : io Z :=
  erase_loop 256 dev large_eeprom 0.

End Loader.

(** ** Reading traces *)

(** The status [ctrl_msg] returns for an answer, and [errno] after it. *)
Definition status_of (r : reply) : Z :=
  match r with Transferred n _ => Z.of_N n | Failed _ => -1 end.

Definition errno_after (r : reply) (old : Z) : Z :=
  match r with Failed e => Z.pos e | Transferred _ _ => old end.

(** The request [ezusb_write] hands to the kernel. *)
Definition write_request (device opcode addr : Z) (bytes : list Z) (len : Z)
  : request :=
  {| rq_device := device;
     bRequestType := 0x40;
     bRequest := u8 opcode;
     wValue := u16 addr;
     wIndex := 0;
     rq_data := bytes;
     wLength := u16 len |}.

Definition write_event (label : string) (rq : request) (r : reply) : event :=
  {| ev_origin := via_write label; ev_request := rq; ev_reply := r |}.

Definition failed (e : event) : bool := reply_failed (ev_reply e).
Definition succeeded (e : event) : bool := negb (failed e).

Definition labelled (l : string) (e : event) : bool :=
  is_write e && String.eqb (label_of e) l.

Definition erase_label : string := "overwrite EEPROM with 0xff".

(** The k-th chunk written by [ezusb_erase_eeprom]. *)
Definition erase_request (dev : Z) (large_eeprom : bool) (k : nat) : request :=
  {| rq_device := dev;
     bRequestType := 0x40;
     bRequest := if large_eeprom then 0xA9 else 0xA2;
     wValue := 32 * Z.of_nat k;
     wIndex := 0;
     rq_data := repeat 0xff 32;
     wLength := 32 |}.

(** The header of an EEPROM segment, as the specification words it. *)
Definition segment_header (addr len : Z) (is_last : bool) : list Z :=
  [Z.lor (len / 256) (if is_last then 0x80 else 0); len mod 256;
   addr / 256; addr mod 256].

(** A sink that records the segments it is given and never fails. *)
Definition segment : Type := Z * bool * list Z.

Definition collect (addr : Z) (ext : bool) (bytes : list Z) (len : Z)
    (s : list segment) : Z * list segment :=
  (0, s ++ [(addr, ext, bytes)]).

Definition text (s : string) : list ascii := list_ascii_of_string s.

(** *** EEPROM frames in a trace *)

(** A segment as [eeprom_poke] frames it, with the device's two answers. *)
Record frame := mkFrame {
  fr_addr : Z;
  fr_bytes : list Z;
  fr_len : Z;
  fr_last : bool;
  fr_header_reply : reply;
  fr_payload_reply : reply
}.

Definition header_label : string := "write EEPROM segment header".
Definition payload_label : string := "write EEPROM segment".

Definition header_event (dev op cursor : Z) (f : frame) : event :=
  write_event header_label
    (write_request dev op cursor
       (segment_header (fr_addr f) (fr_len f) (fr_last f)) 4)
    (fr_header_reply f).

Definition payload_event (dev op cursor : Z) (f : frame) : event :=
  write_event payload_label
    (write_request dev op (cursor + 4) (fr_bytes f) (fr_len f))
    (fr_payload_reply f).

(** The requests of a run of frames written from [cursor] on, and the
    cursor behind them. *)
Fixpoint frame_events (dev op cursor : Z) (fs : list frame) : list event :=
  match fs with
  | [] => []
  | f :: fs' =>
      header_event dev op cursor f :: payload_event dev op cursor f ::
      frame_events dev op (u16 (cursor + 4 + fr_len f)) fs'
  end.

Fixpoint cursor_after (cursor : Z) (fs : list frame) : Z :=
  match fs with
  | [] => cursor
  | f :: fs' => cursor_after (u16 (cursor + 4 + fr_len f)) fs'
  end.

Definition framed (f : frame) : Prop :=
  reply_failed (fr_header_reply f) = false /\
  reply_failed (fr_payload_reply f) = false /\
  is_ushort (fr_addr f) /\ 0 <= fr_len f <= 1023 /\
  fr_len f = Z.of_nat (List.length (fr_bytes f)).

(** A frame that was begun and whose header or payload write failed. *)
Definition broken_frame (dev op cursor : Z) (tail : list event) : Prop :=
  exists f,
    (tail = [header_event dev op cursor f] /\
     reply_failed (fr_header_reply f) = true) \/
    (tail = [header_event dev op cursor f; payload_event dev op cursor f] /\
     reply_failed (fr_header_reply f) = false /\
     reply_failed (fr_payload_reply f) = true).

(** Space taken by the frames whose payload write is in the trace: 4 bytes
    of header and the payload, for each. *)
Fixpoint framed_size (evs : list event) : Z :=
  match evs with
  | [] => 0
  | e :: rest =>
      (if labelled payload_label e then 4 + wLength (ev_request e) else 0)
      + framed_size rest
  end.

(** The addresses at which segment headers were written, in order. *)
Definition header_addresses (evs : list event) : list Z :=
  map (fun e => wValue (ev_request e)) (filter (labelled header_label) evs).

(** *** Scripts

    [ezusb_load_eeprom] is a sequence of steps, each checked before the
    next begins.  A script lists the steps; [run_of] says what a run of
    it leaves in the trace and which status it ends with. *)

Inductive step :=
| Write (label : string) (rq : request)
| Frames (dev op start : Z)
| Skip.

Definition outcome (s : step) (status : Z) (evs : list event) : Prop :=
  match s with
  | Write label rq =>
      exists r, evs = [write_event label rq r] /\ status = status_of r
  | Frames dev op start =>
      exists fs tail,
        evs = frame_events dev op start fs ++ tail /\
        Forall framed fs /\
        ((status = 0 /\ tail = [] /\ fs <> []) \/
         (status < 0 /\
          (tail = [] \/
           (broken_frame dev op (cursor_after start fs) tail /\ status = -1))))
  | Skip => evs = [] /\ status = 0
  end.

Inductive run_of : list step -> Z -> list event -> Prop :=
| run_done : run_of [] 0 []
| run_abort s rest status evs :
    outcome s status evs -> status < 0 -> run_of (s :: rest) status evs
| run_next s rest status1 evs1 status evs2 :
    outcome s status1 evs1 -> 0 <= status1 ->
    run_of rest status evs2 ->
    run_of (s :: rest) status (evs1 ++ evs2).

(** [m] adds to the trace a list of events that, with the status, meets [P]. *)
Definition emits {A} (m : io A) (P : A -> list event -> Prop) : Prop :=
  forall w, exists evs,
    trace (snd (m w)) = trace w ++ evs /\ P (fst (m w)) evs.

Definition marker_label : string := "mark EEPROM as unbootable".
Definition identity_label : string := "load VID, PID".
Definition config_label : string := "write config byte".
Definition reserved_label : string := "write reserved byte".
Definition type_label : string := "write EEPROM type byte".

(** The steps of [ezusb_load_eeprom] once the variant is known. *)
Definition image_script (dev : Z) (image : option (list ascii))
    (type : string) (v : eeprom_setup) (ww_config_vid ww_config_pid : Z)
  : list step :=
  let op := request_code v in
  let vid := resolve_id (ww_vid v) ww_config_vid in
  let pid := resolve_id (ww_pid v) ww_config_pid in
  [ Write marker_label (write_request dev op 0 [0] 1);
    if negb (vid =? 0) && negb (pid =? 0)
    then Write identity_label
           (write_request dev op 1 (identity_record vid pid) 6)
    else Skip;
    match image with
    | Some _ => Frames dev op (ee_start v)
    | None => Skip
    end;
    if negb (String.eqb "an21" type)
    then Write config_label (write_request dev op 7 [u8 (config_byte v)] 1)
    else Skip;
    if String.eqb "fx" type
    then Write reserved_label (write_request dev op 8 [0] 1)
    else Skip;
    Write type_label (write_request dev op 0 [first_byte v] 1) ].

(** The request [ezusb_read] hands to the kernel. *)
Definition read_request (device opcode addr : Z) (buf : list Z) (len : Z)
  : request :=
  {| rq_device := device;
     bRequestType := 0xC0;
     bRequest := u8 opcode;
     wValue := u16 addr;
     wIndex := 0;
     rq_data := buf;
     wLength := u16 len |}.

Definition buffer_after (r : reply) (buf : list Z) : list Z :=
  match r with Transferred _ b => b | Failed _ => buf end.

(** The labels of the steps that come before the type byte is written. *)
Definition early_labels : list string :=
  [marker_label; identity_label; header_label; payload_label;
   config_label; reserved_label].

Definition step_labels (ls : list string) (s : step) : Prop :=
  match s with
  | Write l _ => In l ls
  | Frames _ _ _ => In header_label ls /\ In payload_label ls
  | Skip => True
  end.

(** The cursor as the specification words it: the initial offset, plus
    4 + L for every framed segment of length L, plus the size of the
    identity block. *)
Definition spec_cursor (initial : Z) (lengths : list Z) (identity_block : Z)
  : Z :=
  initial + fold_right (fun l acc => (4 + l) + acc) 0 lengths + identity_block.

(** A device that accepts every request and reports a large EEPROM. *)
Definition obliging_device (_ : list event) (_ : request) : reply :=
  Transferred 1 [1].

Definition fresh_world : world := {| trace := []; errno := 0 |}.

Definition LF_string : string := String LF EmptyString.

(** One record of 16 bytes at address 0 and the end-of-file record. *)
Definition one_record_image : list ascii :=
  text (":10000000000102030405060708090A0B0C0D0E0FCC" ++ LF_string ++
        ":00000001FF" ++ LF_string).

(** *** Writes to RAM in a trace *)

Definition ram_label (ext : bool) : string :=
  if ext then "write external" else "write on-chip".

Definition ram_request (dev : Z) (ext : bool) (addr : Z) (bytes : list Z)
    (len : Z) : request :=
  write_request dev (if ext then RW_MEMORY else RW_INTERNAL) addr bytes len.

(** The answer of a request that timed out. *)
Definition timed_out (e : event) : Prop :=
  exists code, ev_reply e = Failed code /\ Z.pos code = ETIMEDOUT.

(** An attempt of [ram_poke] to write a segment, with the device's
    answer. *)
Definition ram_attempt (dev : Z) (ext : bool) (addr : Z) (bytes : list Z)
    (len : Z) (r : reply) : event :=
  write_event (ram_label ext) (ram_request dev ext addr bytes len) r.

(** Whether [ram_poke] writes a segment in the given mode. *)
Definition ram_writes (m : ram_mode) (ext : bool) : bool :=
  match m with
  | internal_only => negb ext
  | skip_internal => ext
  | skip_external => negb ext
  | _undef => false
  end.

(** A trace in which every failed write is a timeout followed by a retry
    of the same request ([retried_only]), or is the last event
    ([retried_or_last]). *)
Definition retry_of (e e' : event) : Prop :=
  is_write e' = true /\ label_of e' = label_of e /\
  ev_request e' = ev_request e.

Inductive retried_only : list event -> Prop :=
| ro_nil : retried_only []
| ro_fine e evs :
    is_write e = false \/ failed e = false ->
    retried_only evs -> retried_only (e :: evs)
| ro_retry e e' evs :
    timed_out e -> retry_of e e' ->
    retried_only (e' :: evs) -> retried_only (e :: e' :: evs).

Inductive retried_or_last : list event -> Prop :=
| rl_nil : retried_or_last []
| rl_last e : retried_or_last [e]
| rl_fine e evs :
    is_write e = false \/ failed e = false ->
    retried_or_last evs -> retried_or_last (e :: evs)
| rl_retry e e' evs :
    timed_out e -> retry_of e e' ->
    retried_or_last (e' :: evs) -> retried_or_last (e :: e' :: evs).

(** What a step of [ezusb_load_ram] leaves behind: with status 0 every
    failed write was retried; with a failure the last event may be the
    failed write. *)
Definition ram_discipline (status : Z) (evs : list event) : Prop :=
  (status = 0 /\ retried_only evs) \/ (status < 0 /\ retried_or_last evs).

Definition ram_steady (t0 : list event) (s : ram_poke_context * world) : Prop :=
  exists evs, trace (snd s) = t0 ++ evs /\ retried_only evs.

Definition ram_stopped (t0 : list event) (s : ram_poke_context * world) : Prop :=
  exists evs, trace (snd s) = t0 ++ evs /\ retried_or_last evs.

(** The request [ezusb_cpucs] hands to the kernel. *)
Definition cpucs_request (device addr : Z) (doRun : bool) : request :=
  {| rq_device := device;
     bRequestType := 0x40;
     bRequest := RW_INTERNAL;
     wValue := u16 addr;
     wIndex := 0;
     rq_data := [if doRun then 0 else 1];
     wLength := 1 |}.

(** *** Lines of an image *)

Definition is_hex (c : ascii) : bool :=
  match hex_digit c with Some _ => true | None => false end.

Definition is_comment_line (buf : list ascii) : bool :=
  match buf with
  | "#"%char :: _ => true
  | _ => false
  end.

(** A data record the loop accepts: type 0, long enough for its length
    field, and with hexadecimal digits in its fields. *)
Definition is_data_line (buf : list ascii) : bool :=
  match buf with
  | ":"%char :: _ =>
      let line := c_string buf in
      let len := hex_field line 1 2 in
      (hex_field line 7 2 =? 0) && (len * 2 + 11 <=? strlen line)
      && forallb is_hex (firstn (Z.to_nat (8 + 2 * len)) (skipn 1 line))
  | _ => false
  end.

(** A data record and nothing else: the input ends without an
    end-of-file record. *)
Definition unterminated_image : list ascii :=
  text (":0100000055AA" ++ LF_string).

(** Two contiguous records of 16 bytes at 0x0000 and 0x0010. *)
Definition two_record_image : list ascii :=
  text (":10000000000102030405060708090A0B0C0D0E0FCC" ++ LF_string ++
        ":10001000101112131415161718191A1B1C1D1E1FCC" ++ LF_string ++
        ":00000001FF" ++ LF_string).

(** A record without data at 0x0100, then two bytes for 0x0200. *)
Definition empty_record_image : list ascii :=
  text (":00010000FF" ++ LF_string ++
        ":02020000AABB97" ++ LF_string ++
        ":00000001FF" ++ LF_string).

(** The length and offset fields of a record line. *)
Definition record_len (buf : list ascii) : Z := hex_field (c_string buf) 1 2.
Definition record_off (buf : list ascii) : Z := hex_field (c_string buf) 3 4.

(** *** Invariants of the parser and of the sinks *)

(** The buffer never holds more than its 1023 bytes, and its start is a
    16-bit address. *)
Definition buffer_ok (ps : parse_state) : Prop :=
  is_ushort (data_addr ps) /\ data_len ps <= sizeof_data.

(** How [parse_ihex] ends when it does not end with 0: the sink failed
    ([F] holds of its state), or a line was rejected ([I] still holds). *)
Definition sink_outcome {St} (I F : St -> Prop) (rc : Z) (s : St) : Prop :=
  (rc = -1 /\ F s) \/ ((rc = -2 \/ rc = -3 \/ rc = -4) /\ I s).

(** Every call of [eeprom_poke] so far has framed its segment. *)
Definition frames_written (dev op start : Z) (t0 : list event)
    (s : eeprom_poke_context * world) : Prop :=
  exists fs,
    trace (snd s) = t0 ++ frame_events dev op start fs /\
    Forall framed fs /\
    fst s = {| ee_device := dev; ee_addr := cursor_after start fs;
               last := false; eeprom_request := op |}.

(** A call of [eeprom_poke] has failed: it rejected the segment, or one of
    its two writes failed. *)
Definition frames_aborted (dev op start : Z) (t0 : list event)
    (s : eeprom_poke_context * world) : Prop :=
  exists fs tail,
    trace (snd s) = t0 ++ frame_events dev op start fs ++ tail /\
    Forall framed fs /\
    (tail = [] \/ broken_frame dev op (cursor_after start fs) tail).

(** A list of events in which only the last may have failed. *)
Definition failure_last (evs : list event) : Prop :=
  exists good tail,
    evs = good ++ tail /\ Forall (fun e => failed e = false) good /\
    (tail = [] \/ exists e, tail = [e] /\ failed e = true).

(** *** The single writes of [ezusb_load_eeprom] *)

Definition marker_event (dev : Z) (v : eeprom_setup) (r : reply) : event :=
  write_event marker_label (write_request dev (request_code v) 0 [0] 1) r.

Definition identity_event (dev : Z) (v : eeprom_setup)
    (ww_config_vid ww_config_pid : Z) (r : reply) : event :=
  write_event identity_label
    (write_request dev (request_code v) 1
       (identity_record (resolve_id (ww_vid v) ww_config_vid)
                        (resolve_id (ww_pid v) ww_config_pid)) 6) r.

Definition config_event (dev : Z) (v : eeprom_setup) (r : reply) : event :=
  write_event config_label
    (write_request dev (request_code v) 7 [u8 (config_byte v)] 1) r.

Definition reserved_event (dev : Z) (v : eeprom_setup) (r : reply) : event :=
  write_event reserved_label (write_request dev (request_code v) 8 [0] 1) r.

Definition type_event (dev : Z) (v : eeprom_setup) (r : reply) : event :=
  write_event type_label
    (write_request dev (request_code v) 0 [first_byte v] 1) r.

(** *** Sample inputs *)

Definition sample_context : eeprom_poke_context :=
  {| ee_device := 3; ee_addr := 8; last := false;
     eeprom_request := RW_EEPROM_LARGE |}.

(** What [select_variant] sets up for an FX2 with an image, a zero config
    byte and a large EEPROM. *)
Definition fx2_setup : eeprom_setup :=
  {| first_byte := 0xC2; cpucs_addr := 0xe600;
     is_external := fx2_is_external; ee_start := 8;
     request_code := RW_EEPROM_LARGE; config_byte := 0;
     ww_vid := 0x04B4; ww_pid := 0x6473 |}.

Definition sample_load : Z * world :=
  ezusb_load_eeprom obliging_device (fun _ => Some one_record_image) 0 3
    (Some "fw.ihx"%string) "fx2" 0 true (-1) (-1) fresh_world.

Definition sample_ram_context : ram_poke_context :=
  {| ram_device := 3; mode := internal_only; total := 0; count := 0 |}.

(** ** The classifier of the FX and AN21 parts *)

Definition fx_internal (addr len : Z) : Prop :=
  within_window 0x0000 0x1b3f addr len.

(** ** The scope of the embedding of [strtoul]

    The loop reads its fields with [strtoul], which is embedded for
    strings of hexadecimal digits.  A line is in scope when it is not a
    record, or when it holds the 8 characters of the length, offset and
    type fields, all hexadecimal digits, and, for a data record that is
    long enough for its length field, hexadecimal digits as data. *)

Definition line_in_scope (buf : list ascii) : bool :=
  match buf with
  | ":"%char :: _ =>
      let line := c_string buf in
      let len := hex_field line 1 2 in
      (9 <=? strlen line)
      && forallb is_hex (firstn 8 (skipn 1 line))
      && (negb (hex_field line 7 2 =? 0)
          || (len * 2 + 11 >? strlen line)
          || forallb is_hex (firstn (Z.to_nat (2 * len)) (skipn 9 line)))
  | _ => true
  end.

Definition image_in_scope (image : list ascii) : Prop :=
  Forall (fun buf => line_in_scope buf = true) (fgets_lines image).

(** ** Segments of an image

    What [parse_ihex] hands to a sink that accepts everything: the
    segments in the order of the calls, and the status of the scan. *)

Definition scan (cls : option (Z -> Z -> bool)) (image : list ascii)
  : Z * list segment :=
  parse_ihex cls collect image [].

Definition segments (cls : option (Z -> Z -> bool)) (image : list ascii)
  : list segment :=
  snd (scan cls image).

Definition scan_status (cls : option (Z -> Z -> bool)) (image : list ascii)
  : Z :=
  fst (scan cls image).

(** Calling a sink on a list of segments in order, up to the first call
    that returns a negative status; the result is then -1, as in
    [parse_ihex]. *)
Fixpoint feed {St : Type} (poke : Z -> bool -> list Z -> Z -> St -> Z * St)
    (segs : list segment) (s : St) : Z * St :=
  match segs with
  | [] => (0, s)
  | (addr, ext, bytes) :: rest =>
      let (rc, s') := poke addr ext bytes (Z.of_nat (List.length bytes)) s in
      if rc <? 0 then (-1, s') else feed poke rest s'
  end.

(** An end-of-file record, as the loop recognises it. *)
Definition is_eof_line (buf : list ascii) : bool :=
  match buf with
  | ":"%char :: _ => hex_field (c_string buf) 7 2 =? 1
  | _ => false
  end.

(** The lines before the first end-of-file record. *)
Fixpoint body_of (lines : list (list ascii)) : list (list ascii) :=
  match lines with
  | [] => []
  | buf :: rest => if is_eof_line buf then [] else buf :: body_of rest
  end.

(** The lines the result of a scan depends on: those before the first
    end-of-file record that are not comments. *)
Definition significant (lines : list (list ascii)) : list (list ascii) :=
  filter (fun buf => negb (is_comment_line buf)) (body_of lines).

(** The status with which the loop rejects a line, 0 when it does not. *)
Definition line_verdict (buf : list ascii) : Z :=
  match buf with
  | "#"%char :: _ => 0
  | ":"%char :: _ =>
      let line := c_string buf in
      let type := hex_field line 7 2 in
      if type =? 1 then 0
      else if negb (type =? 0) then -3
      else if hex_field line 1 2 * 2 + 11 >? strlen line then -4
      else 0
  | _ => -2
  end.

(** The first negative number of a list, 0 when there is none. *)
Definition first_negative (l : list Z) : Z :=
  hd 0 (filter (fun z => z <? 0) l).

(** The bytes of a segment with the addresses they are meant for. *)
Fixpoint placed (addr : Z) (bytes : list Z) : list (Z * Z) :=
  match bytes with
  | [] => []
  | b :: rest => (addr, b) :: placed (addr + 1) rest
  end.

Definition segment_placed (seg : segment) : list (Z * Z) :=
  let '(addr, _, bytes) := seg in placed addr bytes.

Definition record_placed (buf : list ascii) : list (Z * Z) :=
  placed (record_off buf) (record_bytes (c_string buf) (record_len buf)).

(** What holds of every segment a sink is given. *)
Definition segment_shape (cls : option (Z -> Z -> bool)) (seg : segment)
  : Prop :=
  let '(addr, ext, bytes) := seg in
  is_ushort addr /\
  1 <= Z.of_nat (List.length bytes) <= 1023 /\
  Forall (fun b => 0 <= b < 256) bytes /\
  ext = match cls with
        | Some f => f addr (Z.of_nat (List.length bytes))
        | None => false
        end.

(** The flow of the loop with a sink, given the segments [new] that the
    same turns hand to [collect] and the flow [k] they end with there. *)
Definition fed {St : Type} (poke : Z -> bool -> list Z -> Z -> St -> Z * St)
    (new : list segment) (s : St) (k : St -> @flow St) : @flow St :=
  let (rc, s') := feed poke new s in
  if rc <? 0 then Return (-1) s' else k s'.

(** What [parse_ihex] returns once the loop is left. *)
Definition finish {St : Type} (cls : option (Z -> Z -> bool))
    (poke : Z -> bool -> list Z -> Z -> St -> Z * St) (f : @flow St)
  : Z * St :=
  match f with
  | Return rc s => (rc, s)
  | Break ps s | Continue ps s => parse_finish cls poke ps s
  end.

(** The buffer is empty as long as no record has been read. *)
Definition fresh_or_started (ps : parse_state) : Prop :=
  first_line ps = true -> data ps = [].

(** What the loop keeps of its buffer when the sink is [collect]: bytes
    are bytes, and without a classifier [external] stays 0. *)
Definition buffer_shape (cls : option (Z -> Z -> bool)) (ps : parse_state)
  : Prop :=
  buffer_ok ps /\ Forall (fun b => 0 <= b < 256) (data ps) /\
  (cls = None -> external ps = false).

(** With records that all carry data, the buffer is empty exactly as long
    as no record has been read. *)
Definition buffer_started (ps : parse_state) : Prop :=
  if first_line ps then data ps = [] else data ps <> [].

(** The bytes delivered so far and those still in the buffer, with their
    addresses. *)
Definition placed_so_far (acc : list segment) (ps : parse_state)
  : list (Z * Z) :=
  List.concat (map segment_placed acc) ++ placed (data_addr ps) (data ps).

(** ** Reading the trace of [ezusb_load_ram] *)

Definition cpucs_event (fd addr : Z) (doRun : bool) (r : reply) : event :=
  {| ev_origin := via_cpucs; ev_request := cpucs_request fd addr doRun;
     ev_reply := r |}.

(** The choice [ezusb_load_ram] makes from its [fx2] argument. *)
Definition ram_cpucs_addr (fx2 : Z) : Z :=
  if fx2 =? 2 then 0xe600 else if negb (fx2 =? 0) then 0xe600 else 0x7f92.

Definition ram_classifier (fx2 : Z) : Z -> Z -> bool :=
  if fx2 =? 2 then fx2lp_is_external
  else if negb (fx2 =? 0) then fx2_is_external
  else fx_is_external.

Definition segment_external (seg : segment) : bool := snd (fst seg).

(** The requests [ram_poke] makes for a segment it writes: attempts that
    timed out, at most [RETRY_LIMIT] of them, then a last attempt, which
    succeeded when [ok] is true and failed when it is false. *)
Definition segment_attempts (dev : Z) (seg : segment) (ok : bool)
    (evs : list event) : Prop :=
  let '(addr, ext, bytes) := seg in
  let attempt :=
    ram_attempt dev ext addr bytes (Z.of_nat (List.length bytes)) in
  exists retried final,
    evs = retried ++ [final] /\
    (List.length retried <= RETRY_LIMIT)%nat /\
    Forall (fun e => e = attempt (ev_reply e) /\ timed_out e) retried /\
    final = attempt (ev_reply final) /\
    failed final = negb ok.

(** The requests of a scan with [ram_poke] in a given mode, and what
    [feed] returns: the segments the mode leaves out are passed over,
    the others are written in order; the scan stops at a segment the
    mode refuses, and at a write that failed. *)
Inductive ram_fed (dev : Z) (m : ram_mode)
  : list segment -> Z -> list event -> Prop :=
| rf_done : ram_fed dev m [] 0 []
| rf_skip seg segs status evs :
    ram_writes m (segment_external seg) = false ->
    m = skip_internal \/ m = skip_external ->
    ram_fed dev m segs status evs ->
    ram_fed dev m (seg :: segs) status evs
| rf_refuse seg segs :
    ram_writes m (segment_external seg) = false ->
    m = internal_only \/ m = _undef ->
    ram_fed dev m (seg :: segs) (-1) []
| rf_write seg segs part status evs :
    ram_writes m (segment_external seg) = true ->
    segment_attempts dev seg true part ->
    ram_fed dev m segs status evs ->
    ram_fed dev m (seg :: segs) status (part ++ evs)
| rf_fail seg segs part :
    ram_writes m (segment_external seg) = true ->
    segment_attempts dev seg false part ->
    ram_fed dev m (seg :: segs) (-1) part.

(** Steps that are checked one after the other: a run ends at the first
    step with a negative status, which is then the status of the run, and
    with 0 after the last. *)
Inductive steps_run {S : Type} (out : S -> Z -> list event -> Prop)
  : list S -> Z -> list event -> Prop :=
| sr_done : steps_run out [] 0 []
| sr_abort s rest status evs :
    out s status evs -> status < 0 -> steps_run out (s :: rest) status evs
| sr_next s rest status1 evs1 status evs2 :
    out s status1 evs1 -> 0 <= status1 ->
    steps_run out rest status evs2 ->
    steps_run out (s :: rest) status (evs1 ++ evs2).

Inductive ram_step :=
| Halt
| Release
| Scan (m : ram_mode).

(** What a step of [ezusb_load_ram] requests and the status it is
    checked with; [segs] and [scan_st] are the segments of the image and
    the status of its scan. *)
Definition ram_outcome (fd addr : Z) (segs : list segment) (scan_st : Z)
    (s : ram_step) (status : Z) (evs : list event) : Prop :=
  match s with
  | Halt =>
      exists r, evs = [cpucs_event fd addr false r] /\
                status = (if status_of r =? 1 then 0 else -1)
  | Release =>
      exists r, evs = [cpucs_event fd addr true r] /\
                status = (if status_of r =? 1 then 0 else -1)
  | Scan m =>
      exists st, ram_fed fd m segs st evs /\
                 status = (if st <? 0 then -1 else scan_st)
  end.

Definition ram_plan (stage : Z) : list ram_step :=
  if stage =? 0 then [Halt; Scan internal_only; Release]
  else [Scan skip_internal; Halt; Scan skip_external; Release].

(** The steps of the plan before the release of the CPU. *)
Definition ram_plan_scans (stage : Z) : list ram_step :=
  if stage =? 0 then [Halt; Scan internal_only]
  else [Scan skip_internal; Halt; Scan skip_external].

(** The statistics line of [ezusb_load_ram] divides by the number of
    segments counted, an [unsigned]: with [verbose] set and no segment
    counted the division is by zero. *)
Definition divides_by_zero (verbose : Z) (segs : list segment) : bool :=
  negb (verbose =? 0) && (u32 (Z.of_nat (List.length segs)) =? 0).

(** A call of [ezusb_load_ram] on an open image.  A call that returns
    has run the plan, and where the statistics line divides by zero it
    stopped at a step before the release; a call that does not return
    has run the steps before the release, all with success, and was
    killed in the statistics line. *)
Definition ram_run (fd addr : Z) (segs : list segment) (scan_st : Z)
    (verbose stage : Z) (r : option Z) (evs : list event) : Prop :=
  let out := ram_outcome fd addr segs scan_st in
  match r with
  | Some status =>
      steps_run out (ram_plan stage) status evs /\
      (divides_by_zero verbose segs = true ->
       status < 0 /\ steps_run out (ram_plan_scans stage) status evs)
  | None =>
      divides_by_zero verbose segs = true /\
      steps_run out (ram_plan_scans stage) 0 evs
  end.

(** [ram_discipline] for a call that may not return: one that is killed
    has retried every failed write. *)
Definition ram_call_discipline (r : option Z) (evs : list event) : Prop :=
  match r with
  | Some status => ram_discipline status evs
  | None => retried_only evs
  end.

(** A request of [ram_poke] for some segment: to external memory when
    [ext] is true, to on-chip memory otherwise. *)
Definition ram_write_event (fd : Z) (ext : bool) (e : event) : Prop :=
  exists addr bytes,
    e = ram_attempt fd ext addr bytes (Z.of_nat (List.length bytes))
          (ev_reply e).

(** The writes of a trace that the device accepted: request code,
    address and bytes of each. *)
Definition writes_done (evs : list event) : list (Z * Z * list Z) :=
  map (fun e => (bRequest (ev_request e), wValue (ev_request e),
                 rq_data (ev_request e)))
      (filter (fun e => is_write e && succeeded e) evs).

(** The write that stores a segment. *)
Definition segment_write (seg : segment) : Z * Z * list Z :=
  let '(addr, ext, bytes) := seg in
  (if ext then RW_MEMORY else RW_INTERNAL, addr, bytes).

Definition is_cpucs (e : event) : bool :=
  match ev_origin e with
  | via_cpucs => true
  | _ => false
  end.

(** ** Reading the trace of [ezusb_load_eeprom] in full *)

(** What a frame holds: the address and the bytes of its segment, and
    whether it is flagged as the last. *)
Definition frame_content (f : frame) : Z * list Z * bool :=
  (fr_addr f, fr_bytes f, fr_last f).

Definition segment_frame (seg : segment) : Z * list Z * bool :=
  let '(addr, _, bytes) := seg in (addr, bytes, false).

(** The frames of an image: its segments, then the reset record, one
    byte 0 for the CPUCS register, flagged as the last. *)
Definition image_frames (segs : list segment) (reset_addr : Z)
  : list (Z * list Z * bool) :=
  map segment_frame segs ++ [(reset_addr, [0], true)].

(** A step of [ezusb_load_eeprom], with what the frames hold: as
    [outcome], and for the segments of the image, the frames written are
    the first of [image_frames], all of them when the status is 0. *)
Definition eeprom_outcome (segs : list segment) (scan_st : Z)
    (reset_addr : Z) (s : step) (status : Z) (evs : list event) : Prop :=
  match s with
  | Frames dev op start =>
      exists fs tail,
        evs = frame_events dev op start fs ++ tail /\
        Forall framed fs /\
        (exists more,
           image_frames segs reset_addr = map frame_content fs ++ more) /\
        ((status = 0 /\ tail = [] /\ scan_st = 0 /\
          Forall (fun seg => segment_external seg = false) segs /\
          map frame_content fs = image_frames segs reset_addr) \/
         (-4 <= status < 0 /\
          (tail = [] \/
           (broken_frame dev op (cursor_after start fs) tail /\
            status = -1))))
  | _ => outcome s status evs
  end.

(** The two writes of each frame, from [cursor] on: request code,
    address and bytes. *)
Fixpoint frame_writes (op cursor : Z) (contents : list (Z * list Z * bool))
  : list (Z * Z * list Z) :=
  match contents with
  | [] => []
  | (addr, bytes, is_last) :: rest =>
      let len := Z.of_nat (List.length bytes) in
      (op, u16 cursor, segment_header addr len is_last)
      :: (op, u16 (cursor + 4), bytes)
      :: frame_writes op (u16 (cursor + 4 + len)) rest
  end.

(** Everything a call of [ezusb_load_eeprom] that succeeds writes, in
    order: the marker, the identity record, the frames of the image, the
    config byte, the reserved byte, the type byte. *)
Definition eeprom_writes (type : string) (v : eeprom_setup)
    (ww_config_vid ww_config_pid : Z) (segs : option (list segment))
  : list (Z * Z * list Z) :=
  let op := request_code v in
  let vid := resolve_id (ww_vid v) ww_config_vid in
  let pid := resolve_id (ww_pid v) ww_config_pid in
  [(op, 0, [0])]
  ++ (if negb (vid =? 0) && negb (pid =? 0)
      then [(op, 1, identity_record vid pid)] else [])
  ++ match segs with
     | Some l => frame_writes op (ee_start v) (image_frames l (cpucs_addr v))
     | None => []
     end
  ++ (if negb (String.eqb "an21" type)
      then [(op, 7, [u8 (config_byte v)])] else [])
  ++ (if String.eqb "fx" type then [(op, 8, [0])] else [])
  ++ [(op, 0, [first_byte v])].

(** The request for the size of the EEPROM, and the byte [value] holds
    after it. *)
Definition size_event (dev indeterminate : Z) (r : reply) : event :=
  {| ev_origin := via_read "get EEPROM size";
     ev_request := read_request dev GET_EEPROM_SIZE 0 [indeterminate] 1;
     ev_reply := r |}.

Definition size_value (indeterminate : Z) (r : reply) : Z :=
  u8 (hd indeterminate (buffer_after r [indeterminate])).

(** The call goes on when the device answered with one byte of value 1,
    and also when [value] is 0. *)
Definition size_accepted (indeterminate : Z) (r : reply) : bool :=
  ((status_of r =? 1) && (size_value indeterminate r =? 1))
  || (size_value indeterminate r =? 0).

(** The segments of the image [ezusb_load_eeprom] was given, and the
    status of its scan; without an image there is nothing to scan. *)
Definition image_segments (v : eeprom_setup) (image : option (list ascii))
  : list segment :=
  match image with
  | Some text => segments (Some (is_external v)) text
  | None => []
  end.

Definition image_status (v : eeprom_setup) (image : option (list ascii)) : Z :=
  match image with
  | Some text => scan_status (Some (is_external v)) text
  | None => 0
  end.

(** The writes of a step that succeeds. *)
Definition step_writes (frames : list (Z * list Z * bool)) (s : step)
  : list (Z * Z * list Z) :=
  match s with
  | Write _ rq => [(bRequest rq, wValue rq, rq_data rq)]
  | Frames _ op start => frame_writes (u8 op) start frames
  | Skip => []
  end.

(** The requests that belong to frames. *)
Definition is_frame_event (e : event) : bool :=
  labelled header_label e || labelled payload_label e.

(** *** More sample inputs *)

(** A comment, a data record, the end-of-file record, and a line behind
    it that is not a record. *)
Definition commented_image : list ascii :=
  text ("# a comment" ++ LF_string ++
        ":0100000055AA" ++ LF_string ++
        ":00000001FF" ++ LF_string ++
        "not a record" ++ LF_string).

(** A comment and the end-of-file record. *)
Definition comment_only_image : list ascii :=
  text ("# a comment" ++ LF_string ++ ":00000001FF" ++ LF_string).

(** The record of [unterminated_image] with another checksum. *)
Definition bad_checksum_line : list ascii :=
  text (":010000005500" ++ LF_string).

Definition sample_fopen (_ : string) : option (list ascii) :=
  Some one_record_image.

Definition sample_ram_load : option Z * world :=
  ezusb_load_ram obliging_device sample_fopen 1 3 "fw.ihx" 1 0 fresh_world.

(** A verbose load of an image without a data record. *)
Definition sample_killed_load : option Z * world :=
  ezusb_load_ram obliging_device (fun _ => Some comment_only_image) 1 3
    "fw.ihx" 1 0 fresh_world.

(** ** An image larger than the 16-bit address space of the EEPROM *)

(** A data record for offset 0 whose bytes are all 0; [len_field] and
    [checksum] are its length and checksum fields. *)
Definition zero_record (len_field : string) (len : nat) (checksum : string)
  : list ascii :=
  text (":" ++ len_field ++ "000000") ++ repeat "0"%char (2 * len)
  ++ text (checksum ++ LF_string).

(** 258 records of 249 bytes and one of 246 bytes, every one a segment
    of its own since each starts at offset 0 again: framed from offset 8
    they fill the EEPROM up to offset 65532.  Then one record with the
    byte 0xC2, and the end-of-file record. *)
Definition oversized_image : list ascii :=
  List.concat (repeat (zero_record "F9" 249 "07") 258)
  ++ zero_record "F6" 246 "0A"
  ++ text (":01000000C23D" ++ LF_string ++ ":00000001FF" ++ LF_string).

(** A device that transfers every request in full, but fails the write of
    the header of the reset record with EIO. *)
Definition interrupted_device (_ : list event) (rq : request) : reply :=
  if list_eq_dec Z.eq_dec (rq_data rq) [0x80; 0x01; 0xe6; 0x00]
  then Failed 5
  else if bRequestType rq =? 0xC0 then Transferred 1 [1]
  else Transferred (Z.to_N (wLength rq)) [].

Definition oversized_load : Z * world :=
  ezusb_load_eeprom interrupted_device (fun _ => Some oversized_image) 0 3
    (Some "fw.ihx"%string) "fx2" 0 true (-1) (-1) fresh_world.

(** The writes of a trace to offset 0: label, bytes, and whether the
    write failed. *)
Definition writes_to_type_byte (evs : list event)
  : list (string * list Z * bool) :=
  map (fun e => (label_of e, rq_data (ev_request e), failed e))
      (filter (fun e => is_write e && (wValue (ev_request e) =? 0)) evs).

(** ** Checking the scope of an image *)

Lemma in_scope_by_check image :
  forallb line_in_scope (fgets_lines image) = true -> image_in_scope image.
Proof.
  intros H. apply Forall_forall. intros buf Hin.
  exact (proj1 (forallb_forall _ _) H buf Hin).
Qed.

(** * Properties *)

(** ** Machine arithmetic *)

Lemma size_t_wrap_small z : 0 <= z <= SIZE_MAX -> size_t_wrap z = z.
Proof.
  intros H. unfold size_t_wrap. apply Z.mod_small. unfold SIZE_MAX in *. lia.
Qed.

Lemma u16_small z : 0 <= z <= USHRT_MAX -> u16 z = z.
Proof. intros H. unfold u16. apply Z.mod_small. unfold USHRT_MAX in H. lia. Qed.

Lemma u8_small z : 0 <= z < 256 -> u8 z = z.
Proof. intros H. unfold u8. apply Z.mod_small. lia. Qed.

Lemma u16_range z : 0 <= u16 z <= USHRT_MAX.
Proof.
  unfold u16, USHRT_MAX. pose proof (Z.mod_pos_bound z 65536). lia.
Qed.

Lemma u8_range z : 0 <= u8 z < 256.
Proof. unfold u8. apply Z.mod_pos_bound. lia. Qed.

Lemma status_of_negative r : (status_of r <? 0) = reply_failed r.
Proof.
  destruct r as [n buf|e]; simpl.
  - apply Z.ltb_ge. lia.
  - reflexivity.
Qed.

(** ** The classifiers *)

Lemma fx2_is_external_false addr len :
  is_ushort addr -> is_size_t len -> addr + len <= SIZE_MAX ->
  fx2_is_external addr len = false <-> fx2_internal addr len.
Proof.
  unfold is_ushort, is_size_t, USHRT_MAX, fx2_internal, within_window.
  intros Ha Hl Hs. unfold fx2_is_external.
  rewrite size_t_wrap_small by lia.
  destruct (Z.leb_spec addr 0x1fff).
  - destruct (Z.gtb_spec (addr + len) 0x2000); split; intros; try discriminate; lia.
  - destruct (Z.geb_spec addr 0xe000); simpl.
    + destruct (Z.leb_spec addr 0xe1ff).
      * destruct (Z.gtb_spec (addr + len) 0xe200); split; intros;
          try discriminate; lia.
      * split; intros; try discriminate; lia.
    + split; intros; try discriminate; lia.
Qed.

Lemma fx2lp_is_external_false addr len :
  is_ushort addr -> is_size_t len -> addr + len <= SIZE_MAX ->
  fx2lp_is_external addr len = false <-> fx2lp_internal addr len.
Proof.
  unfold is_ushort, is_size_t, USHRT_MAX, fx2lp_internal, within_window.
  intros Ha Hl Hs. unfold fx2lp_is_external.
  rewrite size_t_wrap_small by lia.
  destruct (Z.leb_spec addr 0x3fff).
  - destruct (Z.gtb_spec (addr + len) 0x4000); split; intros; try discriminate; lia.
  - destruct (Z.geb_spec addr 0xe000); simpl.
    + destruct (Z.leb_spec addr 0xe1ff).
      * destruct (Z.gtb_spec (addr + len) 0xe200); split; intros;
          try discriminate; lia.
      * split; intros; try discriminate; lia.
    + split; intros; try discriminate; lia.
Qed.

Lemma bool_true_iff_not_false (b : bool) (P : Prop) :
  (b = false <-> P) -> (b = true <-> ~ P).
Proof.
  intros [H1 H2]. destruct b; split; intros H; try reflexivity; try discriminate.
  - intros HP. apply H2 in HP. discriminate.
  - exfalso. apply H. apply H1. reflexivity.
Qed.

(** C7.  For an [unsigned short] address and a [size_t] length whose sum is
    representable, [fx2_is_external] answers false exactly when the range
    lies in the window 0x0000-0x1fff (not past 0x2000) or in the window
    0xe000-0xe1ff (not past 0xe200), and true in every other case;
    [fx2lp_is_external] is the same with the low window 0x0000-0x3fff
    (bound 0x4000).  Both are functions of their two arguments only. *)
Theorem fx2_fx2lp_classification addr len :
  is_ushort addr -> is_size_t len -> addr + len <= SIZE_MAX ->
  (fx2_is_external addr len = false <-> fx2_internal addr len) /\
  (fx2_is_external addr len = true <-> ~ fx2_internal addr len) /\
  (fx2lp_is_external addr len = false <-> fx2lp_internal addr len) /\
  (fx2lp_is_external addr len = true <-> ~ fx2lp_internal addr len).
Proof.
  intros Ha Hl Hs.
  pose proof (fx2_is_external_false addr len Ha Hl Hs) as H2.
  pose proof (fx2lp_is_external_false addr len Ha Hl Hs) as H2lp.
  repeat split; try apply H2; try apply H2lp;
    try (apply (bool_true_iff_not_false _ _ H2));
    try (apply (bool_true_iff_not_false _ _ H2lp)).
Qed.

Lemma fx2_fx2lp_classification_witness :
  (fx2_is_external 0x1ff0 16 = false <-> fx2_internal 0x1ff0 16) /\
  (fx2_is_external 0x1ff0 16 = true <-> ~ fx2_internal 0x1ff0 16) /\
  (fx2lp_is_external 0x1ff0 16 = false <-> fx2lp_internal 0x1ff0 16) /\
  (fx2lp_is_external 0x1ff0 16 = true <-> ~ fx2lp_internal 0x1ff0 16).
Proof.
  apply (fx2_fx2lp_classification 0x1ff0 16);
    unfold is_ushort, is_size_t, USHRT_MAX, SIZE_MAX; lia.
Defined.

(** ** The transport *)

Lemma ezusb_write_run ioctl device label opcode addr bytes len w :
  len <= USHRT_MAX ->
  ezusb_write ioctl device label opcode addr bytes len w =
  let rq := write_request device opcode addr bytes len in
  let r := ioctl (trace w) rq in
  (status_of r,
   {| trace := trace w ++ [write_event label rq r];
      errno := errno_after r (errno w) |}).
Proof.
  intros Hlen. unfold ezusb_write, bind, ctrl_msg, ret.
  destruct (Z.gtb_spec len USHRT_MAX) as [Hgt|_]; [lia|].
  unfold write_request, write_event. cbn.
  destruct (ioctl _ _); reflexivity.
Qed.

(** ** Erasing the EEPROM *)

Section EraseProperties.

Variable ioctl : list event -> request -> reply.
Variables (dev : Z) (large_eeprom : bool).

(** What the loop does from chunk [k] on, with enough fuel left. *)
Lemma erase_loop_trace fuel : forall k w,
  (256 <= k + fuel)%nat -> (k <= 256)%nat ->
  exists evs,
    trace (snd (erase_loop ioctl fuel dev large_eeprom (32 * Z.of_nat k) w))
      = trace w ++ evs /\
    (k + List.length evs <= 256)%nat /\
    map ev_request evs
      = map (erase_request dev large_eeprom) (seq k (List.length evs)) /\
    (forall e, In e evs -> ev_origin e = via_write erase_label) /\
    let status :=
      fst (erase_loop ioctl fuel dev large_eeprom (32 * Z.of_nat k) w) in
    ((status = 0 /\ (k + List.length evs = 256)%nat /\
      forall e, In e evs -> failed e = false)
     \/
     (exists good bad, evs = good ++ [bad] /\
        (forall e, In e good -> failed e = false) /\
        failed bad = true /\ status = status_of (ev_reply bad) /\
        status < 0)).
Proof.
  induction fuel as [|fuel IH]; intros k w Hfuel Hk.
  - assert (k = 256%nat) by lia. subst k. exists []. cbn.
    rewrite app_nil_r. repeat split; auto; try lia.
    left. repeat split; auto. intros e [].
  - cbn [erase_loop].
    destruct (Z.ltb_spec (32 * Z.of_nat k) 8192) as [Hlt|Hge].
    + rewrite ezusb_write_run by (unfold USHRT_MAX; lia).
      cbv beta iota zeta.
      replace (write_request dev _ _ _ _)
        with (erase_request dev large_eeprom k).
      2:{ unfold write_request, erase_request. f_equal.
          - destruct large_eeprom; reflexivity.
          - symmetry. apply u16_small. unfold USHRT_MAX. lia. }
      set (rq := erase_request dev large_eeprom k).
      set (r := ioctl (trace w) rq).
      set (ev := write_event _ rq r).
      set (w1 := {| trace := trace w ++ [ev]; errno := _ |}).
      rewrite status_of_negative.
      destruct (reply_failed r) eqn:Hr.
      * assert (Hneg : status_of r < 0).
        { apply Z.ltb_lt. rewrite status_of_negative. exact Hr. }
        exists [ev]. cbn. repeat split; auto; try lia.
        -- intros e [<-|[]]. reflexivity.
        -- right. exists [], ev. repeat split; auto.
           intros e [].
      * assert (Hk' : (S k <= 256)%nat) by lia.
        destruct (IH (S k) w1) as (evs & Htr & Hlen & Hreq & Horig & Hres);
          [lia|lia|].
        replace (32 * Z.of_nat k + 32) with (32 * Z.of_nat (S k)) by lia.
        exists (ev :: evs). repeat split.
        -- rewrite Htr. subst w1. cbn. rewrite <- app_assoc. reflexivity.
        -- cbn. lia.
        -- cbn. f_equal. exact Hreq.
        -- intros e [<-|Hin]; [reflexivity|auto].
        -- cbv zeta in Hres. destruct Hres as [(Hs & Hn & Hok)|Hbad].
           ++ left. repeat split; auto; [cbn; lia|].
              intros e [<-|Hin]; [exact Hr|auto].
           ++ right. destruct Hbad as (good & bad & -> & Hg & Hb & Hs & Hneg).
              exists (ev :: good), bad. repeat split; auto.
              intros e [<-|Hin]; [exact Hr|auto].
    + assert (k = 256%nat) by lia. subst k. exists []. cbn.
      rewrite app_nil_r. repeat split; auto; try lia.
      left. repeat split; auto. intros e [].
Qed.

End EraseProperties.

(** C10.  [ezusb_erase_eeprom] issues writes of 32 bytes of 0xff at the
    addresses 0, 32, 64, ... in this order, at most 256 of them (so up to
    8160, covering 0-8191 when all are issued); it returns 0 when all 256
    writes succeed, and otherwise the status of the first failed write,
    which is then the last request issued. *)
Theorem ezusb_erase_eeprom_trace ioctl dev large_eeprom w :
  exists evs,
    trace (snd (ezusb_erase_eeprom ioctl dev large_eeprom w)) = trace w ++ evs /\
    (List.length evs <= 256)%nat /\
    map ev_request evs
      = map (erase_request dev large_eeprom) (seq 0 (List.length evs)) /\
    (forall e, In e evs ->
       ev_origin e = via_write erase_label /\
       rq_data (ev_request e) = repeat 0xff 32 /\
       wLength (ev_request e) = 32) /\
    let status := fst (ezusb_erase_eeprom ioctl dev large_eeprom w) in
    ((status = 0 /\ List.length evs = 256%nat /\
      forall e, In e evs -> failed e = false)
     \/
     (exists good bad, evs = good ++ [bad] /\
        (forall e, In e good -> failed e = false) /\
        failed bad = true /\ status = status_of (ev_reply bad) /\
        status < 0)).
Proof.
  unfold ezusb_erase_eeprom.
  destruct (erase_loop_trace ioctl dev large_eeprom 256 0 w)
    as (evs & Htr & Hlen & Hreq & Horig & Hres); [lia|lia|].
  change (32 * Z.of_nat 0) with 0 in *.
  exists evs. split; [exact Htr|]. split; [lia|]. split; [exact Hreq|].
  split; [|exact Hres].
  intros e Hin. split; [apply Horig; exact Hin|].
  apply (in_map ev_request) in Hin. rewrite Hreq in Hin.
  apply in_map_iff in Hin. destruct Hin as (k & <- & _).
  split; reflexivity.
Qed.

(** ** Framing EEPROM segments *)

Lemma header_bytes addr len :
  is_ushort addr -> 0 <= len <= 1023 ->
  u8 (Z.shiftr len 8) = len / 256 /\ u8 len = len mod 256 /\
  u8 (Z.shiftr addr 8) = addr / 256 /\ u8 addr = addr mod 256.
Proof.
  unfold is_ushort, USHRT_MAX. intros Ha Hl.
  rewrite !Z.shiftr_div_pow2 by lia. change (2 ^ 8) with 256.
  repeat split; try reflexivity; apply u8_small.
  - split; [apply Z.div_pos; lia|apply Z.div_lt_upper_bound; lia].
  - split; [apply Z.div_pos; lia|apply Z.div_lt_upper_bound; lia].
Qed.

Lemma eeprom_header_eq addr len (is_last : bool) :
  is_ushort addr -> 0 <= len <= 1023 ->
  [if is_last then Z.lor (u8 (Z.shiftr len 8)) 0x80 else u8 (Z.shiftr len 8);
   u8 len; u8 (Z.shiftr addr 8); u8 addr]
  = segment_header addr len is_last.
Proof.
  intros Ha Hl. destruct (header_bytes addr len Ha Hl) as (-> & -> & -> & ->).
  unfold segment_header. destruct is_last; [reflexivity|].
  rewrite Z.lor_0_r. reflexivity.
Qed.

(** What [eeprom_poke] does with a segment it accepts. *)
Lemma eeprom_poke_accepts ioctl ctx w addr bytes len :
  is_ushort addr -> 0 <= len <= 1023 ->
  let hdr := write_request (ee_device ctx) (eeprom_request ctx) (ee_addr ctx)
               (segment_header addr len (last ctx)) 4 in
  let r1 := ioctl (trace w) hdr in
  let ev1 := write_event header_label hdr r1 in
  let w1 := {| trace := trace w ++ [ev1]; errno := errno_after r1 (errno w) |} in
  let pay := write_request (ee_device ctx) (eeprom_request ctx)
               (ee_addr ctx + 4) bytes len in
  let r2 := ioctl (trace w1) pay in
  let ev2 := write_event payload_label pay r2 in
  let w2 := {| trace := trace w1 ++ [ev2]; errno := errno_after r2 (errno w1) |} in
  eeprom_poke ioctl addr false bytes len (ctx, w) =
  if reply_failed r1 then (status_of r1, (ctx, w1))
  else if reply_failed r2 then (status_of r2, (ctx, w2))
  else (0, ({| ee_device := ee_device ctx;
               ee_addr := u16 (ee_addr ctx + 4 + len);
               last := last ctx;
               eeprom_request := eeprom_request ctx |}, w2)).
Proof.
  intros Ha Hl. cbv zeta. unfold eeprom_poke.
  destruct (Z.gtb_spec len 1023) as [Hgt|_]; [lia|].
  rewrite eeprom_header_eq by assumption.
  rewrite ezusb_write_run by (unfold USHRT_MAX; lia). cbv beta iota zeta.
  rewrite status_of_negative.
  destruct (reply_failed (ioctl (trace w) _)) eqn:Hr1; [reflexivity|].
  rewrite ezusb_write_run by (unfold USHRT_MAX; lia). cbv beta iota zeta.
  rewrite status_of_negative.
  destruct (reply_failed (ioctl _ _)) eqn:Hr2; reflexivity.
Qed.

(** C4.  [eeprom_poke] rejects a segment that is flagged external or longer
    than 1023 bytes with a negative status, without issuing any request and
    without moving the cursor.  Otherwise it writes the header
    [lengthHigh | (0x80 if last), lengthLow, addressHigh, addressLow] at the
    cursor, then (the header write not having failed) the payload 4 bytes
    behind the cursor, and then (the payload write not having failed)
    returns 0 with the cursor advanced by 4 + length; the cursor and the
    addresses are 16-bit quantities.  A write that fails ends the call
    with a negative status and the cursor where it was. *)
Theorem eeprom_poke_framing ioctl ctx w addr ext bytes len :
  is_ushort addr -> 0 <= len ->
  let r := eeprom_poke ioctl addr ext bytes len (ctx, w) in
  let hdr := write_request (ee_device ctx) (eeprom_request ctx) (ee_addr ctx)
               (segment_header addr len (last ctx)) 4 in
  let ev1 := write_event header_label hdr (ioctl (trace w) hdr) in
  let pay := write_request (ee_device ctx) (eeprom_request ctx)
               (ee_addr ctx + 4) bytes len in
  let ev2 := write_event payload_label pay (ioctl (trace w ++ [ev1]) pay) in
  (ext = true \/ 1023 < len -> fst r < 0 /\ snd r = (ctx, w)) /\
  (ext = false -> len <= 1023 ->
     wValue hdr = u16 (ee_addr ctx) /\ rq_data hdr =
       [Z.lor (len / 256) (if last ctx then 0x80 else 0); len mod 256;
        addr / 256; addr mod 256] /\
     wValue pay = u16 (ee_addr ctx + 4) /\ rq_data pay = bytes /\
     if failed ev1 then
       fst r < 0 /\ trace (snd (snd r)) = trace w ++ [ev1] /\ fst (snd r) = ctx
     else if failed ev2 then
       fst r < 0 /\ trace (snd (snd r)) = trace w ++ [ev1; ev2] /\
       fst (snd r) = ctx
     else
       fst r = 0 /\ trace (snd (snd r)) = trace w ++ [ev1; ev2] /\
       fst (snd r) = {| ee_device := ee_device ctx;
                        ee_addr := u16 (ee_addr ctx + 4 + len);
                        last := last ctx;
                        eeprom_request := eeprom_request ctx |}).
Proof.
  intros Ha Hl. cbv zeta. split.
  - intros Hrej. unfold eeprom_poke.
    destruct ext; [split; [unfold EINVAL; simpl; lia|reflexivity]|].
    destruct Hrej as [Hx|Hgt]; [discriminate|].
    destruct (Z.gtb_spec len 1023) as [_|Hle]; [|lia].
    split; [unfold EDOM; simpl; lia|reflexivity].
  - intros -> Hle.
    rewrite eeprom_poke_accepts by (auto; lia). cbv zeta.
    do 4 (split; [reflexivity|]).
    unfold failed, header_label, payload_label. cbn [ev_reply write_event].
    set (hdr := write_request _ _ (ee_addr ctx) _ 4).
    set (r1 := ioctl (trace w) hdr).
    cbn [trace].
    set (pay := write_request _ _ (ee_addr ctx + 4) _ _).
    set (r2 := ioctl _ pay).
    destruct (reply_failed r1) eqn:Hr1.
    + cbn [fst snd trace]. repeat split.
      apply Z.ltb_lt. rewrite status_of_negative. exact Hr1.
    + destruct (reply_failed r2) eqn:Hr2; cbn [fst snd trace];
        rewrite <- app_assoc; repeat split.
      apply Z.ltb_lt. rewrite status_of_negative. exact Hr2.
Qed.

(** ** Identity-only flashing of an AN21xx *)

(** C8.  Called for the variant "an21" without an image path,
    [ezusb_load_eeprom] returns the failure status -1 and leaves the world
    as it was: no request was issued to the device. *)
Theorem ezusb_load_eeprom_an21_no_path
    ioctl fopen indeterminate dev config large_eeprom vid pid w :
  ezusb_load_eeprom ioctl fopen indeterminate dev None "an21" config
    large_eeprom vid pid w = (-1, w).
Proof. reflexivity. Qed.

(** ** The parser: fields and the buffer *)

Lemma hex_digit_range c d : hex_digit c = Some d -> 0 <= d < 16.
Proof.
  unfold hex_digit. set (n := Z.of_nat (nat_of_ascii c)).
  destruct (Z.leb_spec 48 n), (Z.leb_spec n 57); simpl;
    try (intros [= <-]; lia);
    destruct (Z.leb_spec 65 n), (Z.leb_spec n 70); simpl;
    try (intros [= <-]; lia);
    destruct (Z.leb_spec 97 n), (Z.leb_spec n 102); simpl;
    try (intros [= <-]; lia); discriminate.
Qed.

Lemma strtoul16_from_range s : forall acc,
  0 <= acc ->
  0 <= strtoul16_from acc s < (acc + 1) * 16 ^ Z.of_nat (List.length s).
Proof.
  induction s as [|c s IH]; intros acc Hacc.
  - simpl. lia.
  - cbn [strtoul16_from List.length].
    rewrite Nat2Z.inj_succ, Z.pow_succ_r by lia.
    assert (Hp : 0 < 16 ^ Z.of_nat (List.length s)) by (apply Z.pow_pos_nonneg; lia).
    destruct (hex_digit c) as [d|] eqn:Hd.
    + apply hex_digit_range in Hd.
      specialize (IH (16 * acc + d) ltac:(lia)). nia.
    + nia.
Qed.

Lemma hex_field_range line start width :
  0 <= hex_field line start width < 16 ^ Z.of_nat width.
Proof.
  unfold hex_field.
  pose proof (strtoul16_from_range (firstn width (skipn start line)) 0 ltac:(lia)) as H.
  assert (Hlen : (List.length (firstn width (skipn start line)) <= width)%nat)
    by apply firstn_le_length.
  assert (16 ^ Z.of_nat (List.length (firstn width (skipn start line)))
          <= 16 ^ Z.of_nat width) by (apply Z.pow_le_mono_r; lia).
  lia.
Qed.

Lemma record_bytes_length line len :
  List.length (record_bytes line len) = Z.to_nat len.
Proof. unfold record_bytes. rewrite length_map, length_seq. reflexivity. Qed.

Lemma buffer_ok_init : buffer_ok parse_init.
Proof. unfold buffer_ok, is_ushort, USHRT_MAX, sizeof_data. cbn. lia. Qed.

Lemma data_len_append ps line len :
  0 <= len -> data_len (append ps line len) = data_len ps + len.
Proof.
  intros H. unfold data_len, append. cbn.
  rewrite length_app, record_bytes_length. lia.
Qed.

(** ** The parser: a rule for sinks

    [I] holds of the sink's state while every call of the sink has
    succeeded; [F] holds once a call has failed. *)

Section ParserRule.

Context {St : Type}.
Variable cls : option (Z -> Z -> bool).
Variable poke : Z -> bool -> list Z -> Z -> St -> Z * St.
Variables I F : St -> Prop.

Hypothesis poke_rule : forall addr ext bytes s,
  I s -> is_ushort addr -> 1 <= Z.of_nat (List.length bytes) <= 1023 ->
  if fst (poke addr ext bytes (Z.of_nat (List.length bytes)) s) <? 0
  then F (snd (poke addr ext bytes (Z.of_nat (List.length bytes)) s))
  else I (snd (poke addr ext bytes (Z.of_nat (List.length bytes)) s)).

Lemma flush_rule ps s :
  buffer_ok ps -> data_len ps <> 0 -> I s ->
  match flush cls poke ps s with
  | (rc, ps', s') =>
      data ps' = data ps /\ data_addr ps' = data_addr ps /\
      first_line ps' = first_line ps /\
      if rc <? 0 then F s' else I s'
  end.
Proof.
  intros [Ha Hl] Hne Hs. unfold flush.
  set (ext := match cls with Some f => _ | None => _ end).
  pose proof (poke_rule (data_addr ps) ext (data ps) s Hs Ha) as H.
  fold (data_len ps) in H.
  destruct (poke (data_addr ps) ext (data ps) (data_len ps) s) as [rc s'].
  cbn. repeat split. apply H. unfold data_len, sizeof_data in *. lia.
Qed.

Lemma parse_line_rule buf ps s :
  buffer_ok ps -> I s ->
  match parse_line cls poke buf ps s with
  | Continue ps' s' | Break ps' s' => buffer_ok ps' /\ I s'
  | Return rc s' => sink_outcome I F rc s'
  end.
Proof.
  intros Hok Hs. unfold parse_line.
  destruct buf as [|c rest]; [right; auto|].
  destruct (Ascii.eqb_spec c "#"%char) as [->|Hc1]; [split; assumption|].
  destruct (Ascii.eqb_spec c ":"%char) as [->|Hc2].
  2:{ destruct c as [[] [] [] [] [] [] [] []]; try (right; auto);
      congruence. }
  cbv zeta.
  set (line := c_string _).
  set (len := hex_field line 1 2).
  set (off := hex_field line 3 4).
  set (ps1 := if first_line ps then _ else ps).
  assert (Hok1 : buffer_ok ps1).
  { subst ps1. destruct (first_line ps); [|assumption].
    destruct Hok as [_ Hl]. split; [apply u16_range|exact Hl]. }
  assert (Hlen : 0 <= len < 256) by apply (hex_field_range line 1 2).
  destruct (Z.eqb_spec (hex_field line 7 2) 1); [split; assumption|].
  destruct (Z.eqb_spec (hex_field line 7 2) 0); cbn [negb]; [|right; auto].
  destruct (Z.gtb_spec (len * 2 + 11) (strlen line)); [right; auto|].
  destruct (Z.eqb_spec (data_len ps1) 0) as [Hz|Hnz]; cbn [negb andb].
  - split; [|assumption]. destruct Hok1 as [Ha Hl].
    split; [exact Ha|]. rewrite data_len_append by lia.
    unfold sizeof_data. lia.
  - destruct (negb (off =? data_addr ps1 + data_len ps1)
              || (data_len ps1 + len >? sizeof_data)) eqn:Hflush.
    + pose proof (flush_rule ps1 s Hok1 Hnz Hs) as Hf.
      destruct (flush cls poke ps1 s) as [[rc ps'] s'].
      destruct Hf as (_ & _ & _ & Hf).
      destruct (rc <? 0); [left; auto|].
      split; [|assumption]. split; [apply u16_range|].
      rewrite data_len_append by lia. change (0 + len <= 1023). lia.
    + apply orb_false_iff in Hflush. destruct Hflush as [_ Hfit].
      destruct (Z.gtb_spec (data_len ps1 + len) sizeof_data); [discriminate|].
      split; [|assumption]. destruct Hok1 as [Ha Hl].
      split; [exact Ha|]. rewrite data_len_append by lia. lia.
Qed.

Lemma parse_loop_rule lines : forall ps s,
  buffer_ok ps -> I s ->
  match parse_loop cls poke lines ps s with
  | Continue ps' s' | Break ps' s' => buffer_ok ps' /\ I s'
  | Return rc s' => sink_outcome I F rc s'
  end.
Proof.
  induction lines as [|buf rest IH]; intros ps s Hok Hs.
  - split; assumption.
  - cbn [parse_loop].
    pose proof (parse_line_rule buf ps s Hok Hs) as H.
    destruct (parse_line cls poke buf ps s) as [ps' s'|ps' s'|rc s'].
    + apply IH; apply H.
    + exact H.
    + exact H.
Qed.

Lemma parse_finish_rule ps s :
  buffer_ok ps -> I s ->
  let r := parse_finish cls poke ps s in
  (fst r = 0 /\ I (snd r)) \/ (fst r = -1 /\ F (snd r)).
Proof.
  intros Hok Hs. unfold parse_finish.
  destruct (Z.eqb_spec (data_len ps) 0) as [Hz|Hnz]; cbn [negb].
  - left. split; [reflexivity|assumption].
  - pose proof (flush_rule ps s Hok Hnz Hs) as Hf.
    destruct (flush cls poke ps s) as [[rc ps'] s'].
    destruct Hf as (_ & _ & _ & Hf).
    destruct (rc <? 0); [right|left]; split; auto.
Qed.

Lemma parse_ihex_rule image s :
  I s ->
  let r := parse_ihex cls poke image s in
  (fst r = 0 /\ I (snd r)) \/ sink_outcome I F (fst r) (snd r).
Proof.
  intros Hs. unfold parse_ihex.
  pose proof (parse_loop_rule (fgets_lines image) parse_init s
                buffer_ok_init Hs) as H.
  destruct (parse_loop cls poke (fgets_lines image) parse_init s)
    as [ps' s'|ps' s'|rc s'].
  - destruct H as [Hok Hs'].
    destruct (parse_finish_rule ps' s' Hok Hs') as [?|?];
      [left; assumption|right; left; assumption].
  - destruct H as [Hok Hs'].
    destruct (parse_finish_rule ps' s' Hok Hs') as [?|?];
      [left; assumption|right; left; assumption].
  - right. exact H.
Qed.

End ParserRule.

(** ** Frames written by [eeprom_poke] *)

Lemma u16_add_l a b : u16 (u16 a + b) = u16 (a + b).
Proof. unfold u16. apply Zplus_mod_idemp_l. Qed.

Lemma frame_events_app dev op fs2 : forall fs1 cursor,
  frame_events dev op cursor (fs1 ++ fs2) =
  frame_events dev op cursor fs1 ++
  frame_events dev op (cursor_after cursor fs1) fs2.
Proof.
  induction fs1 as [|f fs1 IH]; intros cursor; cbn; [reflexivity|].
  rewrite IH. reflexivity.
Qed.

Lemma cursor_after_app fs2 : forall fs1 cursor,
  cursor_after cursor (fs1 ++ fs2) = cursor_after (cursor_after cursor fs1) fs2.
Proof. induction fs1 as [|f fs1 IH]; intros cursor; cbn; auto. Qed.

Section SegmentSink.

Variable ioctl : list event -> request -> reply.
Variables (dev op start : Z) (t0 : list event).

Lemma eeprom_poke_frames (is_last : bool) addr ext bytes len fs w :
  is_ushort addr -> 0 <= len <= 1023 -> len = Z.of_nat (List.length bytes) ->
  trace w = t0 ++ frame_events dev op start fs -> Forall framed fs ->
  let ctx := {| ee_device := dev; ee_addr := cursor_after start fs;
                last := is_last; eeprom_request := op |} in
  let r := eeprom_poke ioctl addr ext bytes len (ctx, w) in
  if fst r <? 0 then
    exists tail,
      trace (snd (snd r)) = t0 ++ frame_events dev op start fs ++ tail /\
      (tail = [] \/
       (broken_frame dev op (cursor_after start fs) tail /\ fst r = -1))
  else
    exists f,
      fr_addr f = addr /\ fr_bytes f = bytes /\ fr_len f = len /\
      fr_last f = is_last /\ framed f /\
      fst r = 0 /\
      trace (snd (snd r)) = t0 ++ frame_events dev op start (fs ++ [f]) /\
      fst (snd r) = {| ee_device := dev;
                       ee_addr := cursor_after start (fs ++ [f]);
                       last := is_last; eeprom_request := op |}.
Proof.
  intros Ha Hl Hlb Htr Hfs ctx r. subst r.
  destruct ext.
  - cbn. exists []. rewrite app_nil_r. auto.
  - rewrite eeprom_poke_accepts by assumption. cbv zeta.
    set (r1 := ioctl (trace w) _).
    set (r2 := ioctl _ _).
    set (f := {| fr_addr := addr; fr_bytes := bytes; fr_len := len;
                 fr_last := is_last; fr_header_reply := r1;
                 fr_payload_reply := r2 |}).
    destruct (reply_failed r1) eqn:Hr1.
    + cbn [fst snd]. rewrite status_of_negative, Hr1.
      exists [header_event dev op (cursor_after start fs) f].
      split; [cbn [fst snd trace]; rewrite Htr, <- app_assoc; reflexivity|].
      right. split; [exists f; left; auto|].
      destruct r1; [discriminate|reflexivity].
    + destruct (reply_failed r2) eqn:Hr2.
      * cbn [fst snd]. rewrite status_of_negative, Hr2.
        exists [header_event dev op (cursor_after start fs) f;
                payload_event dev op (cursor_after start fs) f].
        split; [cbn [fst snd trace]; rewrite Htr, <- !app_assoc; reflexivity|].
        right. split; [exists f; right; auto|].
        destruct r2; [discriminate|reflexivity].
      * cbn [fst snd]. change (0 <? 0) with false. cbv iota.
        exists f. do 4 (split; [reflexivity|]).
        split; [unfold framed; cbn; auto|]. split; [reflexivity|]. split.
        -- cbn [fst snd trace]. rewrite Htr, frame_events_app, <- !app_assoc.
           reflexivity.
        -- cbn [fst snd]. rewrite cursor_after_app. reflexivity.
Qed.

Lemma eeprom_poke_rule addr ext bytes s :
  frames_written dev op start t0 s -> is_ushort addr ->
  1 <= Z.of_nat (List.length bytes) <= 1023 ->
  if fst (eeprom_poke ioctl addr ext bytes (Z.of_nat (List.length bytes)) s) <? 0
  then frames_aborted dev op start t0
         (snd (eeprom_poke ioctl addr ext bytes (Z.of_nat (List.length bytes)) s))
  else frames_written dev op start t0
         (snd (eeprom_poke ioctl addr ext bytes (Z.of_nat (List.length bytes)) s)).
Proof.
  intros (fs & Htr & Hfs & Hctx) Ha Hl. destruct s as [ctx w].
  cbn [fst snd] in *. subst ctx.
  assert (Hl' : 0 <= Z.of_nat (List.length bytes) <= 1023) by lia.
  pose proof (eeprom_poke_frames false addr ext bytes _ fs w Ha
                Hl' eq_refl Htr Hfs) as H.
  cbv zeta in H.
  destruct (fst (eeprom_poke _ _ _ _ _ _) <? 0).
  { destruct H as (tail & Htr' & Htail). exists fs, tail.
    split; [exact Htr'|]. split; [exact Hfs|]. tauto. }
  destruct H as (f & _ & _ & _ & _ & Hf & _ & Htr' & Hctx').
  exists (fs ++ [f]). repeat split; auto.
  apply Forall_app. split; auto.
Qed.

End SegmentSink.

(** ** Running the steps of [ezusb_load_eeprom] *)

Lemma emits_write ioctl dev label op addr bytes len :
  len <= USHRT_MAX ->
  emits (ezusb_write ioctl dev label op addr bytes len)
        (outcome (Write label (write_request dev op addr bytes len))).
Proof.
  intros Hlen w. rewrite ezusb_write_run by assumption. cbv zeta.
  eexists. split; [reflexivity|]. cbn. eexists. split; reflexivity.
Qed.

Lemma emits_skip : emits (ret 0) (outcome Skip).
Proof. intros w. exists []. cbn. rewrite app_nil_r. auto. Qed.

Lemma emits_done : emits (ret 0) (run_of []).
Proof. intros w. exists []. cbn. rewrite app_nil_r. split; [auto|constructor]. Qed.

Lemma emits_checked m k s rest :
  emits m (outcome s) -> emits k (run_of rest) ->
  emits (checked m k) (run_of (s :: rest)).
Proof.
  intros Hm Hk w. unfold checked.
  destruct (Hm w) as (evs1 & Htr1 & Hout).
  destruct (m w) as [status1 w1]. cbn [fst snd] in *.
  destruct (Z.ltb_spec status1 0) as [Hneg|Hpos].
  - exists evs1. split; [exact Htr1|]. cbn [fst]. apply run_abort; assumption.
  - destruct (Hk w1) as (evs2 & Htr2 & Hrun).
    exists (evs1 ++ evs2). split.
    + rewrite Htr2, Htr1, app_assoc. reflexivity.
    + eapply run_next; eassumption.
Qed.

Lemma emits_if (c : bool) m1 m2 s1 s2 :
  emits m1 (outcome s1) -> emits m2 (outcome s2) ->
  emits (if c then m1 else m2) (outcome (if c then s1 else s2)).
Proof. destruct c; auto. Qed.

Lemma emits_segments ioctl dev image v :
  is_ushort (cpucs_addr v) ->
  emits (write_segments ioctl dev image v)
        (outcome (Frames dev (request_code v) (ee_start v))).
Proof.
  intros Hcpucs w. unfold write_segments.
  set (ctx := {| ee_device := dev; ee_addr := ee_start v; last := false;
                 eeprom_request := request_code v |}).
  pose proof (parse_ihex_rule (Some (is_external v)) (eeprom_poke ioctl)
                (frames_written dev (request_code v) (ee_start v) (trace w))
                (frames_aborted dev (request_code v) (ee_start v) (trace w))
                (eeprom_poke_rule ioctl dev (request_code v) (ee_start v) (trace w))
                image (ctx, w)) as H.
  cbv zeta in H.
  destruct (parse_ihex (Some (is_external v)) (eeprom_poke ioctl) image (ctx, w))
    as [status [ctx' w']].
  cbn [fst snd] in H.
  assert (Hinit : frames_written dev (request_code v) (ee_start v) (trace w)
                    (ctx, w)).
  { exists []. cbn. rewrite app_nil_r. auto. }
  specialize (H Hinit).
  destruct H as [[-> Hw]|[[-> Hf]|[Hst Hw]]].
  - change (0 <? 0) with false. cbv iota.
    destruct Hw as (fs & Htr & Hfs & Hctx). cbn [fst snd] in Htr, Hctx.
    subst ctx'. cbn [ee_device ee_addr eeprom_request].
    pose proof (eeprom_poke_frames ioctl dev (request_code v) (ee_start v)
                  (trace w) true (cpucs_addr v) false [0] 1 fs w'
                  Hcpucs ltac:(lia) eq_refl Htr Hfs) as H.
    cbv zeta in H.
    destruct (eeprom_poke ioctl (cpucs_addr v) false [0] 1 _)
      as [status2 [ctx2 w2]].
    cbn [fst snd] in *.
    destruct (Z.ltb_spec status2 0) as [Hneg|Hpos].
    + destruct H as (tail & Htr' & Htail).
      exists (frame_events dev (request_code v) (ee_start v) fs ++ tail).
      split; [exact Htr'|]. exists fs, tail.
      split; [reflexivity|]. split; [exact Hfs|]. right. split; [exact Hneg|].
      destruct Htail as [->|Hb]; [left; reflexivity|right; exact Hb].
    + destruct H as (f & _ & _ & _ & _ & Hf & -> & Htr' & _).
      exists (frame_events dev (request_code v) (ee_start v) (fs ++ [f])).
      split; [exact Htr'|]. exists (fs ++ [f]), [].
      rewrite app_nil_r. split; [reflexivity|]. split.
      * apply Forall_app. auto.
      * left. repeat split. destruct fs; discriminate.
  - change (-1 <? 0) with true. cbv iota.
    destruct Hf as (fs & tail & Htr & Hfs & Htail). cbn [fst snd] in *.
    exists (frame_events dev (request_code v) (ee_start v) fs ++ tail).
    split; [exact Htr|]. exists fs, tail. split; [reflexivity|].
    split; [assumption|]. right. split; [lia|].
    destruct Htail as [->|Hb]; [left; reflexivity|right; split; auto].
  - assert (Hneg : status < 0) by lia.
    apply Z.ltb_lt in Hneg as Hb. rewrite Hb.
    destruct Hw as (fs & Htr & Hfs & _). cbn [fst snd] in *.
    exists (frame_events dev (request_code v) (ee_start v) fs).
    split; [exact Htr|]. exists fs, []. rewrite app_nil_r.
    split; [reflexivity|]. split; [assumption|]. right. auto.
Qed.

Theorem write_image_runs ioctl dev image type v vid pid :
  is_ushort (cpucs_addr v) ->
  emits (write_image ioctl dev image type v vid pid)
        (run_of (image_script dev image type v vid pid)).
Proof.
  intros Hcpucs. unfold write_image, image_script.
  apply emits_checked; [apply emits_write; unfold USHRT_MAX; lia|].
  apply emits_checked.
  { apply emits_if; [apply emits_write; unfold USHRT_MAX; lia|apply emits_skip]. }
  apply emits_checked.
  { destruct image; [apply emits_segments; assumption|apply emits_skip]. }
  apply emits_checked.
  { apply emits_if; [apply emits_write; unfold USHRT_MAX; lia|apply emits_skip]. }
  apply emits_checked.
  { apply emits_if; [apply emits_write; unfold USHRT_MAX; lia|apply emits_skip]. }
  apply emits_checked; [apply emits_write; unfold USHRT_MAX; lia|].
  apply emits_done.
Qed.

(** ** What a run of a script leaves in the trace *)

Lemma only_last {A} (phi : A -> bool) (good : list A) : forall tail pre e post,
  Forall (fun x => phi x = false) good -> (List.length tail <= 1)%nat ->
  good ++ tail = pre ++ e :: post -> phi e = true ->
  post = [] /\ tail = [e].
Proof.
  induction good as [|g good IH]; intros tail pre e post Hgood Htail Heq He.
  - cbn in Heq. subst tail. destruct pre as [|p pre].
    + destruct post; [auto|cbn in Htail; lia].
    + cbn in Htail. rewrite length_app in Htail. cbn in Htail. lia.
  - inversion Hgood as [|? ? Hg Hgood']; subst.
    destruct pre as [|p pre]; cbn in Heq; injection Heq as <- Heq.
    + congruence.
    + eapply IH; eauto.
Qed.

Lemma frame_events_succeeded dev op fs : forall start,
  Forall framed fs ->
  Forall (fun e => failed e = false) (frame_events dev op start fs).
Proof.
  induction fs as [|f fs IH]; intros start Hfs; cbn; [constructor|].
  inversion Hfs as [|? ? (Hh & Hp & _) Hfs']; subst.
  constructor; [exact Hh|]. constructor; [exact Hp|]. apply IH; assumption.
Qed.

Lemma frame_events_writes dev op fs : forall start,
  Forall (fun e => is_write e = true) (frame_events dev op start fs).
Proof.
  induction fs as [|f fs IH]; intros start; cbn; [constructor|].
  constructor; [reflexivity|]. constructor; [reflexivity|]. apply IH.
Qed.

Lemma status_nonneg_succeeded r : 0 <= status_of r -> reply_failed r = false.
Proof.
  intros H. rewrite <- status_of_negative. apply Z.ltb_ge. exact H.
Qed.

Lemma status_neg_failed r : status_of r < 0 -> reply_failed r = true.
Proof.
  intros H. rewrite <- status_of_negative. apply Z.ltb_lt. exact H.
Qed.

Lemma outcome_succeeded s status evs :
  outcome s status evs -> 0 <= status ->
  Forall (fun e => failed e = false) evs.
Proof.
  destruct s as [label rq|dev op start|]; cbn.
  - intros (r & -> & ->) Hst. constructor; [|constructor].
    apply status_nonneg_succeeded. exact Hst.
  - intros (fs & tail & -> & Hfs & [(_ & -> & _)|(Hneg & _)]) Hst; [|lia].
    rewrite app_nil_r. apply frame_events_succeeded. exact Hfs.
  - intros [-> _] _. constructor.
Qed.

Lemma failure_last_cons e evs :
  failed e = false -> failure_last evs -> failure_last (e :: evs).
Proof.
  intros He (good & tail & -> & Hgood & Htail).
  exists (e :: good), tail. repeat split; auto.
Qed.

Lemma failure_last_app evs1 evs2 :
  Forall (fun e => failed e = false) evs1 -> failure_last evs2 ->
  failure_last (evs1 ++ evs2).
Proof.
  induction 1 as [|e evs1 He _ IH]; intros H2; cbn; [assumption|].
  apply failure_last_cons; auto.
Qed.

Lemma failure_last_succeeded evs :
  Forall (fun e => failed e = false) evs -> failure_last evs.
Proof. intros H. exists evs, []. rewrite app_nil_r. auto. Qed.

Lemma failure_last_spec evs pre e post :
  failure_last evs -> evs = pre ++ e :: post -> failed e = true -> post = [].
Proof.
  intros (good & tail & -> & Hgood & Htail) Heq He.
  eapply (only_last failed good tail pre e post); eauto.
  destruct Htail as [->|(x & -> & _)]; cbn; lia.
Qed.

Lemma outcome_failure_last s status evs :
  outcome s status evs -> failure_last evs.
Proof.
  destruct s as [label rq|dev op start|]; cbn.
  - intros (r & -> & ->). destruct (reply_failed r) eqn:Hr.
    + exists [], [write_event label rq r]. repeat split; auto.
      right. eexists. split; [reflexivity|exact Hr].
    + apply failure_last_succeeded. constructor; [exact Hr|constructor].
  - intros (fs & tail & -> & Hfs & Hcases).
    apply failure_last_app; [apply frame_events_succeeded; exact Hfs|].
    destruct Hcases as [(_ & -> & _)|(_ & [->|((f & Hbroken) & _)])].
    + apply failure_last_succeeded. constructor.
    + apply failure_last_succeeded. constructor.
    + destruct Hbroken as [(-> & Hh)|(-> & Hh & Hp)].
      * exists [], [header_event dev op (cursor_after start fs) f].
        repeat split; auto. right. eexists. split; [reflexivity|exact Hh].
      * apply failure_last_cons; [exact Hh|].
        exists [], [payload_event dev op (cursor_after start fs) f].
        repeat split; auto. right. eexists. split; [reflexivity|exact Hp].
  - intros [-> _]. apply failure_last_succeeded. constructor.
Qed.

Lemma outcome_writes s status evs :
  outcome s status evs -> Forall (fun e => is_write e = true) evs.
Proof.
  destruct s as [label rq|dev op start|]; cbn.
  - intros (r & -> & _). constructor; [reflexivity|constructor].
  - intros (fs & tail & -> & _ & Hcases). apply Forall_app. split.
    + apply frame_events_writes.
    + destruct Hcases as [(_ & -> & _)|(_ & [->|((f & Hb) & _)])];
        try constructor.
      destruct Hb as [(-> & _)|(-> & _)]; repeat constructor.
  - intros [-> _]. constructor.
Qed.

Lemma run_status steps status evs :
  run_of steps status evs -> status = 0 \/ status < 0.
Proof. induction 1; auto. Qed.

Lemma run_writes steps status evs :
  run_of steps status evs -> Forall (fun e => is_write e = true) evs.
Proof.
  induction 1 as [|s rest status evs Hout _|s rest st1 evs1 status evs2 Hout _ _ IH].
  - constructor.
  - eapply outcome_writes; eassumption.
  - apply Forall_app. split; [eapply outcome_writes; eassumption|exact IH].
Qed.

Lemma run_failure_last steps status evs :
  run_of steps status evs -> failure_last evs.
Proof.
  induction 1 as [|s rest status evs Hout _|s rest st1 evs1 status evs2 Hout Hst _ IH].
  - apply failure_last_succeeded. constructor.
  - eapply outcome_failure_last; eassumption.
  - apply failure_last_app; [|exact IH].
    eapply outcome_succeeded; eassumption.
Qed.

Lemma run_succeeded steps evs :
  run_of steps 0 evs -> Forall (fun e => failed e = false) evs.
Proof.
  intros H. remember 0 as status eqn:Hst.
  induction H as [|s rest status evs Hout Hneg|s rest st1 evs1 status evs2 Hout Hst1 _ IH].
  - constructor.
  - lia.
  - apply Forall_app. split; [eapply outcome_succeeded; eassumption|auto].
Qed.

Lemma failed_status e : failed e = true -> status_of (ev_reply e) = -1.
Proof. unfold failed. destruct (ev_reply e); [discriminate|reflexivity]. Qed.

Lemma last_of_succeeded evs pre e :
  Forall (fun x => failed x = false) evs -> evs = pre ++ [e] ->
  failed e = true -> False.
Proof.
  intros Hall -> He. apply Forall_app in Hall. destruct Hall as [_ Hall].
  inversion Hall; congruence.
Qed.

(** When the last event of a step is a failed write, the step ends with
    the status of that write. *)
Lemma outcome_failed_status s status evs pre e :
  outcome s status evs -> evs = pre ++ [e] -> failed e = true ->
  status = status_of (ev_reply e).
Proof.
  intros Hout Heq He. rewrite (failed_status e He).
  destruct s as [label rq|dev op start|]; cbn [outcome] in Hout.
  - destruct Hout as (r & -> & ->).
    destruct pre as [|p pre]; [|destruct pre; discriminate].
    injection Heq as <-. apply (failed_status _ He).
  - destruct Hout as (fs & tail & -> & Hfs & Hcases).
    pose proof (frame_events_succeeded dev op fs start Hfs) as Hok.
    destruct Hcases as [(_ & Htail & _)|(_ & [Htail|(_ & Hst)])].
    + subst tail. rewrite app_nil_r in Heq. exfalso.
      apply (last_of_succeeded _ pre e Hok Heq He).
    + subst tail. rewrite app_nil_r in Heq. exfalso.
      apply (last_of_succeeded _ pre e Hok Heq He).
    + exact Hst.
  - destruct Hout as [-> _]. destruct pre; discriminate.
Qed.

Lemma run_failed_status steps status evs :
  run_of steps status evs -> forall pre e,
  evs = pre ++ [e] -> failed e = true -> status = status_of (ev_reply e).
Proof.
  induction 1 as [|s rest status evs Hout _|s rest st1 evs1 status evs2 Hout Hst _ IH];
    intros pre e Heq He.
  - destruct pre; discriminate.
  - eapply outcome_failed_status; eauto.
  - destruct evs2 as [|x evs2 _] using rev_ind.
    + rewrite app_nil_r in Heq. exfalso.
      apply (last_of_succeeded evs1 pre e);
        [eapply outcome_succeeded; eauto|exact Heq|exact He].
    + rewrite app_assoc in Heq.
      apply app_inj_tail in Heq. destruct Heq as [_ ->].
      apply (IH evs2 e eq_refl He).
Qed.

(** A failed write ends the run, and the run then ends with the status of
    that write. *)
Lemma run_failed_write steps status evs pre e post :
  run_of steps status evs -> evs = pre ++ e :: post -> failed e = true ->
  post = [] /\ status = status_of (ev_reply e) /\ status < 0.
Proof.
  intros Hrun Heq He.
  assert (Hpost : post = []).
  { eapply failure_last_spec; eauto. eapply run_failure_last; eassumption. }
  subst post. split; [reflexivity|].
  pose proof (run_failed_status _ _ _ Hrun pre e Heq He) as Hst.
  split; [exact Hst|]. rewrite Hst, (failed_status e He). lia.
Qed.

(** Either the run was cut short before the last step of the script, or
    all steps before it completed and the last step ran. *)
Lemma run_last steps s : forall status evs,
  run_of (steps ++ [s]) status evs ->
  (status < 0 /\ run_of steps status evs) \/
  (exists evs1 evs2 status2,
     evs = evs1 ++ evs2 /\ run_of steps 0 evs1 /\ outcome s status2 evs2 /\
     ((status2 < 0 /\ status = status2) \/ (0 <= status2 /\ status = 0))).
Proof.
  induction steps as [|s1 steps IH]; intros status evs Hrun; cbn in Hrun.
  - right. inversion Hrun as [|? ? ? ? Hout Hneg|? ? st1 evs1 ? evs2 Hout Hst Hrest];
      subst.
    + exists [], evs, status. repeat split; auto; constructor.
    + inversion Hrest; subst. exists [], evs1, st1. rewrite app_nil_r.
      repeat split; auto; constructor.
  - inversion Hrun as [|? ? ? ? Hout Hneg|? ? st1 evs1 ? evs2 Hout Hst Hrest];
      subst.
    + left. split; [exact Hneg|]. apply run_abort; assumption.
    + destruct (IH _ _ Hrest) as [[Hneg Hr]|(e1 & e2 & st2 & -> & Hr & Ho & Hs)].
      * left. split; [exact Hneg|]. eapply run_next; eassumption.
      * right. exists (evs1 ++ e1), e2, st2. rewrite app_assoc.
        repeat split; auto. eapply run_next; eassumption.
Qed.

(** Every event of a run comes from one of the steps. *)
Lemma run_origin steps status evs :
  run_of steps status evs ->
  Forall (fun e => exists s st part,
            In s steps /\ outcome s st part /\ In e part) evs.
Proof.
  induction 1 as [|s rest status evs Hout _|s rest st1 evs1 status evs2 Hout _ _ IH].
  - constructor.
  - apply Forall_forall. intros e He. exists s, status, evs.
    repeat split; auto. left. reflexivity.
  - apply Forall_app. split.
    + apply Forall_forall. intros e He. exists s, st1, evs1.
      repeat split; auto. left. reflexivity.
    + eapply Forall_impl; [|exact IH].
      intros e (s' & st & part & Hin & Ho & He). exists s', st, part.
      repeat split; auto. right. exact Hin.
Qed.

(** ** [ezusb_load_eeprom] as a run of its script *)

Lemma ezusb_read_run ioctl device label opcode addr buf len w :
  len <= USHRT_MAX ->
  ezusb_read ioctl device label opcode addr buf len w =
  let rq := read_request device opcode addr buf len in
  let r := ioctl (trace w) rq in
  ((status_of r, buffer_after r buf),
   {| trace := trace w ++ [mkEvent (via_read label) rq r];
      errno := errno_after r (errno w) |}).
Proof.
  intros Hlen. unfold ezusb_read, ctrl_msg.
  destruct (Z.gtb_spec len USHRT_MAX) as [Hgt|_]; [lia|].
  unfold read_request. cbn.
  destruct (ioctl _ _); reflexivity.
Qed.

Lemma select_variant_cases path type config large_eeprom v :
  select_variant path type config large_eeprom = Some v ->
  is_ushort (cpucs_addr v) /\ first_byte v <> 0 /\
  request_code v = (if large_eeprom then RW_EEPROM_LARGE else RW_EEPROM) /\
  ((type = "fx2"%string /\ ee_start v = 8 /\
    ww_vid v = 0x04B4 /\ ww_pid v = 0x6473) \/
   (type = "fx2lp"%string /\ ee_start v = 8 /\
    ww_vid v = 0x04B4 /\ ww_pid v = 0x8613) \/
   (type = "fx"%string /\ ee_start v = 9 /\ ww_vid v = 0 /\ ww_pid v = 0 /\
    path <> None) \/
   (type = "an21"%string /\ ee_start v = 7 /\ ww_vid v = 0 /\ ww_pid v = 0 /\
    path <> None)).
Proof.
  unfold select_variant, is_ushort, USHRT_MAX.
  destruct (String.eqb_spec "fx2" type) as [<-|_].
  { intros [= <-]. cbn. repeat split; try lia; [destruct path; lia|tauto]. }
  destruct (String.eqb_spec "fx2lp" type) as [<-|_].
  { intros [= <-]. cbn. repeat split; try lia; [destruct path; lia|tauto]. }
  destruct (String.eqb_spec "fx" type) as [<-|_].
  { destruct path; cbn; [|discriminate]. intros [= <-]. cbn.
    repeat split; try lia. right. right. left. repeat split. discriminate. }
  destruct (String.eqb_spec "an21" type) as [<-|_]; [|discriminate].
  destruct path; cbn; [|discriminate]. intros [= <-]. cbn.
  repeat split; try lia. right. right. right. repeat split. discriminate.
Qed.

Section LoadEeprom.

Variable ioctl : list event -> request -> reply.
Variable fopen : string -> option (list ascii).
Variable indeterminate : Z.
Variables (dev : Z) (path : option string) (type : string) (config : Z).
Variables (large_eeprom : bool) (ww_config_vid ww_config_pid : Z).

(** Either the call is refused before anything is written, having at
    most asked for the EEPROM size, or it runs the script of its
    variant. *)
Lemma load_eeprom_runs w :
  let r := ezusb_load_eeprom ioctl fopen indeterminate dev path type config
             large_eeprom ww_config_vid ww_config_pid w in
  exists reads,
    Forall (fun e => is_write e = false) reads /\
    ((fst r < 0 /\ trace (snd r) = trace w ++ reads) \/
     (exists v image evs,
        select_variant path type config large_eeprom = Some v /\
        (image = None <-> path = None) /\
        trace (snd r) = trace w ++ reads ++ evs /\
        run_of (image_script dev image type v ww_config_vid ww_config_pid)
               (fst r) evs)).
Proof.
  cbv zeta. unfold ezusb_load_eeprom.
  assert (Hrun : forall image w1 reads,
            trace w1 = trace w ++ reads ->
            (image = None <-> path = None) ->
            let r := match select_variant path type config large_eeprom with
                     | Some v => write_image ioctl dev image type v
                                   ww_config_vid ww_config_pid w1
                     | None => (-1, w1)
                     end in
            (fst r < 0 /\ trace (snd r) = trace w ++ reads) \/
            (exists v image evs,
               select_variant path type config large_eeprom = Some v /\
               (image = None <-> path = None) /\
               trace (snd r) = trace w ++ reads ++ evs /\
               run_of (image_script dev image type v ww_config_vid
                         ww_config_pid) (fst r) evs)).
  { intros image w1 reads Htr Himg.
    destruct (select_variant path type config large_eeprom) as [v|] eqn:Hv.
    - right. destruct (select_variant_cases _ _ _ _ _ Hv) as (Hc & _).
      destruct (write_image_runs ioctl dev image type v ww_config_vid
                  ww_config_pid Hc w1) as (evs & Htr' & Hrun).
      exists v, image, evs. repeat split; try apply Himg; auto.
      rewrite Htr', Htr, app_assoc. reflexivity.
    - left. cbn. split; [lia|exact Htr]. }
  destruct path as [p|].
  - unfold ezusb_get_eeprom_type.
    rewrite ezusb_read_run by (unfold USHRT_MAX; lia). cbv zeta.
    set (rq := read_request _ _ _ _ _).
    set (r := ioctl (trace w) rq).
    set (ev := mkEvent (via_read "get EEPROM size") rq r).
    set (w1 := {| trace := trace w ++ [ev]; errno := _ |}).
    exists [ev]. split; [repeat constructor|].
    destruct ((negb (status_of r =? 1)
               || negb (u8 (hd indeterminate (buffer_after r [indeterminate])) =? 1))
              && negb (u8 (hd indeterminate (buffer_after r [indeterminate])) =? 0)).
    + left. cbn. split; [lia|reflexivity].
    + destruct (fopen p) as [image|].
      * apply (Hrun (Some image) w1 [ev]); [reflexivity|].
        split; discriminate.
      * left. cbn. split; [lia|reflexivity].
  - exists []. split; [constructor|].
    apply (Hrun None w []); [rewrite app_nil_r; reflexivity|tauto].
Qed.

End LoadEeprom.

(** ** Labels and addresses of the events of a run *)

Lemma outcome_labels ls s status evs :
  step_labels ls s -> outcome s status evs ->
  Forall (fun e => In (label_of e) ls) evs.
Proof.
  destruct s as [label rq|dev op start|]; cbn.
  - intros Hl (r & -> & _). constructor; [exact Hl|constructor].
  - intros [Hh Hp] (fs & tail & -> & _ & Hcases). apply Forall_app. split.
    + clear Hcases. revert start.
      induction fs as [|f fs IH]; intros start; cbn; [constructor|].
      constructor; [exact Hh|]. constructor; [exact Hp|]. apply IH.
    + destruct Hcases as [(_ & -> & _)|(_ & [->|((f & Hb) & _)])]; try constructor.
      destruct Hb as [(-> & _)|(-> & _)]; repeat constructor; assumption.
  - intros _ [-> _]. constructor.
Qed.

Lemma run_labels ls steps status evs :
  Forall (step_labels ls) steps -> run_of steps status evs ->
  Forall (fun e => In (label_of e) ls) evs.
Proof.
  intros Hsteps Hrun.
  induction Hrun as [|s rest status evs Hout _|s rest st1 evs1 status evs2 Hout _ _ IH].
  - constructor.
  - inversion Hsteps; subst. eapply outcome_labels; eassumption.
  - inversion Hsteps; subst. apply Forall_app. split.
    + eapply outcome_labels; eassumption.
    + apply IH. assumption.
Qed.

Lemma early_label_not_type e :
  In (label_of e) early_labels -> labelled type_label e = false.
Proof.
  unfold labelled. intros Hin. destruct (is_write e); [cbn|reflexivity].
  unfold early_labels in Hin. cbn in Hin.
  destruct Hin as [<-|[<-|[<-|[<-|[<-|[<-|[]]]]]]]; reflexivity.
Qed.

Lemma not_write_not_labelled l e : is_write e = false -> labelled l e = false.
Proof. unfold labelled. intros ->. reflexivity. Qed.

(** ** [ezusb_load_eeprom] up to its first write *)

Section LoadEepromUnfolded.

Variable ioctl : list event -> request -> reply.
Variable fopen : string -> option (list ascii).
Variable indeterminate : Z.
Variables (dev : Z) (type : string) (config : Z).
Variables (large_eeprom : bool) (ww_config_vid ww_config_pid : Z).

(** The call with a path, up to the first write. *)
Lemma load_eeprom_path p w :
  ezusb_load_eeprom ioctl fopen indeterminate dev (Some p) type config
    large_eeprom ww_config_vid ww_config_pid w =
  let r0 := ioctl (trace w)
              (read_request dev GET_EEPROM_SIZE 0 [indeterminate] 1) in
  let w1 := {| trace := trace w ++ [size_event dev indeterminate r0];
               errno := errno_after r0 (errno w) |} in
  if size_accepted indeterminate r0 then
    match fopen p with
    | None => (-2, w1)
    | Some text =>
        match select_variant (Some p) type config large_eeprom with
        | None => (-1, w1)
        | Some v =>
            write_image ioctl dev (Some text) type v ww_config_vid
              ww_config_pid w1
        end
    end
  else (-1, w1).
Proof.
  unfold ezusb_load_eeprom, ezusb_get_eeprom_type.
  rewrite ezusb_read_run by (unfold USHRT_MAX; lia). cbv zeta.
  unfold size_accepted, size_value, size_event.
  set (r0 := ioctl (trace w) _).
  set (value := u8 (hd indeterminate (buffer_after r0 [indeterminate]))).
  destruct (status_of r0 =? 1), (value =? 1), (value =? 0);
    cbn [negb andb orb]; try reflexivity;
    destruct (fopen p); reflexivity.
Qed.

Lemma load_eeprom_no_path w :
  ezusb_load_eeprom ioctl fopen indeterminate dev None type config
    large_eeprom ww_config_vid ww_config_pid w =
  match select_variant None type config large_eeprom with
  | None => (-1, w)
  | Some v =>
      write_image ioctl dev None type v ww_config_vid ww_config_pid w
  end.
Proof. reflexivity. Qed.

(** A call that passes the checks made before the first write runs the
    script of its variant. *)
Lemma load_eeprom_passes path w v :
  select_variant path type config large_eeprom = Some v ->
  match path with
  | Some p =>
      size_accepted indeterminate
        (ioctl (trace w)
           (read_request dev GET_EEPROM_SIZE 0 [indeterminate] 1)) = true /\
      fopen p <> None
  | None => True
  end ->
  let r := ezusb_load_eeprom ioctl fopen indeterminate dev path type config
             large_eeprom ww_config_vid ww_config_pid w in
  exists reads image evs,
    Forall (fun e => is_write e = false) reads /\
    trace (snd r) = trace w ++ reads ++ evs /\
    run_of (image_script dev image type v ww_config_vid ww_config_pid)
           (fst r) evs.
Proof.
  intros Hv Hpassed. cbv zeta.
  destruct (select_variant_cases _ _ _ _ _ Hv) as (Hc & _).
  destruct path as [p|].
  - rewrite load_eeprom_path. cbv zeta.
    destruct Hpassed as [Hsize Hopen]. rewrite Hsize.
    destruct (fopen p) as [text|]; [|contradiction]. rewrite Hv.
    set (r0 := ioctl (trace w) _).
    destruct (write_image_runs ioctl dev (Some text) type v ww_config_vid
                ww_config_pid Hc
                {| trace := trace w ++ [size_event dev indeterminate r0];
                   errno := errno_after r0 (errno w) |})
      as (evs & Htr & Hrun).
    exists [size_event dev indeterminate r0], (Some text), evs.
    split; [repeat constructor|]. split; [|exact Hrun].
    rewrite Htr. cbn [trace]. rewrite <- app_assoc. reflexivity.
  - rewrite load_eeprom_no_path, Hv.
    destruct (write_image_runs ioctl dev None type v ww_config_vid
                ww_config_pid Hc w) as (evs & Htr & Hrun).
    exists [], None, evs. split; [constructor|]. split; [exact Htr|exact Hrun].
Qed.

(** A call with a path that does not pass them requests nothing but the
    size. *)
Lemma load_eeprom_gate_closed path w :
  match path with
  | Some p =>
      size_accepted indeterminate
        (ioctl (trace w)
           (read_request dev GET_EEPROM_SIZE 0 [indeterminate] 1))
      && match fopen p with Some _ => true | None => false end
  | None => true
  end = false ->
  let r := ezusb_load_eeprom ioctl fopen indeterminate dev path type config
             large_eeprom ww_config_vid ww_config_pid w in
  exists reads,
    Forall (fun e => is_write e = false) reads /\
    trace (snd r) = trace w ++ reads /\ fst r < 0.
Proof.
  intros Hclosed. cbv zeta. destruct path as [p|]; [|discriminate].
  rewrite load_eeprom_path. cbv zeta.
  set (r0 := ioctl (trace w) _) in *.
  exists [size_event dev indeterminate r0].
  split; [repeat constructor|].
  destruct (size_accepted indeterminate r0); cbn [andb] in Hclosed.
  - destruct (fopen p); [discriminate|]. cbn. split; [reflexivity|lia].
  - cbn. split; [reflexivity|lia].
Qed.

End LoadEepromUnfolded.

Lemma run_parts steps status evs :
  run_of steps status evs ->
  exists parts,
    evs = List.concat parts /\
    Forall2 (fun s p => p = [] \/ exists st, outcome s st p) steps parts.
Proof.
  induction 1 as [|s rest status evs Hout _|s rest st1 evs1 status evs2 Hout _ _ IH].
  - exists []. split; [reflexivity|constructor].
  - exists (evs :: map (fun _ => []) rest). split.
    + cbn. replace (List.concat (map (fun _ => []) rest)) with (@nil event);
        [rewrite app_nil_r; reflexivity|].
      induction rest as [|s' rest IH]; cbn; auto.
    + constructor; [right; eauto|].
      induction rest as [|s' rest IH]; cbn; constructor; auto.
  - destruct IH as (parts & -> & Hparts).
    exists (evs1 :: parts). split; [reflexivity|].
    constructor; [right; eauto|exact Hparts].
Qed.

Lemma Forall2_cons_l_inv {A B} (R : A -> B -> Prop) x l l' :
  Forall2 R (x :: l) l' ->
  exists y l'', l' = y :: l'' /\ R x y /\ Forall2 R l l''.
Proof. intros H. inversion H; subst. eauto. Qed.

Lemma Forall2_nil_l_inv {A B} (R : A -> B -> Prop) l' :
  Forall2 R [] l' -> l' = [].
Proof. intros H. inversion H. reflexivity. Qed.

Lemma outcome_optional_write (c : bool) label rq status p :
  outcome (if c then Write label rq else Skip) status p ->
  p = [] \/ (c = true /\ exists r, p = [write_event label rq r]).
Proof.
  destruct c; cbn.
  - intros (r & -> & _). right. eauto.
  - intros [-> _]. auto.
Qed.

Section ImageRun.

Variables (dev : Z) (image : option (list ascii)) (type : string).
Variables (v : eeprom_setup) (ww_config_vid ww_config_pid : Z).

(** The trace of a run, step by step: a part is empty when its step was
    skipped or not reached. *)
Lemma image_run_parts status evs :
  run_of (image_script dev image type v ww_config_vid ww_config_pid)
         status evs ->
  exists r0 p2 p3 p4 p5 p6,
    evs = marker_event dev v r0 :: p2 ++ p3 ++ p4 ++ p5 ++ p6 /\
    (p2 = [] \/
     (resolve_id (ww_vid v) ww_config_vid <> 0 /\
      resolve_id (ww_pid v) ww_config_pid <> 0 /\
      exists r, p2 = [identity_event dev v ww_config_vid ww_config_pid r])) /\
    (p3 = [] \/
     (image <> None /\
      exists st, outcome (Frames dev (request_code v) (ee_start v)) st p3)) /\
    (p4 = [] \/ (type <> "an21"%string /\ exists r, p4 = [config_event dev v r])) /\
    (p5 = [] \/ (type = "fx"%string /\ exists r, p5 = [reserved_event dev v r])) /\
    (p6 = [] \/ exists r, p6 = [type_event dev v r]).
Proof.
  unfold image_script. cbv zeta.
  set (op := request_code v).
  set (vid := resolve_id (ww_vid v) ww_config_vid).
  set (pid := resolve_id (ww_pid v) ww_config_pid).
  intros Hrun.
  remember (String.eqb "an21" type) as is_an21 eqn:Han21.
  remember (String.eqb "fx" type) as is_fx eqn:Hfx.
  assert (Hsplit : exists r0 rest,
             evs = marker_event dev v r0 :: rest /\
             (rest = [] \/ exists st,
                run_of
                  [if negb (vid =? 0) && negb (pid =? 0)
                   then Write identity_label
                          (write_request dev op 1 (identity_record vid pid) 6)
                   else Skip;
                   match image with
                   | Some _ => Frames dev op (ee_start v)
                   | None => Skip
                   end;
                   if negb is_an21
                   then Write config_label
                          (write_request dev op 7 [u8 (config_byte v)] 1)
                   else Skip;
                   if is_fx
                   then Write reserved_label (write_request dev op 8 [0] 1)
                   else Skip;
                   Write type_label
                     (write_request dev op 0 [first_byte v] 1)] st rest)).
  { inversion Hrun as [|? ? ? ? Hout _|? ? st1 evs1 ? evs2 Hout _ Hrest]; subst.
    - destruct Hout as (r & -> & _). exists r, []. auto.
    - destruct Hout as (r & -> & _). exists r, evs2. split; [reflexivity|].
      right. exists status. exact Hrest. }
  destruct Hsplit as (r0 & rest & -> & Hrest). exists r0.
  destruct Hrest as [->|(st & Hrest)].
  { exists [], [], [], [], []. repeat split; auto. }
  apply run_parts in Hrest. destruct Hrest as (parts & -> & Hparts).
  apply Forall2_cons_l_inv in Hparts. destruct Hparts as (p2 & ? & -> & H2 & Hparts).
  apply Forall2_cons_l_inv in Hparts. destruct Hparts as (p3 & ? & -> & H3 & Hparts).
  apply Forall2_cons_l_inv in Hparts. destruct Hparts as (p4 & ? & -> & H4 & Hparts).
  apply Forall2_cons_l_inv in Hparts. destruct Hparts as (p5 & ? & -> & H5 & Hparts).
  apply Forall2_cons_l_inv in Hparts. destruct Hparts as (p6 & ? & -> & H6 & Hparts).
  apply Forall2_nil_l_inv in Hparts. subst.
  exists p2, p3, p4, p5, p6. cbn [List.concat]. rewrite app_nil_r.
  split; [reflexivity|]. repeat split.
  - destruct H2 as [->|(st2 & H2)]; [auto|].
    apply outcome_optional_write in H2. destruct H2 as [->|(Hc & r & ->)]; [auto|].
    right. apply andb_true_iff in Hc. destruct Hc as [Hv Hp].
    apply negb_true_iff in Hv, Hp. apply Z.eqb_neq in Hv, Hp.
    split; [exact Hv|]. split; [exact Hp|]. exists r. reflexivity.
  - destruct H3 as [->|(st3 & H3)]; [auto|].
    destruct image; [right; split; [discriminate|eauto]|].
    destruct H3 as [-> _]. auto.
  - destruct H4 as [->|(st4 & H4)]; [auto|].
    apply outcome_optional_write in H4. destruct H4 as [->|(Hc & r & ->)]; [auto|].
    right. apply negb_true_iff in Hc.
    apply String.eqb_neq in Hc. split; [congruence|exists r; reflexivity].
  - destruct H5 as [->|(st5 & H5)]; [auto|].
    apply outcome_optional_write in H5. destruct H5 as [->|(Hc & r & ->)]; [auto|].
    right. apply String.eqb_eq in Hc.
    split; [congruence|exists r; reflexivity].
  - destruct H6 as [->|(st6 & r & -> & _)]; [auto|].
    right. exists r. reflexivity.
Qed.

Lemma script_early_labels :
  Forall (step_labels early_labels)
         (removelast (image_script dev image type v ww_config_vid
                        ww_config_pid)).
Proof.
  unfold image_script. cbv zeta. cbn [removelast].
  repeat constructor;
    repeat match goal with
           | |- step_labels _ (if ?c then _ else _) => destruct c
           | |- step_labels _ (match ?i with Some _ => _ | None => _ end) =>
               destruct i
           end;
    cbn; tauto.
Qed.

(** The type byte is written by the last step only, and the status is 0
    exactly when that write was made and did not fail. *)
Lemma image_run_type_last status evs :
  run_of (image_script dev image type v ww_config_vid ww_config_pid)
         status evs ->
  exists good tail,
    evs = good ++ tail /\
    Forall (fun e => labelled type_label e = false) good /\
    ((tail = [] /\ status < 0) \/
     (exists r, tail = [type_event dev v r] /\
                ((reply_failed r = true /\ status < 0) \/
                 (reply_failed r = false /\ status = 0)))).
Proof.
  intros Hrun.
  set (script := image_script dev image type v ww_config_vid ww_config_pid)
    in *.
  assert (Hscript : script = removelast script ++ [Write type_label
            (write_request dev (request_code v) 0 [first_byte v] 1)])
    by reflexivity.
  rewrite Hscript in Hrun. apply run_last in Hrun.
  assert (Hearly : forall st part,
            run_of (removelast script) st part ->
            Forall (fun e => labelled type_label e = false) part).
  { intros st part Hpart.
    eapply Forall_impl; [|eapply run_labels; [apply script_early_labels|exact Hpart]].
    intros e. apply early_label_not_type. }
  destruct Hrun as [[Hneg Hr]|(evs1 & evs2 & st2 & -> & Hr & Hout & Hst)].
  - exists evs, []. rewrite app_nil_r. repeat split; eauto.
  - destruct Hout as (r & -> & ->).
    exists evs1, [type_event dev v r]. repeat split; eauto. right. exists r.
    split; [reflexivity|].
    destruct Hst as [[Hneg ->]|[Hpos ->]].
    + left. split; [apply status_neg_failed|]; assumption.
    + right. split; [apply status_nonneg_succeeded; assumption|reflexivity].
Qed.

End ImageRun.

(** ** Addresses of the frames *)

Lemma framed_size_app evs1 evs2 :
  framed_size (evs1 ++ evs2) = framed_size evs1 + framed_size evs2.
Proof. induction evs1 as [|e evs1 IH]; cbn [framed_size app]; lia. Qed.

Lemma u16_nonneg z : 0 <= u16 z.
Proof. apply u16_range. Qed.

Lemma framed_size_frames_nonneg dev op fs : forall start,
  0 <= framed_size (frame_events dev op start fs).
Proof.
  induction fs as [|f fs IH]; intros start; cbn [frame_events framed_size].
  - lia.
  - specialize (IH (u16 (start + 4 + fr_len f))).
    change (labelled payload_label (header_event dev op start f)) with false.
    change (labelled payload_label (payload_event dev op start f)) with true.
    cbn [payload_event write_event ev_request write_request wLength].
    pose proof (u16_nonneg (fr_len f)). lia.
Qed.

Lemma framed_size_broken dev op cursor tail :
  broken_frame dev op cursor tail -> 0 <= framed_size tail.
Proof.
  intros (f & [(-> & _)|(-> & _)]); cbn [framed_size].
  - change (labelled payload_label (header_event dev op cursor f)) with false. lia.
  - change (labelled payload_label (header_event dev op cursor f)) with false.
    change (labelled payload_label (payload_event dev op cursor f)) with true.
    cbn [payload_event write_event ev_request write_request wLength].
    pose proof (u16_nonneg (fr_len f)). lia.
Qed.

(** While the frames stay inside the 16-bit address space, every frame
    lies at or behind the start, and the headers are written at strictly
    increasing addresses. *)
Lemma frame_events_addresses dev op fs : forall start tail,
  Forall framed fs -> 0 <= start ->
  tail = [] \/ broken_frame dev op (cursor_after start fs) tail ->
  start + framed_size (frame_events dev op start fs ++ tail) <= USHRT_MAX ->
  Forall (fun e => start <= wValue (ev_request e))
         (frame_events dev op start fs ++ tail) /\
  StronglySorted Z.lt (header_addresses (frame_events dev op start fs ++ tail)) /\
  Forall (fun a => start <= a)
         (header_addresses (frame_events dev op start fs ++ tail)).
Proof.
  induction fs as [|f fs IH]; intros start tail Hfs Hstart Htail Hfit.
  - cbn [frame_events cursor_after app] in *.
    destruct Htail as [->|(f & [(-> & _)|(-> & _)])].
    + cbn. repeat split; constructor.
    + unfold header_addresses. cbn [filter framed_size] in *.
      change (labelled header_label (header_event dev op start f)) with true.
      cbn [map header_event write_event ev_request write_request wValue].
      unfold USHRT_MAX in *.
      change (labelled payload_label (header_event dev op start f)) with false in Hfit.
      repeat split; repeat constructor; cbn;
        rewrite ?(u16_small start) by (unfold USHRT_MAX; lia); lia.
    + unfold header_addresses. cbn [filter framed_size] in *.
      change (labelled header_label (header_event dev op start f)) with true.
      change (labelled header_label (payload_event dev op start f)) with false.
      change (labelled payload_label (header_event dev op start f)) with false in Hfit.
      change (labelled payload_label (payload_event dev op start f)) with true in Hfit.
      cbn [payload_event header_event write_event ev_request write_request
           wValue wLength map] in *.
      pose proof (u16_nonneg (fr_len f)). unfold USHRT_MAX in *.
      repeat split; repeat constructor; cbn;
        rewrite ?(u16_small start), ?(u16_small (start + 4))
          by (unfold USHRT_MAX; lia); lia.
  - inversion Hfs as [|? ? (_ & _ & _ & Hlen & _) Hfs']; subst.
    cbn [frame_events framed_size cursor_after app] in *.
    change (labelled payload_label (header_event dev op start f)) with false in *.
    change (labelled payload_label (payload_event dev op start f)) with true in *.
    cbn [payload_event write_event ev_request write_request wLength] in Hfit.
    assert (Hnn : 0 <= framed_size
                    (frame_events dev op (u16 (start + 4 + fr_len f)) fs ++ tail)).
    { rewrite framed_size_app.
      pose proof (framed_size_frames_nonneg dev op fs (u16 (start + 4 + fr_len f))).
      destruct Htail as [->|Hb]; [cbn; lia|].
      pose proof (framed_size_broken _ _ _ _ Hb). lia. }
    unfold USHRT_MAX in *.
    rewrite (u16_small (fr_len f)) in Hfit by (unfold USHRT_MAX; lia).
    assert (Hnext : u16 (start + 4 + fr_len f) = start + 4 + fr_len f)
      by (apply u16_small; unfold USHRT_MAX; lia).
    rewrite Hnext in *.
    destruct (IH (start + 4 + fr_len f) tail Hfs' ltac:(lia) Htail ltac:(lia))
      as (Ha & Hs & Hh).
    split; [|split].
    + constructor; [|constructor].
      * cbn. rewrite u16_small by (unfold USHRT_MAX; lia). lia.
      * cbn. rewrite u16_small by (unfold USHRT_MAX; lia). lia.
      * eapply Forall_impl; [|exact Ha]. cbn. intros e He. lia.
    + unfold header_addresses. cbn [filter].
      change (labelled header_label (header_event dev op start f)) with true.
      change (labelled header_label (payload_event dev op start f)) with false.
      cbn [map]. constructor; [exact Hs|].
      cbn. rewrite u16_small by (unfold USHRT_MAX; lia).
      eapply Forall_impl; [|exact Hh]. cbn. intros a Ha'. lia.
    + unfold header_addresses. cbn [filter].
      change (labelled header_label (header_event dev op start f)) with true.
      change (labelled header_label (payload_event dev op start f)) with false.
      cbn [map]. constructor.
      * cbn. rewrite u16_small by (unfold USHRT_MAX; lia). lia.
      * eapply Forall_impl; [|exact Hh]. cbn. intros a Ha'. lia.
Qed.

(** A segment header is written at the start plus the space taken by the
    frames before it, in 16-bit arithmetic. *)
Lemma frame_events_cursor dev op fs : forall start tail pre e post,
  Forall framed fs ->
  tail = [] \/ broken_frame dev op (cursor_after start fs) tail ->
  frame_events dev op start fs ++ tail = pre ++ e :: post ->
  labelled header_label e = true ->
  wValue (ev_request e) = u16 (start + framed_size pre).
Proof.
  induction fs as [|f fs IH]; intros start tail pre e post Hfs Htail Heq He.
  - cbn [frame_events cursor_after app] in *.
    destruct Htail as [->|(f & [(-> & _)|(-> & _)])].
    + destruct pre; discriminate.
    + destruct pre as [|a pre]; [|destruct pre; discriminate].
      injection Heq as <- _. cbn. rewrite Z.add_0_r. reflexivity.
    + destruct pre as [|a [|b pre]].
      * injection Heq as <- _. cbn. rewrite Z.add_0_r. reflexivity.
      * injection Heq as _ <- _. discriminate He.
      * destruct pre; discriminate.
  - inversion Hfs as [|? ? (_ & _ & _ & Hlen & _) Hfs']; subst.
    cbn [frame_events cursor_after app] in *.
    destruct pre as [|a [|b pre]].
    + injection Heq as <- _. cbn. rewrite Z.add_0_r. reflexivity.
    + injection Heq as _ <- _. discriminate He.
    + injection Heq as <- <- Heq.
      rewrite (IH _ tail pre e post Hfs' Htail Heq He).
      rewrite u16_add_l. f_equal.
      cbn [framed_size].
      change (labelled payload_label (header_event dev op start f)) with false.
      change (labelled payload_label (payload_event dev op start f)) with true.
      cbn [payload_event write_event ev_request write_request wLength].
      rewrite (u16_small (fr_len f)) by (unfold USHRT_MAX; lia). lia.
Qed.

Lemma header_addresses_app evs1 evs2 :
  header_addresses (evs1 ++ evs2) = header_addresses evs1 ++ header_addresses evs2.
Proof. unfold header_addresses. rewrite filter_app, map_app. reflexivity. Qed.

Lemma frames_outcome_cursor dev op start status part pre e post :
  outcome (Frames dev op start) status part ->
  part = pre ++ e :: post -> labelled header_label e = true ->
  wValue (ev_request e) = u16 (start + framed_size pre).
Proof.
  intros (fs & tail & -> & Hfs & Hcases) Heq He.
  assert (Htail : tail = [] \/ broken_frame dev op (cursor_after start fs) tail).
  { destruct Hcases as [(_ & -> & _)|(_ & [->|(Hb & _)])]; auto. }
  exact (frame_events_cursor dev op fs start tail pre e post Hfs Htail Heq He).
Qed.

Lemma frames_outcome_addresses dev op start status part :
  outcome (Frames dev op start) status part ->
  0 <= start -> start + framed_size part <= USHRT_MAX ->
  Forall (fun e => start <= wValue (ev_request e)) part /\
  StronglySorted Z.lt (header_addresses part).
Proof.
  intros (fs & tail & -> & Hfs & Hcases) Hstart Hfit.
  assert (Htail : tail = [] \/ broken_frame dev op (cursor_after start fs) tail).
  { destruct Hcases as [(_ & -> & _)|(_ & [->|(Hb & _)])]; auto. }
  destruct (frame_events_addresses dev op fs start tail Hfs Hstart Htail Hfit)
    as (Ha & Hs & _).
  auto.
Qed.

(** ** Boot safety of [ezusb_load_eeprom] *)

Lemma filter_none {A} (f : A -> bool) l :
  Forall (fun x => f x = false) l -> filter f l = [].
Proof.
  induction 1 as [|x l Hx _ IH]; cbn; [reflexivity|]. rewrite Hx. exact IH.
Qed.

Lemma filter_all {A} (f : A -> bool) l :
  Forall (fun x => f x = true) l -> filter f l = l.
Proof.
  induction 1 as [|x l Hx _ IH]; cbn; [reflexivity|]. rewrite Hx, IH. reflexivity.
Qed.

Lemma split_after_prefix {A} (f : A -> bool) (skip : list A) :
  forall l pre e post,
    Forall (fun x => f x = false) skip ->
    skip ++ l = pre ++ e :: post -> f e = true ->
    exists pre', pre = skip ++ pre' /\ l = pre' ++ e :: post.
Proof.
  induction skip as [|x skip IH]; intros l pre e post Hskip Heq He.
  - exists pre. auto.
  - inversion Hskip as [|? ? Hx Hskip']; subst.
    destruct pre as [|p pre]; cbn in Heq; injection Heq as <- Heq.
    + congruence.
    + destruct (IH l pre e post Hskip' Heq He) as (pre' & -> & ->).
      exists pre'. auto.
Qed.

Lemma framed_size_none evs :
  Forall (fun e => labelled payload_label e = false) evs -> framed_size evs = 0.
Proof.
  induction 1 as [|e evs He _ IH]; cbn [framed_size]; [reflexivity|].
  rewrite He, IH. reflexivity.
Qed.

Section ImageSafety.

Variables (dev : Z) (image : option (list ascii)) (type : string).
Variables (v : eeprom_setup) (ww_config_vid ww_config_pid : Z).

Hypothesis start_range : 7 <= ee_start v <= 9.

(** Apart from the frames, nothing is counted by [framed_size]; and
    while the frames stay inside the 16-bit address space, only the
    first and the last step write to offset 0. *)
Lemma image_run_offsets status evs :
  run_of (image_script dev image type v ww_config_vid ww_config_pid)
         status evs ->
  framed_size evs + 9 <= USHRT_MAX ->
  forall e, In e evs -> wValue (ev_request e) = 0 ->
  labelled marker_label e = true \/ labelled type_label e = true.
Proof.
  intros Hrun Hfit e Hin Haddr.
  destruct (image_run_parts dev image type v ww_config_vid ww_config_pid
              status evs Hrun)
    as (r0 & p2 & p3 & p4 & p5 & p6 & -> & H2 & H3 & H4 & H5 & H6).
  change (marker_event dev v r0 :: p2 ++ p3 ++ p4 ++ p5 ++ p6)
    with ([marker_event dev v r0] ++ p2 ++ p3 ++ p4 ++ p5 ++ p6) in Hfit.
  rewrite !framed_size_app in Hfit.
  assert (F1 : framed_size [marker_event dev v r0] = 0) by reflexivity.
  assert (F2 : framed_size p2 = 0).
  { destruct H2 as [->|(_ & _ & r & ->)]; reflexivity. }
  assert (F4 : framed_size p4 = 0).
  { destruct H4 as [->|(_ & r & ->)]; reflexivity. }
  assert (F5 : framed_size p5 = 0).
  { destruct H5 as [->|(_ & r & ->)]; reflexivity. }
  assert (F6 : framed_size p6 = 0).
  { destruct H6 as [->|(r & ->)]; reflexivity. }
  destruct Hin as [<-|Hin]; [left; reflexivity|].
  apply in_app_or in Hin. destruct Hin as [Hin|Hin].
  { destruct H2 as [->|(_ & _ & r & ->)]; [destruct Hin|].
    destruct Hin as [<-|[]]. discriminate Haddr. }
  apply in_app_or in Hin. destruct Hin as [Hin|Hin].
  { destruct H3 as [->|(_ & st & H3)]; [destruct Hin|].
    destruct (frames_outcome_addresses _ _ _ _ _ H3 ltac:(lia) ltac:(lia))
      as (Ha & _).
    rewrite Forall_forall in Ha. specialize (Ha e Hin). lia. }
  apply in_app_or in Hin. destruct Hin as [Hin|Hin].
  { destruct H4 as [->|(_ & r & ->)]; [destruct Hin|].
    destruct Hin as [<-|[]]. discriminate Haddr. }
  apply in_app_or in Hin. destruct Hin as [Hin|Hin].
  { destruct H5 as [->|(_ & r & ->)]; [destruct Hin|].
    destruct Hin as [<-|[]]. discriminate Haddr. }
  destruct H6 as [->|(r & ->)]; [destruct Hin|].
  destruct Hin as [<-|[]]. right. reflexivity.
Qed.

End ImageSafety.

(** What holds of the order of the writes in every call of
    [ezusb_load_eeprom], on an image in scope: the first write issued, if
    any, is the single byte 0 at offset 0; the write of the type byte (the
    nonzero bootable value of the variant, at offset 0) is the last write
    of the operation, and a call that returns 0 ends with it; a write that
    fails is the last request issued and the call then returns a failure;
    in a call that returns a failure no write labelled as the type byte
    has succeeded.  And while the frames written stay inside the 16-bit
    address space, no other write of the call goes to offset 0. *)
Lemma ezusb_load_eeprom_boot_safety
    ioctl fopen indeterminate dev path type config large_eeprom
    ww_config_vid ww_config_pid w :
  (forall p text, path = Some p -> fopen p = Some text ->
                  image_in_scope text) ->
  let r := ezusb_load_eeprom ioctl fopen indeterminate dev path type config
             large_eeprom ww_config_vid ww_config_pid w in
  exists evs,
    trace (snd r) = trace w ++ evs /\
    (fst r = 0 \/ fst r < 0) /\
    (forall e rest, filter is_write evs = e :: rest ->
       label_of e = marker_label /\ wValue (ev_request e) = 0 /\
       rq_data (ev_request e) = [0] /\ wLength (ev_request e) = 1) /\
    (forall pre e post,
       evs = pre ++ e :: post -> labelled type_label e = true ->
       post = [] /\ wValue (ev_request e) = 0 /\ wLength (ev_request e) = 1 /\
       exists v, select_variant path type config large_eeprom = Some v /\
                 rq_data (ev_request e) = [first_byte v] /\ first_byte v <> 0) /\
    (fst r = 0 ->
       exists pre e, evs = pre ++ [e] /\ labelled type_label e = true /\
                     failed e = false) /\
    (forall pre e post,
       evs = pre ++ e :: post -> is_write e = true -> failed e = true ->
       post = [] /\ fst r = status_of (ev_reply e) /\ fst r < 0) /\
    (fst r < 0 ->
       forall e, In e evs -> labelled type_label e = true -> failed e = true) /\
    (framed_size evs + 9 <= USHRT_MAX ->
       forall e, In e evs -> is_write e = true -> wValue (ev_request e) = 0 ->
       labelled marker_label e = true \/ labelled type_label e = true).
Proof.
  intros _. cbv zeta.
  destruct (load_eeprom_runs ioctl fopen indeterminate dev path type config
              large_eeprom ww_config_vid ww_config_pid w)
    as (reads & Hreads & [[Hneg Htr]|(v & image & evs & Hv & _ & Htr & Hrun)]).
  - (* refused before anything was written *)
    exists reads. split; [exact Htr|]. split; [right; exact Hneg|].
    assert (Hno : forall e, In e reads -> is_write e = false)
      by (apply Forall_forall; exact Hreads).
    assert (Hin_no : forall pre e post,
              reads = pre ++ e :: post -> labelled type_label e = false /\
                                          is_write e = false).
    { intros pre e post ->.
      pose proof (Hno e ltac:(apply in_elt)) as Hw.
      split; [apply not_write_not_labelled|]; exact Hw. }
    split; [|split; [|split; [|split; [|split]]]].
    + intros e rest H. rewrite filter_none in H by assumption. discriminate.
    + intros pre e post Heq He.
      destruct (Hin_no _ _ _ Heq) as [Hl _]. congruence.
    + lia.
    + intros pre e post Heq Hw _.
      destruct (Hin_no _ _ _ Heq) as [_ Hl]. congruence.
    + intros _ e Hin Hl. rewrite (not_write_not_labelled _ _ (Hno e Hin)) in Hl.
      discriminate.
    + intros _ e Hin Hw. rewrite (Hno e Hin) in Hw. discriminate.
  - (* the script of the variant was run *)
    destruct (select_variant_cases _ _ _ _ _ Hv) as (_ & Hfb & _ & Hstart).
    assert (Hrange : 7 <= ee_start v <= 9).
    { destruct Hstart as [(_ & -> & _)|[(_ & -> & _)|[(_ & -> & _)|(_ & -> & _)]]];
        lia. }
    pose proof (run_writes _ _ _ Hrun) as Hwrites.
    pose proof (image_run_type_last dev image type v ww_config_vid
                  ww_config_pid _ _ Hrun) as (good & tail & Hsplit & Hgood & Htail).
    assert (Hreads' : Forall (fun e => labelled type_label e = false) reads).
    { eapply Forall_impl; [|exact Hreads].
      intros e. apply not_write_not_labelled. }
    assert (Hlen : (List.length tail <= 1)%nat).
    { destruct Htail as [[-> _]|(r & -> & _)]; cbn; lia. }
    exists (reads ++ evs). split; [exact Htr|].
    split; [eapply run_status; eassumption|].
    split; [|split; [|split; [|split; [|split]]]].
    + intros e rest. rewrite filter_app, (filter_none _ _ Hreads).
      rewrite (filter_all _ _ Hwrites). cbn [app].
      destruct (image_run_parts dev image type v ww_config_vid ww_config_pid
                  _ _ Hrun) as (r0 & p2 & p3 & p4 & p5 & p6 & -> & _).
      intros [= <- _]. repeat split.
    + intros pre e post Heq He.
      rewrite Hsplit, app_assoc in Heq.
      destruct (only_last (labelled type_label) (reads ++ good) tail pre e post
                  ltac:(apply Forall_app; auto) Hlen Heq He) as (-> & Ht).
      split; [reflexivity|].
      destruct Htail as [[-> _]|(r & -> & _)]; [discriminate|].
      injection Ht as <-. repeat split. exists v. auto.
    + intros Hst. destruct Htail as [[_ Hneg]|(r & -> & [[_ Hneg]|[Hok _]])];
        try lia.
      exists (reads ++ good), (type_event dev v r).
      rewrite Hsplit, app_assoc. repeat split. exact Hok.
    + intros pre e post Heq Hw He.
      destruct (split_after_prefix is_write reads evs pre e post Hreads Heq Hw)
        as (pre' & -> & Heq').
      eapply run_failed_write; eauto.
    + intros Hneg e Hin Hl. apply in_app_or in Hin.
      destruct Hin as [Hin|Hin].
      { rewrite Forall_forall in Hreads'. rewrite (Hreads' e Hin) in Hl.
        discriminate. }
      rewrite Hsplit in Hin. apply in_app_or in Hin.
      destruct Hin as [Hin|Hin].
      { rewrite Forall_forall in Hgood. rewrite (Hgood e Hin) in Hl.
        discriminate. }
      destruct Htail as [[-> _]|(r & -> & [[Hf _]|[_ Hz]])];
        [destruct Hin| |lia].
      destruct Hin as [<-|[]]. exact Hf.
    + intros Hfit e Hin Hw Haddr. apply in_app_or in Hin.
      destruct Hin as [Hin|Hin].
      { rewrite Forall_forall in Hreads. rewrite (Hreads e Hin) in Hw.
        discriminate. }
      rewrite framed_size_app in Hfit.
      assert (framed_size reads = 0) as Hr0.
      { apply framed_size_none. eapply Forall_impl; [|exact Hreads].
        intros x. apply not_write_not_labelled. }
      eapply (image_run_offsets dev image type v ww_config_vid ww_config_pid
                Hrange); eauto. lia.
Qed.

(** C1.  The order of the writes does not keep the type byte at 0 in
    every aborted call.  The cursor of the frames is an [unsigned short]
    and nothing checks the size of the image: with [oversized_image], an
    image in scope whose frames fill the EEPROM from offset 8 up to
    offset 65532, the header of the next frame goes to 65532 and its
    payload, the byte 0xC2, to offset 65536 taken to 16 bits, which is
    offset 0.  The device then fails the header of the reset record and
    the call returns -1.  The writes to offset 0 in this aborted call are
    the marker byte 0 and, after it, the byte 0xC2, the bootable type
    value of the variant, both accepted by the device. *)
Theorem oversized_image_sets_type_byte :
  image_in_scope oversized_image /\
  select_variant (Some "fw.ihx"%string) "fx2" 0 true = Some fx2_setup /\
  first_byte fx2_setup = 0xC2 /\
  fst oversized_load = -1 /\
  writes_to_type_byte (trace (snd oversized_load))
  = [(marker_label, [0], false); (payload_label, [0xC2], false)] /\
  (exists pre e,
     trace (snd oversized_load) = pre ++ [e] /\
     labelled header_label e = true /\ failed e = true /\
     rq_data (ev_request e) = [0x80; 0x01; 0xe6; 0x00]).
Proof.
  split; [apply in_scope_by_check; vm_compute; reflexivity|].
  split; [reflexivity|]. split; [reflexivity|].
  split; [vm_compute; reflexivity|].
  split; [vm_compute; reflexivity|].
  exists (removelast (trace (snd oversized_load))),
         (List.last (trace (snd oversized_load))
               (marker_event 0 fx2_setup (Failed 1))).
  split; [|vm_compute; repeat split; reflexivity].
  apply app_removelast_last. vm_compute. discriminate.
Qed.

(** ** The EEPROM cursor *)

Lemma header_addresses_none evs :
  Forall (fun e => labelled header_label e = false) evs ->
  header_addresses evs = [].
Proof. intros H. unfold header_addresses. rewrite filter_none; auto. Qed.

Lemma split_before_suffix {A} (f : A -> bool) (suffix : list A) :
  forall l pre e post,
    Forall (fun x => f x = false) suffix ->
    l ++ suffix = pre ++ e :: post -> f e = true ->
    exists post', l = pre ++ e :: post' /\ post = post' ++ suffix.
Proof.
  induction l as [|x l IH]; intros pre e post Hs Heq He; cbn in Heq.
  - rewrite Forall_forall in Hs.
    rewrite (Hs e ltac:(rewrite Heq; apply in_elt)) in He. discriminate.
  - destruct pre as [|p pre]; cbn in Heq; injection Heq as <- Heq.
    + exists l. auto.
    + destruct (IH pre e post Hs Heq He) as (post' & -> & ->).
      exists post'. auto.
Qed.

(** C5, counterexample.  The specification counts the identity block into
    the cursor; the code does not.  With the default identity of an FX2
    written and one segment of 16 bytes framed, the next header goes to
    28 = 8 + (4 + 16), not to 8 + (4 + 16) + 6. *)
Lemma cursor_ignores_identity_block :
  let r := ezusb_load_eeprom obliging_device (fun _ => Some one_record_image)
             0 3 (Some "fw.ihx"%string) "fx2" 0 true (-1) (-1) fresh_world in
  fst r = 0 /\
  existsb (labelled identity_label) (trace (snd r)) = true /\
  header_addresses (trace (snd r)) = [8; 28] /\
  nth 1 (header_addresses (trace (snd r))) 0 <> spec_cursor 8 [16] 6.
Proof. vm_compute. repeat split; discriminate. Qed.

(** C5, amended.  In a call of [ezusb_load_eeprom] for a known variant,
    on an image in scope,
    every segment header is written at the initial offset of the variant
    (8 for fx2 and fx2lp, 9 for fx, 7 for an21) plus 4 + L for every
    segment of payload length L framed before it, in 16-bit arithmetic;
    the identity block does not enter the sum.  While the sum stays inside
    the 16-bit address space, the headers go to strictly increasing
    addresses. *)
Theorem eeprom_cursor_invariant
    ioctl fopen indeterminate dev path type config large_eeprom
    ww_config_vid ww_config_pid w v :
  select_variant path type config large_eeprom = Some v ->
  (forall p text, path = Some p -> fopen p = Some text ->
                  image_in_scope text) ->
  let r := ezusb_load_eeprom ioctl fopen indeterminate dev path type config
             large_eeprom ww_config_vid ww_config_pid w in
  exists evs,
    trace (snd r) = trace w ++ evs /\
    ee_start v = (if String.eqb type "fx" then 9
                  else if String.eqb type "an21" then 7 else 8) /\
    (forall pre e post,
       evs = pre ++ e :: post -> labelled header_label e = true ->
       wValue (ev_request e) = u16 (ee_start v + framed_size pre)) /\
    (ee_start v + framed_size evs <= USHRT_MAX ->
     StronglySorted Z.lt (header_addresses evs)).
Proof.
  intros Hv _. cbv zeta.
  assert (Hstart : ee_start v = (if String.eqb type "fx" then 9
                                 else if String.eqb type "an21" then 7 else 8)).
  { destruct (select_variant_cases _ _ _ _ _ Hv) as (_ & _ & _ & Hc).
    destruct Hc as [(-> & -> & _)|[(-> & -> & _)|[(-> & -> & _)|(-> & -> & _)]]];
      reflexivity. }
  assert (Hrange : 0 <= ee_start v).
  { rewrite Hstart. destruct (String.eqb type "fx"); [lia|].
    destruct (String.eqb type "an21"); lia. }
  destruct (load_eeprom_runs ioctl fopen indeterminate dev path type config
              large_eeprom ww_config_vid ww_config_pid w)
    as (reads & Hreads & [[Hneg Htr]|(v' & image & evs & Hv' & _ & Htr & Hrun)]).
  - exists reads. split; [exact Htr|]. split; [exact Hstart|].
    assert (Hnone : Forall (fun e => labelled header_label e = false) reads).
    { eapply Forall_impl; [|exact Hreads].
      intros e. apply not_write_not_labelled. }
    split.
    + intros pre e post -> He. rewrite Forall_forall in Hnone.
      rewrite (Hnone e ltac:(apply in_elt)) in He. discriminate.
    + intros _. rewrite header_addresses_none by assumption. constructor.
  - rewrite Hv in Hv'. injection Hv' as <-.
    destruct (image_run_parts dev image type v ww_config_vid ww_config_pid
                _ _ Hrun)
      as (r0 & p2 & p3 & p4 & p5 & p6 & -> & H2 & H3 & H4 & H5 & H6).
    set (before := reads ++ marker_event dev v r0 :: p2).
    set (behind := p4 ++ p5 ++ p6).
    assert (Heq : reads ++ marker_event dev v r0 :: p2 ++ p3 ++ p4 ++ p5 ++ p6
                  = before ++ p3 ++ behind).
    { subst before behind. rewrite <- app_assoc. reflexivity. }
    assert (Hbefore : Forall (fun e => labelled header_label e = false) before
                      /\ Forall (fun e => labelled payload_label e = false) before).
    { subst before. split; apply Forall_app; split;
        try (eapply Forall_impl; [|exact Hreads];
             intros e; apply not_write_not_labelled);
        (constructor; [reflexivity|]);
        destruct H2 as [->|(_ & _ & r & ->)]; repeat constructor. }
    assert (Hbehind : Forall (fun e => labelled header_label e = false) behind
                      /\ Forall (fun e => labelled payload_label e = false) behind).
    { subst behind.
      destruct H4 as [->|(_ & r4 & ->)], H5 as [->|(_ & r5 & ->)],
               H6 as [->|(r6 & ->)]; split; repeat constructor. }
    destruct Hbefore as [Hbh Hbp]. destruct Hbehind as [Hah Hap].
    exists (reads ++ marker_event dev v r0 :: p2 ++ p3 ++ p4 ++ p5 ++ p6).
    split; [exact Htr|]. split; [exact Hstart|]. rewrite Heq. split.
    + intros pre e post Hsplit He.
      destruct (split_after_prefix (labelled header_label) before _ pre e post
                  Hbh Hsplit He) as (pre' & -> & Hsplit').
      destruct (split_before_suffix (labelled header_label) behind p3 pre' e post
                  Hah Hsplit' He) as (post' & Hp3 & _).
      rewrite framed_size_app, (framed_size_none _ Hbp), Z.add_0_l.
      destruct H3 as [->|(_ & st & H3)]; [destruct pre'; discriminate|].
      eapply frames_outcome_cursor; eauto.
    + rewrite !framed_size_app, !header_addresses_app.
      rewrite (framed_size_none _ Hbp), (framed_size_none _ Hap).
      rewrite (header_addresses_none _ Hbh), (header_addresses_none _ Hah).
      rewrite app_nil_r. cbn [app]. intros Hfit.
      destruct H3 as [->|(_ & st & H3)]; [constructor|].
      eapply frames_outcome_addresses; eauto. lia.
Qed.

(** ** The identity record *)

Lemma run_first s rest status evs :
  run_of (s :: rest) status evs ->
  exists st1 evs1 evs2,
    outcome s st1 evs1 /\ evs = evs1 ++ evs2 /\
    ((st1 < 0 /\ evs2 = [] /\ status = st1) \/
     (0 <= st1 /\ run_of rest status evs2)).
Proof.
  intros H.
  inversion H as [|? ? ? ? Hout Hneg|? ? st1 evs1 ? evs2 Hout Hst Hrest]; subst.
  - exists status, evs, []. rewrite app_nil_r.
    split; [exact Hout|]. split; [reflexivity|]. left. auto.
  - exists st1, evs1, evs2.
    split; [exact Hout|]. split; [reflexivity|]. right. auto.
Qed.

Lemma identity_record_bytes vid pid :
  is_ushort vid -> is_ushort pid ->
  identity_record vid pid =
  [vid mod 256; vid / 256; pid mod 256; pid / 256; 0x05; 0xa0].
Proof.
  unfold is_ushort, USHRT_MAX, identity_record. intros Hv Hp.
  change 0xff with (Z.ones 8).
  rewrite !Z.land_ones, !Z.shiftr_div_pow2 by lia.
  change (2 ^ 8) with 256.
  rewrite (Z.mod_small (vid / 256)), (Z.mod_small (pid / 256));
    [reflexivity| |];
    (split; [apply Z.div_pos; lia|apply Z.div_lt_upper_bound; lia]).
Qed.

Lemma resolve_id_range default override :
  is_ushort default -> is_ushort (resolve_id default override).
Proof.
  intros Hd. unfold resolve_id. destruct (override >=? 0); [|exact Hd].
  apply u16_range.
Qed.

(** The identity record in the trace of a call for a known variant: it is
    written only if both ids are nonzero, as the second write; and a
    first write that has not failed is followed by it when both ids are
    nonzero. *)
Lemma identity_record_trace
    ioctl fopen indeterminate dev path type config large_eeprom
    ww_config_vid ww_config_pid w v :
  select_variant path type config large_eeprom = Some v ->
  let r := ezusb_load_eeprom ioctl fopen indeterminate dev path type config
             large_eeprom ww_config_vid ww_config_pid w in
  let vid := resolve_id (ww_vid v) ww_config_vid in
  let pid := resolve_id (ww_pid v) ww_config_pid in
  (forall default override,
     resolve_id default override
     = if override >=? 0 then u16 override else default) /\
  (forall default override,
     0 <= override <= USHRT_MAX -> resolve_id default override = override) /\
  (ww_vid v = (if String.eqb type "fx2" || String.eqb type "fx2lp"
               then 0x04B4 else 0)) /\
  (ww_pid v = (if String.eqb type "fx2" then 0x6473
               else if String.eqb type "fx2lp" then 0x8613 else 0)) /\
  exists evs,
    trace (snd r) = trace w ++ evs /\
    (forall e, In e evs -> labelled identity_label e = true ->
       vid <> 0 /\ pid <> 0 /\
       wValue (ev_request e) = 1 /\ wLength (ev_request e) = 6 /\
       rq_data (ev_request e)
       = [vid mod 256; vid / 256; pid mod 256; pid / 256; 0x05; 0xa0] /\
       exists e0 rest, filter is_write evs = e0 :: e :: rest) /\
    (forall e0 rest,
       filter is_write evs = e0 :: rest -> failed e0 = false ->
       vid <> 0 -> pid <> 0 ->
       exists e1 rest', rest = e1 :: rest' /\ labelled identity_label e1 = true) /\
    (type = "fx"%string \/ type = "an21"%string ->
     forall e, In e evs -> labelled identity_label e = true ->
     0 < ww_config_vid /\ 0 < ww_config_pid).
Proof.
  intros Hv. cbv zeta.
  destruct (select_variant_cases _ _ _ _ _ Hv) as (_ & _ & _ & Hc).
  assert (Hdefaults :
            ww_vid v = (if String.eqb type "fx2" || String.eqb type "fx2lp"
                        then 0x04B4 else 0) /\
            ww_pid v = (if String.eqb type "fx2" then 0x6473
                        else if String.eqb type "fx2lp" then 0x8613 else 0)).
  { destruct Hc as [(-> & _ & -> & ->)|[(-> & _ & -> & ->)|
                    [(-> & _ & -> & -> & _)|(-> & _ & -> & -> & _)]]];
      split; reflexivity. }
  destruct Hdefaults as [Hdv Hdp].
  set (vid := resolve_id (ww_vid v) ww_config_vid).
  set (pid := resolve_id (ww_pid v) ww_config_pid).
  assert (Hvid : is_ushort vid).
  { apply resolve_id_range. rewrite Hdv. unfold is_ushort, USHRT_MAX.
    destruct (_ || _); lia. }
  assert (Hpid : is_ushort pid).
  { apply resolve_id_range. rewrite Hdp. unfold is_ushort, USHRT_MAX.
    destruct (String.eqb type "fx2"); [lia|].
    destruct (String.eqb type "fx2lp"); lia. }
  split; [reflexivity|].
  split; [intros d o Ho; unfold resolve_id;
          destruct (Z.geb_spec o 0); [apply u16_small; exact Ho|lia]|].
  split; [exact Hdv|]. split; [exact Hdp|].
  destruct (load_eeprom_runs ioctl fopen indeterminate dev path type config
              large_eeprom ww_config_vid ww_config_pid w)
    as (reads & Hreads & [[Hneg Htr]|(v' & image & evs & Hv' & _ & Htr & Hrun)]).
  - exists reads. split; [exact Htr|].
    assert (Hno : forall e, In e reads -> is_write e = false)
      by (apply Forall_forall; exact Hreads).
    split; [|split].
    + intros e Hin Hl.
      rewrite (not_write_not_labelled _ _ (Hno e Hin)) in Hl. discriminate.
    + intros e0 rest H. rewrite filter_none in H by assumption. discriminate.
    + intros _ e Hin Hl.
      rewrite (not_write_not_labelled _ _ (Hno e Hin)) in Hl. discriminate.
  - rewrite Hv in Hv'. injection Hv' as <-.
    pose proof (run_writes _ _ _ Hrun) as Hwrites.
    assert (Hfilter : filter is_write (reads ++ evs) = evs).
    { rewrite filter_app, (filter_none _ _ Hreads), (filter_all _ _ Hwrites).
      reflexivity. }
    destruct (image_run_parts dev image type v ww_config_vid ww_config_pid
                _ _ Hrun)
      as (r0 & p2 & p3 & p4 & p5 & p6 & Hevs & H2 & H3 & H4 & H5 & H6).
    assert (Honly : forall e, In e (reads ++ evs) ->
                    labelled identity_label e = true ->
                    vid <> 0 /\ pid <> 0 /\
                    exists r, p2 = [identity_event dev v ww_config_vid
                                      ww_config_pid r] /\
                              e = identity_event dev v ww_config_vid
                                    ww_config_pid r).
    { intros e Hin Hl. apply in_app_or in Hin. destruct Hin as [Hin|Hin].
      { rewrite Forall_forall in Hreads.
        rewrite (not_write_not_labelled _ _ (Hreads e Hin)) in Hl. discriminate. }
      rewrite Hevs in Hin. destruct Hin as [<-|Hin]; [discriminate Hl|].
      apply in_app_or in Hin. destruct Hin as [Hin|Hin].
      { destruct H2 as [->|(Hv0 & Hp0 & r & ->)]; [destruct Hin|].
        destruct Hin as [<-|[]]. eauto. }
      exfalso. apply in_app_or in Hin. destruct Hin as [Hin|Hin].
      { destruct H3 as [->|(_ & st & H3)]; [destruct Hin|].
        assert (Hsl : step_labels [header_label; payload_label]
                        (Frames dev (request_code v) (ee_start v)))
          by (cbn; tauto).
        pose proof (outcome_labels _ _ _ _ Hsl H3) as Hls.
        rewrite Forall_forall in Hls. specialize (Hls e Hin).
        unfold labelled in Hl. apply andb_true_iff in Hl. destruct Hl as [_ Hl].
        apply String.eqb_eq in Hl. rewrite Hl in Hls.
        destruct Hls as [Hx|[Hx|[]]]; discriminate Hx. }
      apply in_app_or in Hin. destruct Hin as [Hin|Hin].
      { destruct H4 as [->|(_ & r & ->)]; [destruct Hin|].
        destruct Hin as [<-|[]]. discriminate Hl. }
      apply in_app_or in Hin. destruct Hin as [Hin|Hin].
      { destruct H5 as [->|(_ & r & ->)]; [destruct Hin|].
        destruct Hin as [<-|[]]. discriminate Hl. }
      destruct H6 as [->|(r & ->)]; [destruct Hin|].
      destruct Hin as [<-|[]]. discriminate Hl. }
    exists (reads ++ evs). split; [exact Htr|]. rewrite Hfilter.
    split; [|split].
    + intros e Hin Hl.
      destruct (Honly e Hin Hl) as (Hv0 & Hp0 & r & Hp2 & ->).
      split; [exact Hv0|]. split; [exact Hp0|].
      split; [reflexivity|]. split; [reflexivity|].
      split; [apply identity_record_bytes; assumption|].
      rewrite Hevs, Hp2. cbn [app]. eauto.
    + intros e0 rest Hfirst Hok Hv0 Hp0.
      apply run_first in Hrun.
      destruct Hrun as (st1 & evs1 & evs2 & Hout & -> & Hnext).
      destruct Hout as (r & -> & ->). injection Hfirst as <- <-.
      destruct Hnext as [(Hneg & _)|(_ & Hrest)].
      { apply status_neg_failed in Hneg. unfold failed in Hok. cbn in Hok.
        congruence. }
      apply run_first in Hrest.
      destruct Hrest as (st2 & evs3 & evs4 & Hout2 & -> & _).
      fold vid pid in Hout2.
      destruct (Z.eqb_spec vid 0) as [|_]; [contradiction|].
      destruct (Z.eqb_spec pid 0) as [|_]; [contradiction|].
      cbn [negb andb] in Hout2. destruct Hout2 as (r2 & -> & _).
      cbn [app]. eexists _, _. split; reflexivity.
    + intros Htype e Hin Hl.
      destruct (Honly e Hin Hl) as (Hv0 & Hp0 & _).
      assert (Hzero : ww_vid v = 0 /\ ww_pid v = 0).
      { rewrite Hdv, Hdp. destruct Htype as [->| ->]; split; reflexivity. }
      destruct Hzero as [Hzv Hzp].
      subst vid pid. rewrite Hzv in Hv0. rewrite Hzp in Hp0.
      unfold resolve_id in Hv0, Hp0.
      destruct (Z.geb_spec ww_config_vid 0); [|contradiction].
      destruct (Z.geb_spec ww_config_pid 0); [|contradiction].
      split.
      * destruct (Z.eq_dec ww_config_vid 0) as [->|]; [contradiction|lia].
      * destruct (Z.eq_dec ww_config_pid 0) as [->|]; [contradiction|lia].
Qed.

(** C9.  In a call of [ezusb_load_eeprom] for a known variant, on an
    image in scope, with the vendor and product id resolved as the
    override when it is non-negative (stored into 16 bits) and the
    default of the variant otherwise (0x04B4/0x6473 for fx2,
    0x04B4/0x8613 for fx2lp, 0 for fx and an21).  Only if: an identity
    record is written only if both ids are nonzero, it is then the
    second write, at offset 1, of the 6 bytes vendor id and product id
    little-endian, 0x05, 0xa0.  If: a call that passes the checks made
    before the first write (without a path there is none; with a path,
    the answer to the size request is accepted and the file opens) makes
    the marker write as its first write, and when that has not failed
    and both ids are nonzero the identity record is the write that
    follows; a call that does not pass writes nothing.  So for fx and
    an21 the record is written only if both overrides are positive. *)
Theorem identity_record_written
    ioctl fopen indeterminate dev path type config large_eeprom
    ww_config_vid ww_config_pid w v :
  select_variant path type config large_eeprom = Some v ->
  (forall p text, path = Some p -> fopen p = Some text ->
                  image_in_scope text) ->
  let r := ezusb_load_eeprom ioctl fopen indeterminate dev path type config
             large_eeprom ww_config_vid ww_config_pid w in
  let vid := resolve_id (ww_vid v) ww_config_vid in
  let pid := resolve_id (ww_pid v) ww_config_pid in
  let r0 := ioctl (trace w)
              (read_request dev GET_EEPROM_SIZE 0 [indeterminate] 1) in
  let passed :=
    match path with
    | Some p => size_accepted indeterminate r0
                && match fopen p with Some _ => true | None => false end
    | None => true
    end in
  (forall default override,
     resolve_id default override
     = if override >=? 0 then u16 override else default) /\
  (forall default override,
     0 <= override <= USHRT_MAX -> resolve_id default override = override) /\
  (ww_vid v = (if String.eqb type "fx2" || String.eqb type "fx2lp"
               then 0x04B4 else 0)) /\
  (ww_pid v = (if String.eqb type "fx2" then 0x6473
               else if String.eqb type "fx2lp" then 0x8613 else 0)) /\
  exists evs,
    trace (snd r) = trace w ++ evs /\
    (forall e, In e evs -> labelled identity_label e = true ->
       vid <> 0 /\ pid <> 0 /\
       wValue (ev_request e) = 1 /\ wLength (ev_request e) = 6 /\
       rq_data (ev_request e)
       = [vid mod 256; vid / 256; pid mod 256; pid / 256; 0x05; 0xa0] /\
       exists e0 rest, filter is_write evs = e0 :: e :: rest) /\
    (forall e0 rest,
       filter is_write evs = e0 :: rest -> failed e0 = false ->
       vid <> 0 -> pid <> 0 ->
       exists e1 rest', rest = e1 :: rest' /\ labelled identity_label e1 = true) /\
    (passed = true ->
     exists r1 rest,
       filter is_write evs = marker_event dev v r1 :: rest /\
       (reply_failed r1 = false -> vid <> 0 -> pid <> 0 ->
        exists r2 rest',
          rest = identity_event dev v ww_config_vid ww_config_pid r2
                 :: rest')) /\
    (passed = false -> filter is_write evs = [] /\ fst r < 0) /\
    (type = "fx"%string \/ type = "an21"%string ->
     forall e, In e evs -> labelled identity_label e = true ->
     0 < ww_config_vid /\ 0 < ww_config_pid).
Proof.
  intros Hv _. cbv zeta.
  destruct (identity_record_trace ioctl fopen indeterminate dev path type
              config large_eeprom ww_config_vid ww_config_pid w v Hv)
    as (H1 & H2 & H3 & H4 & evs & Htr & Honly & Hif & Hfx).
  split; [exact H1|]. split; [exact H2|]. split; [exact H3|].
  split; [exact H4|].
  exists evs. split; [exact Htr|]. split; [exact Honly|].
  split; [exact Hif|]. split; [|split; [|exact Hfx]].
  - intros Hpassed.
    assert (Hgate : match path with
                    | Some p =>
                        size_accepted indeterminate
                          (ioctl (trace w)
                             (read_request dev GET_EEPROM_SIZE 0
                                [indeterminate] 1)) = true /\
                        fopen p <> None
                    | None => True
                    end).
    { destruct path as [p|]; [|exact I].
      apply andb_prop in Hpassed. destruct Hpassed as [Hsize Hopen].
      split; [exact Hsize|]. destruct (fopen p); discriminate. }
    destruct (load_eeprom_passes ioctl fopen indeterminate dev type config
                large_eeprom ww_config_vid ww_config_pid path w v Hv Hgate)
      as (reads & image & evs' & Hreads & Htr' & Hrun).
    rewrite Htr in Htr'. apply app_inv_head in Htr'.
    pose proof (run_writes _ _ _ Hrun) as Hwrites.
    assert (Hfilter : filter is_write evs = evs').
    { rewrite Htr', filter_app, (filter_none _ _ Hreads),
        (filter_all _ _ Hwrites). reflexivity. }
    apply run_first in Hrun.
    destruct Hrun as (st1 & evs1 & evs2 & Hout & -> & Hnext).
    destruct Hout as (r1 & -> & ->).
    exists r1, evs2. split; [exact Hfilter|].
    intros Hok Hv0 Hp0.
    destruct Hnext as [(Hneg & _)|(_ & Hrest)].
    { apply status_neg_failed in Hneg. congruence. }
    apply run_first in Hrest.
    destruct Hrest as (st2 & evs3 & evs4 & Hout2 & -> & _).
    destruct (Z.eqb_spec (resolve_id (ww_vid v) ww_config_vid) 0) as [|_];
      [contradiction|].
    destruct (Z.eqb_spec (resolve_id (ww_pid v) ww_config_pid) 0) as [|_];
      [contradiction|].
    cbn [negb andb] in Hout2. destruct Hout2 as (r2 & -> & _).
    exists r2, evs4. reflexivity.
  - intros Hpassed.
    pose proof (load_eeprom_gate_closed ioctl fopen indeterminate dev type
                  config large_eeprom ww_config_vid ww_config_pid path w
                  Hpassed) as (reads & Hreads & Htr' & Hneg).
    rewrite Htr in Htr'. apply app_inv_head in Htr'. subst evs.
    split; [apply filter_none; exact Hreads|exact Hneg].
Qed.

(** ** Retrying writes to RAM *)

Section RamRetry.

Variable ioctl : list event -> request -> reply.
Variables (dev : Z) (ext : bool) (addr : Z) (bytes : list Z) (len : Z).

Hypothesis len_fits : len <= USHRT_MAX.

Lemma ram_write_step budget w :
  ram_write ioctl budget dev ext addr bytes len w =
  let r := ioctl (trace w) (ram_request dev ext addr bytes len) in
  let w' := {| trace := trace w ++ [ram_attempt dev ext addr bytes len r];
               errno := errno_after r (errno w) |} in
  if reply_failed r then
    match budget with
    | O => (status_of r, w')
    | S budget' =>
        if negb (errno w' =? ETIMEDOUT) then (status_of r, w')
        else ram_write ioctl budget' dev ext addr bytes len w'
    end
  else (status_of r, w').
Proof.
  destruct budget; cbn [ram_write];
    rewrite ezusb_write_run by exact len_fits; cbv beta iota zeta;
    rewrite status_of_negative; destruct ext; reflexivity.
Qed.

(** The loop: the attempts made, the status of the last one, and
    [errno] when it failed. *)
Lemma ram_write_attempts budget : forall w,
  exists retried final,
    trace (snd (ram_write ioctl budget dev ext addr bytes len w))
      = trace w ++ retried ++ [final] /\
    (List.length retried <= budget)%nat /\
    Forall (fun e => e = ram_attempt dev ext addr bytes len (ev_reply e) /\ timed_out e)
           retried /\
    final = ram_attempt dev ext addr bytes len (ev_reply final) /\
    fst (ram_write ioctl budget dev ext addr bytes len w)
      = status_of (ev_reply final) /\
    (forall code, ev_reply final = Failed code ->
       errno (snd (ram_write ioctl budget dev ext addr bytes len w))
         = Z.pos code) /\
    (failed final = true ->
     ~ timed_out final \/ List.length retried = budget).
Proof.
  induction budget as [|budget IH]; intros w; rewrite ram_write_step; cbv zeta.
  - set (r := ioctl (trace w) (ram_request dev ext addr bytes len)).
    exists [], (ram_attempt dev ext addr bytes len r).
    destruct (reply_failed r) eqn:Hr; cbn [fst snd trace errno app];
      repeat split; auto; try (intros code Hc; cbn in Hc; rewrite Hc;
                               reflexivity).
  - set (r := ioctl (trace w) (ram_request dev ext addr bytes len)).
    set (w' := {| trace := trace w ++ [ram_attempt dev ext addr bytes len r];
                  errno := errno_after r (errno w) |}).
    destruct (reply_failed r) eqn:Hr.
    + destruct (Z.eqb_spec (errno w') ETIMEDOUT) as [Hto|Hnto]; cbn [negb].
      * destruct (IH w') as (retried & final & Htr & Hlen & Hret & Hfin & Hst & Herr & Hlast).
        exists (ram_attempt dev ext addr bytes len r :: retried), final.
        split; [rewrite Htr; subst w'; cbn [trace];
                rewrite <- app_assoc; reflexivity|].
        split; [cbn; lia|].
        split.
        { constructor; [|exact Hret]. split; [reflexivity|].
          destruct r as [n buf|code]; [discriminate|].
          exists code. split; [reflexivity|exact Hto]. }
        split; [exact Hfin|]. split; [exact Hst|]. split; [exact Herr|].
        intros Hf. destruct (Hlast Hf) as [Hn|Hn]; [left; exact Hn|].
        right. cbn. lia.
      * exists [], (ram_attempt dev ext addr bytes len r).
        cbn [fst snd trace errno app List.length].
        repeat split; auto; try lia.
        -- intros code Hc. cbn in Hc. subst w'. cbn [errno]. rewrite Hc.
           reflexivity.
        -- intros _. left. intros (code & Hc & Hcode). cbn in Hc.
           apply Hnto. subst w'. cbn [errno]. rewrite Hc. exact Hcode.
    + exists [], (ram_attempt dev ext addr bytes len r).
      cbn [fst snd trace errno app List.length].
      repeat split; auto; try lia.
      * intros code Hc. cbn in Hc. rewrite Hc in Hr. discriminate.
      * intros Hf. unfold failed in Hf. cbn in Hf. congruence.
Qed.

End RamRetry.

Lemma retried_only_or_last evs : retried_only evs -> retried_or_last evs.
Proof.
  induction 1; [constructor|apply rl_fine; assumption|
                apply rl_retry; assumption].
Qed.

Lemma retried_only_app evs1 evs2 :
  retried_only evs1 -> retried_only evs2 -> retried_only (evs1 ++ evs2).
Proof.
  induction 1 as [|e evs He _ IH|e e' evs Hto Hre _ IH]; intros H2; cbn.
  - exact H2.
  - apply ro_fine; auto.
  - apply ro_retry; auto.
Qed.

Lemma retried_or_last_app evs1 evs2 :
  retried_only evs1 -> retried_or_last evs2 -> retried_or_last (evs1 ++ evs2).
Proof.
  induction 1 as [|e evs He _ IH|e e' evs Hto Hre _ IH]; intros H2; cbn.
  - exact H2.
  - apply rl_fine; auto.
  - apply rl_retry; auto.
Qed.

Lemma retried_only_spec evs pre e post :
  retried_only evs -> evs = pre ++ e :: post ->
  is_write e = true -> failed e = true ->
  timed_out e /\ exists e' post', post = e' :: post' /\ retry_of e e'.
Proof.
  intros H. revert pre.
  induction H as [|x evs Hx _ IH|x x' evs Hto Hre _ IH]; intros pre Heq Hw Hf.
  - destruct pre; discriminate.
  - destruct pre as [|p pre]; cbn in Heq; injection Heq as <- Heq.
    + destruct Hx; congruence.
    + eapply IH; eauto.
  - destruct pre as [|p pre]; cbn in Heq; injection Heq as <- Heq.
    + split; [exact Hto|]. subst post. eauto.
    + eapply IH; eauto.
Qed.

Lemma retried_or_last_spec evs pre e post :
  retried_or_last evs -> evs = pre ++ e :: post ->
  is_write e = true -> failed e = true ->
  post = [] \/
  (timed_out e /\ exists e' post', post = e' :: post' /\ retry_of e e').
Proof.
  intros H. revert pre.
  induction H as [|x|x evs Hx _ IH|x x' evs Hto Hre _ IH]; intros pre Heq Hw Hf.
  - destruct pre; discriminate.
  - destruct pre as [|p pre]; [|destruct pre; discriminate].
    injection Heq as <- <-. auto.
  - destruct pre as [|p pre]; cbn in Heq; injection Heq as <- Heq.
    + destruct Hx; congruence.
    + eapply IH; eauto.
  - destruct pre as [|p pre]; cbn in Heq; injection Heq as <- Heq.
    + right. split; [exact Hto|]. subst post. eauto.
    + eapply IH; eauto.
Qed.

(** A group of attempts: the retried ones are followed by their retry. *)
Lemma attempts_retried rq label retried final :
  Forall (fun e => e = write_event label rq (ev_reply e) /\ timed_out e)
         retried ->
  final = write_event label rq (ev_reply final) ->
  (failed final = false -> retried_only (retried ++ [final])) /\
  retried_or_last (retried ++ [final]).
Proof.
  intros Hret Hfin.
  assert (Hretry : forall e, e = write_event label rq (ev_reply e) ->
                   forall e', e' = write_event label rq (ev_reply e') ->
                   retry_of e e').
  { intros e -> e' ->. repeat split. }
  induction Hret as [|e retried [He Hto] Hret IH]; cbn.
  - split; [intros Hok; apply ro_fine; [auto|constructor]|apply rl_last].
  - destruct IH as [IHok IHany]. destruct retried as [|e2 retried]; cbn in *.
    + split; [intros Hok; apply ro_retry; auto|apply rl_retry; auto].
    + inversion Hret as [|? ? [He2 _] _]; subst.
      split; [intros Hok; apply ro_retry; auto|apply rl_retry; auto].
Qed.

(** ** [ezusb_load_ram] and failed writes *)

Lemma emits_bind {A B} (m : io A) (k : A -> io B) P Q :
  emits m P ->
  (forall a evs1, P a evs1 -> emits (k a) (fun b evs2 => Q b (evs1 ++ evs2))) ->
  emits (bind m k) Q.
Proof.
  intros Hm Hk w. unfold bind.
  destruct (Hm w) as (evs1 & Htr1 & HP).
  destruct (m w) as [a w1]. cbn [fst snd] in *.
  destruct (Hk a evs1 HP w1) as (evs2 & Htr2 & HQ).
  exists (evs1 ++ evs2). split; [|exact HQ].
  rewrite Htr2, Htr1, app_assoc. reflexivity.
Qed.

Lemma emits_ret {A} (a : A) (P : A -> list event -> Prop) :
  P a [] -> emits (ret a) P.
Proof. intros H w. exists []. cbn. rewrite app_nil_r. auto. Qed.

Lemma checked_ret status k w :
  checked (ret status) k w = if status <? 0 then (status, w) else k w.
Proof. reflexivity. Qed.

Lemma ram_discipline_checked m k :
  emits m ram_discipline -> emits k ram_discipline ->
  emits (checked m k) ram_discipline.
Proof.
  intros Hm Hk w. unfold checked.
  destruct (Hm w) as (evs1 & Htr1 & H1).
  destruct (m w) as [st1 w1]. cbn [fst snd] in *.
  destruct H1 as [[-> Hro]|[Hneg Hrl]].
  - change (0 <? 0) with false. cbv iota.
    destruct (Hk w1) as (evs2 & Htr2 & H2).
    exists (evs1 ++ evs2). split; [rewrite Htr2, Htr1, app_assoc; reflexivity|].
    destruct H2 as [[Hz H2]|[Hn H2]]; [left|right]; split; auto.
    + apply retried_only_app; assumption.
    + apply retried_or_last_app; assumption.
  - apply Z.ltb_lt in Hneg as Hb. rewrite Hb.
    exists evs1. split; [exact Htr1|]. right. auto.
Qed.

Lemma ram_call_discipline_app r evs1 evs2 :
  retried_only evs1 -> ram_call_discipline r evs2 ->
  ram_call_discipline r (evs1 ++ evs2).
Proof.
  intros Hro H2. destruct r as [status|]; cbn [ram_call_discipline] in *.
  - destruct H2 as [[Hz H2]|[Hn H2]]; [left|right]; split; auto.
    + apply retried_only_app; assumption.
    + apply retried_or_last_app; assumption.
  - apply retried_only_app; assumption.
Qed.

Lemma ram_discipline_checked_call m k :
  emits m ram_discipline -> emits k ram_call_discipline ->
  emits (checked_call m k) ram_call_discipline.
Proof.
  intros Hm Hk w. unfold checked_call.
  destruct (Hm w) as (evs1 & Htr1 & H1).
  destruct (m w) as [st1 w1]. cbn [fst snd] in *.
  destruct H1 as [[-> Hro]|[Hneg Hrl]].
  - change (0 <? 0) with false. cbv iota.
    destruct (Hk w1) as (evs2 & Htr2 & H2).
    exists (evs1 ++ evs2). split; [rewrite Htr2, Htr1, app_assoc; reflexivity|].
    destruct (fst (k w1)) as [status|]; cbn [ram_call_discipline] in *.
    + destruct H2 as [[Hz H2]|[Hn H2]]; [left|right]; split; auto.
      * apply retried_only_app; assumption.
      * apply retried_or_last_app; assumption.
    + apply retried_only_app; assumption.
  - apply Z.ltb_lt in Hneg as Hb. rewrite Hb.
    exists evs1. split; [exact Htr1|]. right. auto.
Qed.

Section LoadRam.

Variable ioctl : list event -> request -> reply.

Lemma ram_poke_rule t0 addr ext bytes s :
  ram_steady t0 s -> is_ushort addr ->
  1 <= Z.of_nat (List.length bytes) <= 1023 ->
  if fst (ram_poke ioctl addr ext bytes (Z.of_nat (List.length bytes)) s) <? 0
  then ram_stopped t0
         (snd (ram_poke ioctl addr ext bytes (Z.of_nat (List.length bytes)) s))
  else ram_steady t0
         (snd (ram_poke ioctl addr ext bytes (Z.of_nat (List.length bytes)) s)).
Proof.
  intros (evs & Htr & Hro) _ Hlen. destruct s as [ctx w]. cbn [snd] in Htr.
  set (len := Z.of_nat (List.length bytes)) in *.
  assert (Hstay : ram_steady t0 (ctx, w)) by (exists evs; auto).
  assert (Hstop : ram_stopped t0 (ctx, w))
    by (exists evs; split; [exact Htr|apply retried_only_or_last; exact Hro]).
  assert (Hwrite :
    let r := ram_write ioctl RETRY_LIMIT (ram_device ctx) ext addr bytes len w in
    let ctx' := {| ram_device := ram_device ctx; mode := mode ctx;
                   total := u32 (total ctx + len);
                   count := u32 (count ctx + 1) |} in
    if (if fst r <? 0 then - errno (snd r) else 0) <? 0
    then ram_stopped t0 (ctx', snd r) else ram_steady t0 (ctx', snd r)).
  { cbv zeta.
    destruct (ram_write_attempts ioctl (ram_device ctx) ext addr bytes len
                ltac:(unfold USHRT_MAX; lia) RETRY_LIMIT w)
      as (retried & final & Htr' & _ & Hret & Hfin & Hst & Herr & _).
    destruct (attempts_retried _ _ _ _ Hret Hfin) as [Hok Hany].
    rewrite Hst. rewrite status_of_negative.
    destruct (ev_reply final) as [n buf|code] eqn:Hrep; cbn [reply_failed].
    - change (0 <? 0) with false. cbv iota.
      exists (evs ++ retried ++ [final]). cbn [snd].
      split; [rewrite Htr', Htr, <- app_assoc; reflexivity|].
      apply retried_only_app; [exact Hro|]. apply Hok.
      unfold failed. rewrite Hrep. reflexivity.
    - rewrite (Herr code eq_refl).
      assert (Hneg : (- Z.pos code <? 0) = true) by (apply Z.ltb_lt; lia).
      rewrite Hneg.
      exists (evs ++ retried ++ [final]). cbn [snd].
      split; [rewrite Htr', Htr, <- app_assoc; reflexivity|].
      apply retried_or_last_app; assumption. }
  cbv zeta in Hwrite. unfold ram_poke.
  destruct (ram_write ioctl RETRY_LIMIT (ram_device ctx) ext addr bytes len w)
    as [rc w'] eqn:Hrw.
  cbn [fst snd] in Hwrite.
  destruct (mode ctx), ext; cbn [negb fst snd];
    try exact Hstop; try exact Hstay; try exact Hwrite.
Qed.

Lemma ram_scan_discipline image cls ctx :
  emits (ram_scan ioctl image cls ctx)
        (fun r evs => ram_discipline (fst r) evs).
Proof.
  intros w. unfold ram_scan.
  pose proof (parse_ihex_rule (Some cls) (ram_poke ioctl)
                (ram_steady (trace w)) (ram_stopped (trace w))
                (ram_poke_rule (trace w)) image (ctx, w)) as H.
  cbv zeta in H.
  destruct (parse_ihex (Some cls) (ram_poke ioctl) image (ctx, w))
    as [status [ctx' w']].
  cbn [fst snd] in *.
  assert (Hinit : ram_steady (trace w) (ctx, w)).
  { exists []. cbn. rewrite app_nil_r. split; [reflexivity|constructor]. }
  destruct (H Hinit) as [[-> (evs & Htr & Hro)]|[[-> (evs & Htr & Hrl)]|
                         [Hst (evs & Htr & Hro)]]];
    exists evs; (split; [exact Htr|]).
  - left. auto.
  - right. split; [lia|exact Hrl].
  - right. split; [lia|apply retried_only_or_last; exact Hro].
Qed.

Lemma ezusb_cpucs_run fd addr doRun w :
  ezusb_cpucs ioctl fd addr doRun w =
  let rq := cpucs_request fd addr doRun in
  let r := ioctl (trace w) rq in
  (status_of r =? 1,
   {| trace := trace w ++ [mkEvent via_cpucs rq r];
      errno := errno_after r (errno w) |}).
Proof.
  unfold ezusb_cpucs, bind, ctrl_msg, ret, cpucs_request. cbn.
  destruct (ioctl _ _); reflexivity.
Qed.

Lemma cpucs_or_fail_discipline fd addr doRun :
  emits (cpucs_or_fail ioctl fd addr doRun) ram_discipline.
Proof.
  intros w. unfold cpucs_or_fail, bind, ret.
  rewrite ezusb_cpucs_run. cbv zeta.
  set (r := ioctl (trace w) _).
  set (ev := mkEvent via_cpucs _ r).
  assert (Hev : retried_only [ev]).
  { apply ro_fine; [left; reflexivity|constructor]. }
  exists [ev]. cbn [fst snd trace]. split; [reflexivity|].
  destruct (status_of r =? 1); cbn [negb]; [left|right]; split; auto; try lia.
  apply retried_only_or_last. exact Hev.
Qed.

Lemma ram_rescan_discipline fd addr image cls stage ctx :
  emits (ram_rescan ioctl fd addr image cls stage ctx)
        (fun r evs => ram_discipline (fst r) evs).
Proof.
  unfold ram_rescan. destruct (stage =? 0); cbn [negb].
  { apply emits_ret. left. split; [reflexivity|constructor]. }
  eapply emits_bind; [apply cpucs_or_fail_discipline|].
  intros halted evs1 H1.
  destruct H1 as [[-> Hro]|[Hneg Hrl]].
  - change (0 <? 0) with false. cbv iota. intros w.
    destruct (ram_scan_discipline image cls (with_mode skip_external ctx) w)
      as (evs2 & Htr2 & H2).
    exists evs2. split; [exact Htr2|].
    destruct H2 as [[Hz H2]|[Hn H2]]; [left|right]; split; auto.
    + apply retried_only_app; assumption.
    + apply retried_or_last_app; assumption.
  - apply Z.ltb_lt in Hneg as Hb. rewrite Hb.
    apply emits_ret. rewrite app_nil_r. right. cbn [fst]. split; assumption.
Qed.

Variable fopen : string -> option (list ascii).
Variable verbose : Z.

Lemma ram_release_discipline fd addr ctx :
  emits (ram_release ioctl verbose fd addr ctx) ram_call_discipline.
Proof.
  unfold ram_release.
  destruct (negb (verbose =? 0) && (count ctx =? 0)).
  { apply emits_ret. constructor. }
  apply ram_discipline_checked_call; [apply cpucs_or_fail_discipline|].
  apply emits_ret. left. split; [reflexivity|constructor].
Qed.

(** [ezusb_load_ram] stops at a write that failed without being
    retried. *)
Lemma load_ram_discipline fd path fx2 stage :
  emits (ezusb_load_ram ioctl fopen verbose fd path fx2 stage)
        ram_call_discipline.
Proof.
  unfold ezusb_load_ram.
  destruct (fopen path) as [image|].
  2:{ apply emits_ret. right. split; [lia|constructor]. }
  set (choice := if fx2 =? 2 then _ else _).
  destruct choice as [cpucs_addr cls].
  assert (Hskip : emits (ret 0) ram_discipline).
  { apply emits_ret. left. split; [reflexivity|constructor]. }
  assert (Hstatus : forall status evs1 k,
            ram_discipline status evs1 ->
            emits k ram_call_discipline ->
            emits (checked_call (ret status) k)
                  (fun r evs2 => ram_call_discipline r (evs1 ++ evs2))).
  { intros status evs1 k H1 Hk w. unfold checked_call, ret.
    destruct H1 as [[-> Hro]|[Hneg Hrl]].
    - change (0 <? 0) with false. cbv iota.
      destruct (Hk w) as (evs2 & Htr2 & H2).
      exists evs2. split; [exact Htr2|].
      apply ram_call_discipline_app; assumption.
    - apply Z.ltb_lt in Hneg as Hb. rewrite Hb.
      exists []. cbn [fst snd]. rewrite !app_nil_r.
      split; [reflexivity|]. right. split; [lia|exact Hrl]. }
  apply ram_discipline_checked_call.
  { destruct (stage =? 0); [apply cpucs_or_fail_discipline|exact Hskip]. }
  eapply emits_bind; [apply ram_scan_discipline|].
  intros [status ctx] evs1 H1. cbn [fst] in H1.
  apply Hstatus; [exact H1|].
  eapply emits_bind; [apply ram_rescan_discipline|].
  intros [status2 ctx2] evs2 H2. cbn [fst] in H2.
  apply Hstatus; [exact H2|].
  apply ram_release_discipline.
Qed.

End LoadRam.

(** C6.  For every segment [ram_poke] writes: the write is attempted once
    and re-attempted at most 5 times, each re-attempt following an attempt
    that failed with ETIMEDOUT; an attempt that succeeds is the last one
    and [ram_poke] returns 0; an attempt that fails otherwise, or the
    sixth that fails, is the last one and [ram_poke] returns the negated
    error number.  And in every call of [ezusb_load_ram], on an image in
    scope, a write that failed without being retried is the last request
    of the whole operation, which then returns a negative status; a call
    that returns, returns 0 or a negative status.  (With [verbose] set a
    call can be killed in the statistics line and return nothing; every
    failed write of such a call was retried.) *)
Theorem ram_poke_retry_policy ioctl :
  (forall ctx w addr ext bytes len,
     0 <= len <= USHRT_MAX -> ram_writes (mode ctx) ext = true ->
     let r := ram_poke ioctl addr ext bytes len (ctx, w) in
     let attempt := ram_attempt (ram_device ctx) ext addr bytes len in
     exists retried final,
       trace (snd (snd r)) = trace w ++ retried ++ [final] /\
       (List.length retried <= 5)%nat /\
       Forall (fun e => e = attempt (ev_reply e) /\ timed_out e) retried /\
       final = attempt (ev_reply final) /\
       (failed final = false -> fst r = 0) /\
       (forall code, ev_reply final = Failed code ->
          fst r = - Z.pos code /\ fst r < 0 /\
          (Z.pos code <> ETIMEDOUT \/ List.length retried = 5%nat))) /\
  (forall fopen verbose fd path fx2 stage w,
     (forall image, fopen path = Some image -> image_in_scope image) ->
     let r := ezusb_load_ram ioctl fopen verbose fd path fx2 stage w in
     exists evs,
       trace (snd r) = trace w ++ evs /\
       (forall status, fst r = Some status -> status = 0 \/ status < 0) /\
       forall pre e post,
         evs = pre ++ e :: post -> is_write e = true -> failed e = true ->
         (post = [] /\ exists status, fst r = Some status /\ status < 0) \/
         (timed_out e /\ exists e' post', post = e' :: post' /\ retry_of e e')).
Proof.
  split.
  - intros ctx w addr ext bytes len Hlen Hmode. cbv zeta.
    destruct (ram_write_attempts ioctl (ram_device ctx) ext addr bytes len
                ltac:(lia) RETRY_LIMIT w)
      as (retried & final & Htr & Hlen' & Hret & Hfin & Hst & Herr & Hlast).
    assert (Hrun : ram_poke ioctl addr ext bytes len (ctx, w) =
              let r := ram_write ioctl RETRY_LIMIT (ram_device ctx) ext addr
                         bytes len w in
              ((if fst r <? 0 then - errno (snd r) else 0),
               ({| ram_device := ram_device ctx; mode := mode ctx;
                   total := u32 (total ctx + len);
                   count := u32 (count ctx + 1) |}, snd r))).
    { unfold ram_poke. cbv zeta.
      destruct (ram_write ioctl RETRY_LIMIT (ram_device ctx) ext addr bytes len w)
        as [rc w'].
      destruct (mode ctx), ext; cbn in Hmode; try discriminate; reflexivity. }
    rewrite Hrun. cbv zeta. cbn [fst snd].
    exists retried, final. split; [exact Htr|]. split; [exact Hlen'|].
    split; [exact Hret|]. split; [exact Hfin|].
    rewrite Hst, status_of_negative. split.
    + unfold failed. intros ->. reflexivity.
    + intros code Hcode. rewrite Hcode. cbn [reply_failed].
      rewrite (Herr code Hcode). split; [reflexivity|]. split; [lia|].
      assert (Hf : failed final = true) by (unfold failed; rewrite Hcode; reflexivity).
      destruct (Hlast Hf) as [Hnot|Hfull]; [left|right; exact Hfull].
      intros Hto. apply Hnot. exists code. auto.
  - intros fopen verbose fd path fx2 stage w _. cbv zeta.
    destruct (load_ram_discipline ioctl fopen verbose fd path fx2 stage w)
      as (evs & Htr & Hd).
    exists evs. split; [exact Htr|].
    destruct (fst (ezusb_load_ram ioctl fopen verbose fd path fx2 stage w))
      as [status|]; cbn [ram_call_discipline] in Hd.
    + destruct Hd as [[Hz Hro]|[Hneg Hrl]].
      * split; [intros st [= <-]; left; exact Hz|]. intros pre e post Heq Hw Hf.
        right. eapply retried_only_spec; eauto.
      * split; [intros st [= <-]; right; exact Hneg|].
        intros pre e post Heq Hw Hf.
        destruct (retried_or_last_spec _ _ _ _ Hrl Heq Hw Hf) as [->|Hretry];
          [left; eauto|right; exact Hretry].
    + split; [discriminate|]. intros pre e post Heq Hw Hf.
      right. eapply retried_only_spec; eauto.
Qed.

(** ** The parser: end of input *)

(** The input ends after a data record, no end-of-file record having
    been seen: the record is delivered and the status is 0, not a
    failure. *)
Lemma end_of_input_is_not_an_error :
  fgets_lines unterminated_image = [unterminated_image] /\
  is_data_line unterminated_image = true /\
  parse_ihex None collect unterminated_image [] = (0, [(0, false, [0x55])]) /\
  ~ fst (parse_ihex None collect unterminated_image []) < 0.
Proof. vm_compute. repeat split; discriminate. Qed.

Section EndOfInput.

Context {St : Type}.
Variable cls : option (Z -> Z -> bool).
Variable poke : Z -> bool -> list Z -> Z -> St -> Z * St.

Hypothesis poke_succeeds :
  forall addr ext bytes len s, 0 <= fst (poke addr ext bytes len s).

Lemma flush_succeeds ps s :
  (let '(rc, _, _) := flush cls poke ps s in rc <? 0) = false.
Proof.
  unfold flush.
  set (ext := match cls with Some f => _ | None => _ end).
  pose proof (poke_succeeds (data_addr ps) ext (data ps) (data_len ps) s) as H.
  destruct (poke (data_addr ps) ext (data ps) (data_len ps) s) as [rc s'].
  cbn in *. apply Z.ltb_ge. exact H.
Qed.

Lemma parse_line_continues buf ps s :
  is_comment_line buf = true \/ is_data_line buf = true ->
  exists ps' s', parse_line cls poke buf ps s = Continue ps' s'.
Proof.
  intros Hline. unfold parse_line.
  destruct buf as [|c rest]; [destruct Hline; discriminate|].
  destruct (Ascii.eqb_spec c "#"%char) as [->|Hc1]; [eauto|].
  destruct (Ascii.eqb_spec c ":"%char) as [->|Hc2].
  2:{ exfalso. destruct Hline as [H|H];
        destruct c as [[] [] [] [] [] [] [] []]; cbn in H;
        try discriminate; congruence. }
  destruct Hline as [H|H]; [discriminate|].
  unfold is_data_line in H. cbv zeta in H.
  apply andb_true_iff in H. destruct H as [H _].
  apply andb_true_iff in H. destruct H as [Htype Hlong].
  cbv zeta. rewrite Htype.
  apply Z.eqb_eq in Htype as Htype'. rewrite Htype'.
  change (0 =? 1) with false. cbv iota. cbn [negb].
  apply Z.leb_le in Hlong.
  destruct (Z.gtb_spec (hex_field (c_string (":"%char :: rest)) 1 2 * 2 + 11)
              (strlen (c_string (":"%char :: rest)))); [lia|].
  match goal with
  | |- context [if ?c then match flush _ _ ?p _ with _ => _ end else _] =>
      destruct c; [|eauto];
      pose proof (flush_succeeds p s) as Hf;
      destruct (flush cls poke p s) as [[rc ps'] s']
  end.
  rewrite Hf. eauto.
Qed.

Lemma parse_loop_breaks lines : forall ps s,
  (forall buf, In buf lines ->
     is_comment_line buf = true \/ is_data_line buf = true) ->
  exists ps' s', parse_loop cls poke lines ps s = Break ps' s'.
Proof.
  induction lines as [|buf rest IH]; intros ps s Hlines; cbn [parse_loop].
  - eauto.
  - destruct (parse_line_continues buf ps s (Hlines buf (or_introl eq_refl)))
      as (ps' & s' & ->).
    apply IH. intros b Hb. apply Hlines. right. exact Hb.
Qed.

End EndOfInput.

(** C2.  When the input ends before an end-of-file record has been
    seen, [parse_ihex] does not return a failure on that account: for
    every text in scope made of comment lines and accepted data records
    only, so that no end-of-file record is seen, and a sink that does not
    fail, it returns 0, the status of success.  (The loop is left with
    [break] after the message, where the other malformed inputs return
    -2, -3 or -4.) *)
Theorem parse_ihex_end_of_input {St : Type} cls
    (poke : Z -> bool -> list Z -> Z -> St -> Z * St) image s :
  image_in_scope image ->
  (forall buf, In buf (fgets_lines image) ->
     is_comment_line buf = true \/ is_data_line buf = true) ->
  (forall addr ext bytes len s', 0 <= fst (poke addr ext bytes len s')) ->
  fst (parse_ihex cls poke image s) = 0 /\
  ~ fst (parse_ihex cls poke image s) < 0.
Proof.
  intros _ Hlines Hpoke.
  assert (Hzero : fst (parse_ihex cls poke image s) = 0).
  { unfold parse_ihex.
    destruct (parse_loop_breaks cls poke Hpoke (fgets_lines image) parse_init s
                Hlines) as (ps & s' & ->).
    unfold parse_finish.
    destruct (negb (data_len ps =? 0)); [|reflexivity].
    pose proof (flush_succeeds cls poke Hpoke ps s') as Hf.
    destruct (flush cls poke ps s') as [[rc ps'] s''].
    rewrite Hf. reflexivity. }
  split; [exact Hzero|]. rewrite Hzero. lia.
Qed.

Lemma parse_ihex_end_of_input_witness :
  image_in_scope unterminated_image /\
  Forall (fun buf => is_data_line buf = true)
         (fgets_lines unterminated_image) /\
  fst (parse_ihex None collect unterminated_image []) = 0.
Proof.
  assert (S : image_in_scope unterminated_image)
    by (apply in_scope_by_check; vm_compute; reflexivity).
  assert (L : Forall (fun buf => is_data_line buf = true)
                     (fgets_lines unterminated_image))
    by (vm_compute; repeat constructor).
  split; [exact S|]. split; [exact L|].
  apply (parse_ihex_end_of_input None collect unterminated_image [] S).
  - intros buf Hin. right. rewrite Forall_forall in L. apply L. exact Hin.
  - intros addr ext bytes len s'. cbn. lia.
Defined.

(** ** The parser: accumulating records *)

Section Accumulation.

Context {St : Type}.
Variable cls : option (Z -> Z -> bool).
Variable poke : Z -> bool -> list Z -> Z -> St -> Z * St.

Variables (buf : list ascii) (ps : parse_state) (s : St).

Hypothesis buf_is_data : is_data_line buf = true.

(** What the loop does with a data record it accepts. *)
Lemma data_line_step :
  parse_line cls poke buf ps s =
  let ps1 :=
    if first_line ps
    then {| data := data ps; data_addr := u16 (record_off buf);
            first_line := false; external := external ps |}
    else ps in
  if negb (data_len ps1 =? 0)
     && (negb (record_off buf =? data_addr ps1 + data_len ps1)
         || (data_len ps1 + record_len buf >? sizeof_data))
  then
    match flush cls poke ps1 s with
    | (rc, ps', s') =>
        if rc <? 0 then Return (-1) s'
        else
          Continue
            (append {| data := []; data_addr := u16 (record_off buf);
                       first_line := first_line ps';
                       external := external ps' |}
                    (c_string buf) (record_len buf)) s'
    end
  else Continue (append ps1 (c_string buf) (record_len buf)) s.
Proof.
  pose proof buf_is_data as Hdata.
  unfold parse_line, record_len, record_off. unfold is_data_line in Hdata.
  destruct buf as [|c rest]; [discriminate|].
  destruct (Ascii.eqb_spec c "#"%char) as [->|Hc1]; [discriminate|].
  destruct (Ascii.eqb_spec c ":"%char) as [->|Hc2].
  2:{ exfalso. destruct c as [[] [] [] [] [] [] [] []];
        try discriminate; congruence. }
  cbv zeta in Hdata.
  apply andb_true_iff in Hdata. destruct Hdata as [H _].
  apply andb_true_iff in H. destruct H as [Htype Hlong].
  cbv zeta. rewrite Htype.
  apply Z.eqb_eq in Htype. rewrite Htype.
  change (0 =? 1) with false. cbv iota. cbn [negb].
  apply Z.leb_le in Hlong.
  match goal with
  | |- context [?a >? ?b] =>
      destruct (Z.gtb_spec a b); [lia|]
  end.
  reflexivity.
Qed.

Hypothesis not_first : first_line ps = false.

(** Contiguous with the buffer and fitting into it: appended, the sink
    is not called. *)
Lemma data_record_appended :
  data_len ps <> 0 ->
  record_off buf = data_addr ps + data_len ps ->
  data_len ps + record_len buf <= sizeof_data ->
  parse_line cls poke buf ps s =
  Continue (append ps (c_string buf) (record_len buf)) s.
Proof.
  intros Hne Hoff Hfit. rewrite data_line_step, not_first. cbv zeta.
  destruct (Z.eqb_spec (record_off buf) (data_addr ps + data_len ps));
    [|contradiction].
  destruct (Z.gtb_spec (data_len ps + record_len buf) sizeof_data); [lia|].
  rewrite andb_false_r. reflexivity.
Qed.

(** Otherwise, the buffer holding something: the classifier is applied
    to the start and length of the buffer, the sink is called once with
    that segment, and a new buffer starts at the offset of the record. *)
Lemma data_record_flushes :
  data_len ps <> 0 ->
  record_off buf <> data_addr ps + data_len ps \/
  sizeof_data < data_len ps + record_len buf ->
  parse_line cls poke buf ps s =
  let ext := match cls with
             | Some f => f (data_addr ps) (data_len ps)
             | None => external ps
             end in
  let (rc, s') := poke (data_addr ps) ext (data ps) (data_len ps) s in
  if rc <? 0 then Return (-1) s'
  else Continue {| data := record_bytes (c_string buf) (record_len buf);
                   data_addr := u16 (record_off buf);
                   first_line := false; external := ext |} s'.
Proof.
  intros Hne Hcase. rewrite data_line_step, not_first. cbv zeta.
  destruct (Z.eqb_spec (data_len ps) 0); [contradiction|]. cbn [negb andb].
  assert (Hflush : negb (record_off buf =? data_addr ps + data_len ps)
                   || (data_len ps + record_len buf >? sizeof_data) = true).
  { apply orb_true_iff. destruct Hcase as [H|H].
    - left. apply negb_true_iff. apply Z.eqb_neq. exact H.
    - right. apply Z.gtb_lt. exact H. }
  rewrite Hflush. unfold flush. cbv zeta.
  destruct (poke _ _ _ _ s) as [rc s'].
  destruct (rc <? 0); [reflexivity|].
  unfold append. cbn. rewrite not_first. reflexivity.
Qed.

(** The buffer being empty, and the record not the first: the bytes are
    stored and the start of the buffer stays what it was, whatever the
    offset of the record. *)
Lemma data_record_on_empty_buffer :
  data_len ps = 0 ->
  parse_line cls poke buf ps s =
  Continue {| data := data ps ++ record_bytes (c_string buf) (record_len buf);
              data_addr := data_addr ps;
              first_line := false; external := external ps |} s.
Proof.
  intros Hz. rewrite data_line_step, not_first. cbv zeta.
  rewrite Hz. cbn [Z.eqb negb andb].
  unfold append. rewrite not_first. reflexivity.
Qed.

End Accumulation.

(** Two contiguous records of 16 bytes make one segment of 32 bytes. *)
Lemma two_contiguous_records_merge :
  parse_ihex None collect two_record_image [] =
  (0, [(0, false, map Z.of_nat (seq 0 32))]).
Proof. vm_compute. reflexivity. Qed.

(** C3.  A record without data leaves the buffer empty, and the record
    after it is then stored under the start address the buffer had: the
    two bytes meant for 0x0200 are delivered as a segment at 0x0100. *)
Theorem empty_buffer_keeps_its_start :
  parse_ihex None collect empty_record_image [] =
  (0, [(0x0100, false, [0xAA; 0xBB])]).
Proof. vm_compute. reflexivity. Qed.

(** ** The theorems at a sample call *)

Lemma eeprom_poke_framing_witness :
  is_ushort 0x1000 /\ 0 <= 2 /\
  fst (snd (eeprom_poke obliging_device 0x1000 false [1; 2] 2
              (sample_context, fresh_world)))
  = {| ee_device := 3; ee_addr := 14; last := false;
       eeprom_request := RW_EEPROM_LARGE |}.
Proof.
  assert (H1 : is_ushort 0x1000) by (unfold is_ushort, USHRT_MAX; lia).
  assert (H2 : 0 <= 2) by lia.
  split; [exact H1|]. split; [exact H2|].
  destruct (eeprom_poke_framing obliging_device sample_context fresh_world
              0x1000 false [1; 2] 2 H1 H2) as [_ H].
  destruct (H eq_refl ltac:(lia)) as (_ & _ & _ & _ & Hrun).
  vm_compute in Hrun. destruct Hrun as (_ & _ & Hctx). exact Hctx.
Defined.

Lemma eeprom_cursor_invariant_witness :
  select_variant (Some "fw.ihx"%string) "fx2" 0 true = Some fx2_setup /\
  StronglySorted Z.lt (header_addresses (trace (snd sample_load))).
Proof.
  assert (Hv : select_variant (Some "fw.ihx"%string) "fx2" 0 true
               = Some fx2_setup) by reflexivity.
  assert (S : forall (p : string) text,
                Some "fw.ihx"%string = Some p ->
                Some one_record_image = Some text -> image_in_scope text).
  { intros p text _ [= <-]. apply in_scope_by_check. vm_compute.
    reflexivity. }
  split; [exact Hv|].
  destruct (eeprom_cursor_invariant obliging_device
              (fun _ => Some one_record_image) 0 3 (Some "fw.ihx"%string)
              "fx2" 0 true (-1) (-1) fresh_world fx2_setup Hv S)
    as (evs & Htr & _ & _ & Hsorted).
  fold sample_load in Htr. cbn [fresh_world trace app] in Htr.
  rewrite Htr. apply Hsorted. rewrite <- Htr. vm_compute. discriminate.
Defined.

Lemma identity_record_written_witness :
  select_variant (Some "fw.ihx"%string) "fx2" 0 true = Some fx2_setup /\
  exists r1 r2 rest,
    filter is_write (trace (snd sample_load))
    = marker_event 3 fx2_setup r1
      :: identity_event 3 fx2_setup (-1) (-1) r2 :: rest.
Proof.
  assert (Hv : select_variant (Some "fw.ihx"%string) "fx2" 0 true
               = Some fx2_setup) by reflexivity.
  assert (S : forall (p : string) text,
                Some "fw.ihx"%string = Some p ->
                Some one_record_image = Some text -> image_in_scope text).
  { intros p text _ [= <-]. apply in_scope_by_check. vm_compute.
    reflexivity. }
  split; [exact Hv|].
  destruct (identity_record_written obliging_device
              (fun _ => Some one_record_image) 0 3 (Some "fw.ihx"%string)
              "fx2" 0 true (-1) (-1) fresh_world fx2_setup Hv S)
    as (_ & _ & _ & _ & evs & Htr & _ & _ & Hif & _).
  fold sample_load in Htr. cbn [fresh_world trace app] in Htr.
  rewrite <- Htr in Hif.
  destruct (Hif eq_refl) as (r1 & rest & Hw & Hnext).
  assert (Hr1 : r1 = Transferred 1 [1]).
  { vm_compute in Hw. injection Hw as Hr1 _. symmetry. exact Hr1. }
  destruct Hnext as (r2 & rest' & ->).
  - rewrite Hr1. reflexivity.
  - vm_compute. discriminate.
  - vm_compute. discriminate.
  - exists r1, r2, rest'. exact Hw.
Defined.

Lemma ezusb_load_eeprom_boot_safety_sample :
  exists pre e,
    trace (snd sample_load) = pre ++ [e] /\
    labelled type_label e = true /\ failed e = false.
Proof.
  assert (S : forall (p : string) text,
                Some "fw.ihx"%string = Some p ->
                Some one_record_image = Some text -> image_in_scope text).
  { intros p text _ [= <-]. apply in_scope_by_check. vm_compute.
    reflexivity. }
  destruct (ezusb_load_eeprom_boot_safety obliging_device
              (fun _ => Some one_record_image) 0 3 (Some "fw.ihx"%string)
              "fx2" 0 true (-1) (-1) fresh_world S)
    as (evs & Htr & _ & _ & _ & Hlast & _).
  fold sample_load in Htr, Hlast. cbn [fresh_world trace app] in Htr.
  destruct (Hlast ltac:(vm_compute; reflexivity)) as (pre & e & Heq & Hl & Hok).
  exists pre, e. rewrite Htr. auto.
Defined.

Lemma ram_poke_retry_policy_witness :
  0 <= 2 <= USHRT_MAX /\ ram_writes internal_only false = true /\
  fst (ram_poke obliging_device 0x100 false [1; 2] 2
         (sample_ram_context, fresh_world)) = 0 /\
  (forall image, sample_fopen "fw.ihx" = Some image -> image_in_scope image) /\
  exists status, fst sample_ram_load = Some status /\ (status = 0 \/ status < 0).
Proof.
  assert (H1 : 0 <= 2 <= USHRT_MAX) by (unfold USHRT_MAX; lia).
  assert (H2 : ram_writes (mode sample_ram_context) false = true) by reflexivity.
  assert (S : forall image, sample_fopen "fw.ihx" = Some image ->
                            image_in_scope image).
  { intros image [= <-]. apply in_scope_by_check. vm_compute. reflexivity. }
  assert (E : fst sample_ram_load = Some 0) by (vm_compute; reflexivity).
  split; [exact H1|]. split; [exact H2|]. split; [|split; [exact S|]].
  - destruct (proj1 (ram_poke_retry_policy obliging_device) sample_ram_context
                fresh_world 0x100 false [1; 2] 2 H1 H2)
      as (retried & final & Htr & _ & _ & _ & Hok & _).
    apply Hok. vm_compute in Htr.
    destruct retried as [|x retried].
    + injection Htr as <-. reflexivity.
    + injection Htr as _ Htr. destruct retried; discriminate.
  - destruct (proj2 (ram_poke_retry_policy obliging_device) sample_fopen 1 3
                "fw.ihx"%string 1 0 fresh_world S)
      as (evs & _ & Hst & _).
    fold sample_ram_load in Hst. exists 0. split; [exact E|].
    apply Hst. exact E.
Defined.

Lemma ezusb_erase_eeprom_trace_witness :
  fst (ezusb_erase_eeprom obliging_device 3 true fresh_world) = 0.
Proof.
  destruct (ezusb_erase_eeprom_trace obliging_device 3 true fresh_world)
    as (evs & Htr & _ & _ & _ & [(Hs & _)|(good & bad & Heq & _ & Hbad & _)]);
    [exact Hs|].
  exfalso.
  assert (Hall : forallb (fun e => negb (failed e))
                   (trace (snd (ezusb_erase_eeprom obliging_device 3 true
                                  fresh_world))) = true)
    by (vm_compute; reflexivity).
  rewrite Htr in Hall. cbn [fresh_world trace app] in Hall.
  rewrite Heq, forallb_app in Hall. cbn [forallb] in Hall.
  rewrite Hbad in Hall. cbn in Hall.
  rewrite andb_false_r in Hall. discriminate.
Defined.

(** * Further properties *)

(** ** The classifier of the FX and AN21 parts *)

(** X1.  For an [unsigned short] address and a [size_t] length whose sum
    is representable, [fx_is_external] answers false exactly when the
    range starts at or below 0x1b3f and does not extend past 0x1b40, and
    true in every other case. *)
Theorem fx_classification addr len :
  is_ushort addr -> is_size_t len -> addr + len <= SIZE_MAX ->
  (fx_is_external addr len = false <-> fx_internal addr len) /\
  (fx_is_external addr len = true <-> ~ fx_internal addr len).
Proof.
  intros Ha Hl Hs.
  assert (H : fx_is_external addr len = false <-> fx_internal addr len).
  { unfold is_ushort, is_size_t, USHRT_MAX, fx_internal, within_window in *.
    unfold fx_is_external. rewrite size_t_wrap_small by lia.
    destruct (Z.leb_spec addr 0x1b3f).
    - destruct (Z.gtb_spec (addr + len) 0x1b40); split; intros;
        try discriminate; lia.
    - split; intros; try discriminate; lia. }
  split; [exact H|]. apply bool_true_iff_not_false. exact H.
Qed.

(** X2.  The three classifiers are nested: what is on-chip for the FX is
    on-chip for the FX2, and what is on-chip for the FX2 is on-chip for
    the FX2LP, whatever the address and the length. *)
Theorem classifiers_nested addr len :
  (fx_is_external addr len = false -> fx2_is_external addr len = false) /\
  (fx2_is_external addr len = false -> fx2lp_is_external addr len = false).
Proof.
  unfold fx_is_external, fx2_is_external, fx2lp_is_external.
  set (sum := size_t_wrap (addr + len)).
  split.
  - destruct (Z.leb_spec addr 0x1b3f); [|discriminate].
    destruct (Z.gtb_spec sum 0x1b40); [discriminate|]. intros _.
    destruct (Z.leb_spec addr 0x1fff); [|lia].
    destruct (Z.gtb_spec sum 0x2000); [lia|reflexivity].
  - destruct (Z.leb_spec addr 0x1fff).
    + destruct (Z.gtb_spec sum 0x2000); [discriminate|]. intros _.
      destruct (Z.leb_spec addr 0x3fff); [|lia].
      destruct (Z.gtb_spec sum 0x4000); [lia|reflexivity].
    + destruct (Z.leb_spec addr 0x3fff).
      * destruct (Z.geb_spec addr 0xe000); [lia|]. cbn. discriminate.
      * intros Hsame. exact Hsame.
Qed.

(** ** The parser: segments and sinks *)

Section Feeding.

Context {St : Type}.
Variable cls : option (Z -> Z -> bool).
Variable poke : Z -> bool -> list Z -> Z -> St -> Z * St.

Lemma feed_status segs : forall s,
  fst (feed poke segs s) = 0 \/ fst (feed poke segs s) = -1.
Proof.
  induction segs as [|[[addr ext] bytes] rest IH]; intros s; cbn [feed].
  - left. reflexivity.
  - destruct (poke addr ext bytes _ s) as [rc s'].
    destruct (rc <? 0); [right; reflexivity|apply IH].
Qed.

Lemma feed_app segs2 : forall segs1 s,
  feed poke (segs1 ++ segs2) s =
  let (rc, s') := feed poke segs1 s in
  if rc <? 0 then (-1, s') else feed poke segs2 s'.
Proof.
  induction segs1 as [|[[addr ext] bytes] rest IH]; intros s;
    cbn [feed app].
  - reflexivity.
  - destruct (poke addr ext bytes _ s) as [rc s'].
    destruct (rc <? 0); [reflexivity|apply IH].
Qed.

Lemma fed_nil s k : fed poke [] s k = k s.
Proof. reflexivity. Qed.

Lemma fed_app new1 new2 s k :
  fed poke (new1 ++ new2) s k
  = fed poke new1 s (fun s' => fed poke new2 s' k).
Proof.
  unfold fed. rewrite feed_app.
  destruct (feed poke new1 s) as [rc s'].
  destruct (rc <? 0); reflexivity.
Qed.

Lemma flush_collect ps acc :
  flush cls collect ps acc =
  let ext := match cls with
             | Some f => f (data_addr ps) (data_len ps)
             | None => external ps
             end in
  (0, {| data := data ps; data_addr := data_addr ps;
         first_line := first_line ps; external := ext |},
   acc ++ [(data_addr ps, ext, data ps)]).
Proof. reflexivity. Qed.

Lemma flush_fed ps s (k : parse_state -> St -> @flow St) :
  (let '(rc, ps', s') := flush cls poke ps s in
   if rc <? 0 then Return (-1) s' else k ps' s') =
  let '(_, ps', acc) := flush cls collect ps [] in
  fed poke acc s (k ps').
Proof.
  rewrite flush_collect. cbv zeta. unfold flush, fed. cbn [app feed].
  fold (data_len ps).
  destruct (poke (data_addr ps) _ (data ps) (data_len ps) s) as [rc s'].
  destruct (rc <? 0); reflexivity.
Qed.

(** One turn of the loop. *)
Lemma parse_line_fed buf ps s acc :
  exists new,
    match parse_line cls collect buf ps acc with
    | Continue ps' acc' =>
        acc' = acc ++ new /\
        parse_line cls poke buf ps s = fed poke new s (Continue ps')
    | Break ps' acc' =>
        acc' = acc ++ new /\
        parse_line cls poke buf ps s = fed poke new s (Break ps')
    | Return rc acc' =>
        acc' = acc ++ new /\
        parse_line cls poke buf ps s = fed poke new s (Return rc)
    end.
Proof.
  unfold parse_line.
  destruct buf as [|c rest].
  { exists []. rewrite app_nil_r. auto. }
  destruct (Ascii.eqb_spec c "#"%char) as [->|Hc1].
  { exists []. rewrite app_nil_r. auto. }
  destruct (Ascii.eqb_spec c ":"%char) as [->|Hc2].
  2:{ exists []. rewrite app_nil_r.
      destruct c as [[] [] [] [] [] [] [] []]; auto; congruence. }
  cbv zeta.
  set (line := c_string _).
  set (len := hex_field line 1 2).
  set (off := hex_field line 3 4).
  set (ps1 := if first_line ps then _ else ps).
  destruct (hex_field line 7 2 =? 1).
  { exists []. rewrite app_nil_r. auto. }
  destruct (negb (hex_field line 7 2 =? 0)).
  { exists []. rewrite app_nil_r. auto. }
  destruct (len * 2 + 11 >? strlen line).
  { exists []. rewrite app_nil_r. auto. }
  destruct (negb (data_len ps1 =? 0)
            && (negb (off =? data_addr ps1 + data_len ps1)
                || (data_len ps1 + len >? sizeof_data))).
  2:{ exists []. rewrite app_nil_r. auto. }
  pose proof (flush_fed ps1 s
                (fun ps' s' =>
                   Continue
                     (append {| data := []; data_addr := u16 off;
                                first_line := first_line ps';
                                external := external ps' |} line len) s'))
    as Hf.
  rewrite flush_collect in *. cbv zeta in *.
  change (0 <? 0) with false. cbv iota.
  eexists. split; [reflexivity|].
  destruct (flush cls poke ps1 s) as [[rc ps'] s']. exact Hf.
Qed.

Lemma parse_loop_fed lines : forall ps s acc,
  exists new,
    match parse_loop cls collect lines ps acc with
    | Continue ps' acc' =>
        acc' = acc ++ new /\
        parse_loop cls poke lines ps s = fed poke new s (Continue ps')
    | Break ps' acc' =>
        acc' = acc ++ new /\
        parse_loop cls poke lines ps s = fed poke new s (Break ps')
    | Return rc acc' =>
        acc' = acc ++ new /\
        parse_loop cls poke lines ps s = fed poke new s (Return rc)
    end.
Proof.
  induction lines as [|buf rest IH]; intros ps s acc; cbn [parse_loop].
  - exists []. rewrite app_nil_r. auto.
  - destruct (parse_line_fed buf ps s acc) as (new1 & H1).
    destruct (parse_line cls collect buf ps acc) as [ps1 acc1|ps1 acc1|rc acc1];
      destruct H1 as [-> H1]; rewrite H1.
    + destruct (IH ps1 (snd (feed poke new1 s)) (acc ++ new1)) as (new2 & H2).
      exists (new1 ++ new2).
      destruct (parse_loop cls collect rest ps1 (acc ++ new1))
        as [ps2 acc2|ps2 acc2|rc2 acc2];
        destruct H2 as [-> H2]; (split; [symmetry; apply app_assoc|]);
        rewrite fed_app; unfold fed at 1; unfold fed at 1;
        destruct (feed poke new1 s) as [rc1 s1]; cbn [snd] in H2;
        destruct (rc1 <? 0); auto.
    + exists new1. split; [reflexivity|].
      unfold fed. destruct (feed poke new1 s) as [rc1 s1].
      destruct (rc1 <? 0); reflexivity.
    + exists new1. split; [reflexivity|].
      unfold fed. destruct (feed poke new1 s) as [rc1 s1].
      destruct (rc1 <? 0); reflexivity.
Qed.

Lemma parse_finish_fed ps s :
  parse_finish cls poke ps s =
  let (_, acc) := parse_finish cls collect ps [] in
  let (rc, s') := feed poke acc s in
  if rc <? 0 then (-1, s') else (0, s').
Proof.
  unfold parse_finish.
  destruct (negb (data_len ps =? 0)); [|reflexivity].
  rewrite flush_collect. cbv beta iota zeta.
  change (0 <? 0) with false. cbv beta iota.
  unfold flush. cbn [app feed]. fold (data_len ps).
  destruct (poke (data_addr ps) _ (data ps) (data_len ps) s) as [rc s'].
  destruct (rc <? 0); reflexivity.
Qed.

Lemma parse_finish_collect ps acc :
  parse_finish cls collect ps acc =
  (0, acc ++ snd (parse_finish cls collect ps [])).
Proof.
  unfold parse_finish.
  destruct (negb (data_len ps =? 0)); [|rewrite app_nil_r; reflexivity].
  rewrite !flush_collect. reflexivity.
Qed.

End Feeding.

(** [parse_ihex] with a sink, from the scan of the image. *)
Lemma parse_ihex_feed {St : Type} cls
    (poke : Z -> bool -> list Z -> Z -> St -> Z * St) image s :
  parse_ihex cls poke image s =
  let (rc, s') := feed poke (segments cls image) s in
  if rc <? 0 then (-1, s') else (scan_status cls image, s').
Proof.
  unfold segments, scan_status, scan, parse_ihex.
  destruct (parse_loop_fed cls poke (fgets_lines image) parse_init s [])
    as (new & H).
  destruct (parse_loop cls collect (fgets_lines image) parse_init [])
    as [ps acc|ps acc|rc0 acc]; destruct H as [-> ->]; cbn [app].
  - rewrite parse_finish_collect. cbn [fst snd]. rewrite feed_app.
    unfold fed. destruct (feed poke new s) as [rc s1].
    destruct (rc <? 0); [reflexivity|].
    rewrite parse_finish_fed.
    destruct (parse_finish cls collect ps []) as [rc2 acc2]. cbn [snd].
    destruct (feed poke acc2 s1) as [rc3 s3].
    destruct (rc3 <? 0); reflexivity.
  - rewrite parse_finish_collect. cbn [fst snd]. rewrite feed_app.
    unfold fed. destruct (feed poke new s) as [rc s1].
    destruct (rc <? 0); [reflexivity|].
    rewrite parse_finish_fed.
    destruct (parse_finish cls collect ps []) as [rc2 acc2]. cbn [snd].
    destruct (feed poke acc2 s1) as [rc3 s3].
    destruct (rc3 <? 0); reflexivity.
  - cbn [fst snd]. unfold fed. destruct (feed poke new s) as [rc s1].
    destruct (rc <? 0); reflexivity.
Qed.

(** X3.  For an image in scope, [parse_ihex] with a sink does what the
    scan of the image says: it calls the sink on the segments of the image
    in their order, each with the length of its bytes; at the first call
    that returns a negative status it stops and returns -1; when no call
    fails it returns the status of the scan. *)
Theorem parse_ihex_feeds_segments {St : Type} cls
    (poke : Z -> bool -> list Z -> Z -> St -> Z * St) image s :
  image_in_scope image ->
  parse_ihex cls poke image s =
  let (rc, s') := feed poke (segments cls image) s in
  if rc <? 0 then (-1, s') else (scan_status cls image, s').
Proof. intros _. apply parse_ihex_feed. Qed.

(** ** The parser: the lines that count *)

Section SignificantLines.

Context {St : Type}.
Variable cls : option (Z -> Z -> bool).
Variable poke : Z -> bool -> list Z -> Z -> St -> Z * St.

Lemma parse_ihex_finish image s :
  parse_ihex cls poke image s =
  finish cls poke (parse_loop cls poke (fgets_lines image) parse_init s).
Proof. reflexivity. Qed.

Lemma parse_line_comment buf ps s :
  is_comment_line buf = true -> parse_line cls poke buf ps s = Continue ps s.
Proof.
  destruct buf as [|c rest]; [discriminate|].
  destruct (Ascii.eqb_spec c "#"%char) as [->|Hc]; [reflexivity|].
  destruct c as [[] [] [] [] [] [] [] []]; try discriminate; congruence.
Qed.

Lemma eof_line_colon buf :
  is_eof_line buf = true ->
  exists rest, buf = ":"%char :: rest /\
               hex_field (c_string buf) 7 2 = 1.
Proof.
  destruct buf as [|c rest]; [discriminate|].
  destruct (Ascii.eqb_spec c ":"%char) as [->|Hc].
  - cbn [is_eof_line]. intros H. apply Z.eqb_eq in H. eauto.
  - destruct c as [[] [] [] [] [] [] [] []]; try discriminate; congruence.
Qed.

Lemma parse_line_eof buf ps s :
  is_eof_line buf = true ->
  exists ps',
    parse_line cls poke buf ps s = Break ps' s /\
    data ps' = data ps /\ external ps' = external ps /\
    (first_line ps = false -> ps' = ps).
Proof.
  intros H. destruct (eof_line_colon buf H) as (rest & -> & Htype).
  unfold parse_line. cbv zeta. rewrite Htype. change (1 =? 1) with true.
  cbv iota. eexists. split; [reflexivity|].
  destruct (first_line ps); cbn; auto. repeat split. discriminate.
Qed.

Lemma parse_line_started buf ps s ps' s' :
  parse_line cls poke buf ps s = Continue ps' s' ->
  fresh_or_started ps -> fresh_or_started ps'.
Proof.
  unfold parse_line, fresh_or_started.
  destruct buf as [|c rest]; [discriminate|].
  destruct (Ascii.eqb_spec c "#"%char) as [->|Hc1].
  { intros [= <- <-]. auto. }
  destruct (Ascii.eqb_spec c ":"%char) as [->|Hc2].
  2:{ destruct c as [[] [] [] [] [] [] [] []]; try discriminate; congruence. }
  cbv zeta.
  set (line := c_string _).
  set (ps1 := if first_line ps then _ else ps).
  assert (H1 : first_line ps1 = false).
  { subst ps1. destruct (first_line ps) eqn:Hf; [reflexivity|exact Hf]. }
  destruct (hex_field line 7 2 =? 1); [discriminate|].
  destruct (negb (hex_field line 7 2 =? 0)); [discriminate|].
  destruct (_ >? strlen line); [discriminate|].
  destruct (negb (data_len ps1 =? 0) && _).
  - unfold flush.
    destruct (poke _ _ _ _ s) as [rc s1].
    destruct (rc <? 0); [discriminate|].
    intros [= <- <-] _. cbn. rewrite H1. discriminate.
  - intros [= <- <-] _. cbn. rewrite H1. discriminate.
Qed.

Lemma parse_finish_same ps ps' s :
  data ps' = data ps -> external ps' = external ps ->
  (data ps <> [] -> data_addr ps' = data_addr ps) ->
  parse_finish cls poke ps' s = parse_finish cls poke ps s.
Proof.
  intros Hd He Ha. unfold parse_finish, flush, data_len.
  rewrite Hd, He.
  destruct (data ps) as [|b rest] eqn:Hdata; [reflexivity|].
  rewrite Ha by discriminate.
  destruct (negb _); [|reflexivity].
  destruct (poke _ _ _ _ s) as [rc s1]. reflexivity.
Qed.

Lemma significant_loop lines : forall ps s,
  fresh_or_started ps ->
  finish cls poke (parse_loop cls poke lines ps s) =
  finish cls poke (parse_loop cls poke (significant lines) ps s).
Proof.
  induction lines as [|buf rest IH]; intros ps s Hps; [reflexivity|].
  unfold significant. cbn [body_of parse_loop].
  destruct (is_eof_line buf) eqn:Heof.
  - destruct (parse_line_eof buf ps s Heof) as (ps' & -> & Hd & He & Hsame).
    cbn [filter parse_loop finish].
    apply parse_finish_same; auto.
    intros Hne. rewrite Hsame; [reflexivity|].
    destruct (first_line ps) eqn:Hf; [|reflexivity].
    exfalso. apply Hne. apply Hps. exact Hf.
  - cbn [filter]. destruct (is_comment_line buf) eqn:Hc; cbn [negb].
    + rewrite parse_line_comment by exact Hc. apply IH. exact Hps.
    + cbn [parse_loop].
      destruct (parse_line cls poke buf ps s) as [ps' s'|ps' s'|rc s']
        eqn:Hline; [|reflexivity|reflexivity].
      apply IH. eapply parse_line_started; eassumption.
Qed.

End SignificantLines.

(** X4.  The result of [parse_ihex] depends on the lines of the image
    that come before the first end-of-file record and are not comments,
    and on nothing else: two images in scope that agree on these lines
    give the same status and the same calls of the sink.  What follows an
    end-of-file record is never looked at, and it makes no difference
    whether the end-of-file record is there. *)
Theorem parse_ihex_significant_lines {St : Type} cls
    (poke : Z -> bool -> list Z -> Z -> St -> Z * St) image1 image2 s :
  image_in_scope image1 -> image_in_scope image2 ->
  significant (fgets_lines image1) = significant (fgets_lines image2) ->
  parse_ihex cls poke image1 s = parse_ihex cls poke image2 s.
Proof.
  intros _ _ H. rewrite !parse_ihex_finish.
  rewrite (significant_loop cls poke (fgets_lines image1))
    by (intros _; reflexivity).
  rewrite (significant_loop cls poke (fgets_lines image2))
    by (intros _; reflexivity).
  rewrite H. reflexivity.
Qed.

(** ** The parser: the status of a scan *)

Lemma first_negative_cons z l :
  first_negative (z :: l) = if z <? 0 then z else first_negative l.
Proof. unfold first_negative. cbn. destruct (z <? 0); reflexivity. Qed.

Lemma line_verdict_range buf :
  line_verdict buf = 0 \/ line_verdict buf = -2 \/
  line_verdict buf = -3 \/ line_verdict buf = -4.
Proof.
  unfold line_verdict.
  destruct buf as [|c rest]; [auto|].
  destruct (Ascii.eqb_spec c "#"%char) as [->|Hc1]; [auto|].
  destruct (Ascii.eqb_spec c ":"%char) as [->|Hc2].
  2:{ destruct c as [[] [] [] [] [] [] [] []]; auto; congruence. }
  cbv zeta.
  destruct (_ =? 1); [auto|].
  destruct (negb _); [auto|].
  destruct (_ >? _); auto.
Qed.

Lemma first_negative_range l :
  Forall (fun z => z = 0 \/ z = -2 \/ z = -3 \/ z = -4) l ->
  first_negative l = 0 \/ first_negative l = -2 \/
  first_negative l = -3 \/ first_negative l = -4.
Proof.
  induction 1 as [|z l Hz _ IH]; [left; reflexivity|].
  rewrite first_negative_cons.
  destruct (z <? 0); [exact Hz|exact IH].
Qed.

Section ScanStatus.

Variable cls : option (Z -> Z -> bool).

(** One turn of the loop with a sink that accepts everything. *)
Lemma parse_line_verdict buf ps acc :
  match parse_line cls collect buf ps acc with
  | Continue _ _ => line_verdict buf = 0 /\ is_eof_line buf = false
  | Break _ _ => is_eof_line buf = true
  | Return rc _ =>
      rc = line_verdict buf /\ rc < 0 /\ is_eof_line buf = false
  end.
Proof.
  unfold parse_line, line_verdict, is_eof_line.
  destruct buf as [|c rest]; [repeat split; lia|].
  destruct (Ascii.eqb_spec c "#"%char) as [->|Hc1]; [split; reflexivity|].
  destruct (Ascii.eqb_spec c ":"%char) as [->|Hc2].
  2:{ destruct c as [[] [] [] [] [] [] [] []];
        try (repeat split; lia); congruence. }
  cbv zeta.
  destruct (_ =? 1); [reflexivity|].
  destruct (negb (_ =? 0)); [repeat split; lia|].
  destruct (_ >? strlen _); [repeat split; lia|].
  destruct (negb _ && _); [|split; reflexivity].
  rewrite flush_collect. cbv beta iota zeta.
  change (0 <? 0) with false. cbv iota. split; reflexivity.
Qed.

Lemma parse_loop_verdict lines : forall ps acc,
  fst (finish cls collect (parse_loop cls collect lines ps acc)) =
  first_negative (map line_verdict (body_of lines)).
Proof.
  induction lines as [|buf rest IH]; intros ps acc;
    cbn [parse_loop body_of map].
  - cbn [finish]. rewrite parse_finish_collect. reflexivity.
  - pose proof (parse_line_verdict buf ps acc) as H.
    destruct (parse_line cls collect buf ps acc) as [ps' acc'|ps' acc'|rc acc'].
    + destruct H as [Hv ->]. cbn [map].
      rewrite first_negative_cons, Hv. change (0 <? 0) with false.
      cbv iota. apply IH.
    + rewrite H. cbn [finish map]. rewrite parse_finish_collect.
      reflexivity.
    + destruct H as (-> & Hneg & ->). cbn [map finish fst].
      rewrite first_negative_cons.
      apply Z.ltb_lt in Hneg. rewrite Hneg. reflexivity.
Qed.

End ScanStatus.

Lemma scan_status_verdict cls image :
  scan_status cls image
  = first_negative (map line_verdict (body_of (fgets_lines image))).
Proof.
  unfold scan_status, scan. rewrite parse_ihex_finish.
  apply parse_loop_verdict.
Qed.

Lemma scan_status_range cls image :
  scan_status cls image = 0 \/ scan_status cls image = -2 \/
  scan_status cls image = -3 \/ scan_status cls image = -4.
Proof.
  rewrite scan_status_verdict. apply first_negative_range.
  apply Forall_map. apply Forall_forall. intros buf _.
  apply line_verdict_range.
Qed.

(** X5.  For an image in scope, the status of a scan is the status with
    which the first rejected line is rejected, among the lines before the
    first end-of-file record: -2 for a line that begins with neither ':'
    nor '#', -3 for a record type other than 0 and 1, -4 for a record
    shorter than its length field says; it is 0 when no line is rejected.
    The classifier has no part in it. *)
Theorem scan_status_first_rejected cls image :
  image_in_scope image ->
  scan_status cls image
  = first_negative (map line_verdict (body_of (fgets_lines image))) /\
  (scan_status cls image = 0 \/ scan_status cls image = -2 \/
   scan_status cls image = -3 \/ scan_status cls image = -4).
Proof.
  intros _. split; [apply scan_status_verdict|apply scan_status_range].
Qed.

(** ** The parser: the shape of a segment *)

Lemma record_bytes_range line len :
  Forall (fun b => 0 <= b < 256) (record_bytes line len).
Proof.
  unfold record_bytes. apply Forall_map. apply Forall_forall.
  intros idx _. apply u8_range.
Qed.

Section SegmentShape.

Variable cls : option (Z -> Z -> bool).

Lemma flush_shape ps acc :
  buffer_shape cls ps -> data_len ps <> 0 ->
  Forall (segment_shape cls) acc ->
  Forall (segment_shape cls)
         (acc ++ [(data_addr ps,
                   match cls with
                   | Some f => f (data_addr ps) (data_len ps)
                   | None => external ps
                   end, data ps)]).
Proof.
  intros ([Ha Hl] & Hb & He) Hne Hacc.
  apply Forall_app. split; [exact Hacc|]. constructor; [|constructor].
  unfold segment_shape. fold (data_len ps).
  split; [exact Ha|]. split.
  { unfold data_len, sizeof_data in *. lia. }
  split; [exact Hb|].
  destruct cls; [reflexivity|]. apply He. reflexivity.
Qed.

Lemma parse_line_shape buf ps acc :
  buffer_shape cls ps -> Forall (segment_shape cls) acc ->
  match parse_line cls collect buf ps acc with
  | Continue ps' acc' | Break ps' acc' =>
      buffer_shape cls ps' /\ Forall (segment_shape cls) acc'
  | Return _ acc' => Forall (segment_shape cls) acc'
  end.
Proof.
  intros Hps Hacc. unfold parse_line.
  destruct buf as [|c rest]; [exact Hacc|].
  destruct (Ascii.eqb_spec c "#"%char) as [->|Hc1]; [split; assumption|].
  destruct (Ascii.eqb_spec c ":"%char) as [->|Hc2].
  2:{ destruct c as [[] [] [] [] [] [] [] []]; try exact Hacc; congruence. }
  cbv zeta.
  set (line := c_string _).
  set (len := hex_field line 1 2).
  set (off := hex_field line 3 4).
  set (ps1 := if first_line ps then _ else ps).
  assert (Hps1 : buffer_shape cls ps1).
  { subst ps1. destruct (first_line ps); [|assumption].
    destruct Hps as ([_ Hl] & Hb & He).
    split; [split; [apply u16_range|exact Hl]|]. split; assumption. }
  assert (Hlen : 0 <= len < 256) by apply (hex_field_range line 1 2).
  destruct (_ =? 1); [split; assumption|].
  destruct (negb (_ =? 0)); [exact Hacc|].
  destruct (_ >? strlen line); [exact Hacc|].
  destruct (Z.eqb_spec (data_len ps1) 0) as [Hz|Hnz]; cbn [negb andb].
  - split; [|exact Hacc]. destruct Hps1 as ([Ha Hl] & Hb & He).
    split; [split; [exact Ha|]|].
    + rewrite data_len_append by lia. unfold sizeof_data. lia.
    + split; [|exact He]. cbn. apply Forall_app.
      split; [exact Hb|apply record_bytes_range].
  - destruct (negb (off =? data_addr ps1 + data_len ps1)
              || (data_len ps1 + len >? sizeof_data)) eqn:Hflush.
    + rewrite flush_collect. cbv beta iota zeta.
      change (0 <? 0) with false. cbv iota.
      split; [|apply flush_shape; assumption].
      split; [split; [apply u16_range|]|].
      * rewrite data_len_append by lia. change (0 + len <= 1023). lia.
      * split; [cbn; apply record_bytes_range|].
        cbn. intros ->. destruct Hps1 as (_ & _ & He). apply He.
        reflexivity.
    + apply orb_false_iff in Hflush. destruct Hflush as [_ Hfit].
      destruct (Z.gtb_spec (data_len ps1 + len) sizeof_data);
        [discriminate|].
      split; [|exact Hacc]. destruct Hps1 as ([Ha Hl] & Hb & He).
      split; [split; [exact Ha|]|].
      * rewrite data_len_append by lia. lia.
      * split; [|exact He]. cbn. apply Forall_app.
        split; [exact Hb|apply record_bytes_range].
Qed.

Lemma parse_loop_shape lines : forall ps acc,
  buffer_shape cls ps -> Forall (segment_shape cls) acc ->
  Forall (segment_shape cls)
         (snd (finish cls collect (parse_loop cls collect lines ps acc))).
Proof.
  assert (Hfinish : forall ps acc,
            buffer_shape cls ps -> Forall (segment_shape cls) acc ->
            Forall (segment_shape cls)
                   (snd (parse_finish cls collect ps acc))).
  { intros ps acc Hps Hacc. unfold parse_finish.
    destruct (Z.eqb_spec (data_len ps) 0) as [Hz|Hnz]; cbn [negb];
      [exact Hacc|].
    rewrite flush_collect. cbv beta iota zeta.
    change (0 <? 0) with false. cbv iota. cbn [snd].
    apply flush_shape; assumption. }
  induction lines as [|buf rest IH]; intros ps acc Hps Hacc;
    cbn [parse_loop].
  - apply Hfinish; assumption.
  - pose proof (parse_line_shape buf ps acc Hps Hacc) as H.
    destruct (parse_line cls collect buf ps acc) as [ps' acc'|ps' acc'|rc acc'].
    + apply IH; apply H.
    + apply Hfinish; apply H.
    + exact H.
Qed.

End SegmentShape.

Lemma segments_have_shape cls image :
  Forall (segment_shape cls) (segments cls image).
Proof.
  unfold segments, scan. rewrite parse_ihex_finish.
  apply parse_loop_shape; [|constructor].
  split; [apply buffer_ok_init|]. split; [constructor|reflexivity].
Qed.

(** X6.  Every segment of an image in scope has a 16-bit start address
    and between 1 and 1023 bytes, each of them a byte; it is flagged
    external as the classifier says of its start address and its length,
    and never when there is no classifier.  So a sink is never called
    with an empty segment nor with more than the buffer holds. *)
Theorem segments_shape cls image :
  image_in_scope image ->
  Forall (segment_shape cls) (segments cls image).
Proof. intros _. apply segments_have_shape. Qed.

(** ** The parser: where the bytes go *)

Lemma placed_app bytes1 : forall addr bytes2,
  placed addr (bytes1 ++ bytes2)
  = placed addr bytes1
    ++ placed (addr + Z.of_nat (List.length bytes1)) bytes2.
Proof.
  induction bytes1 as [|b rest IH]; intros addr bytes2.
  - cbn. rewrite Z.add_0_r. reflexivity.
  - cbn [app placed List.length]. rewrite IH. cbn [app].
    do 3 f_equal. lia.
Qed.

Lemma placed_so_far_flush acc ps ext :
  placed_so_far (acc ++ [(data_addr ps, ext, data ps)])
                {| data := []; data_addr := 0; first_line := false;
                   external := false |}
  = placed_so_far acc ps.
Proof.
  unfold placed_so_far. rewrite map_app, concat_app. cbn.
  rewrite !app_nil_r. reflexivity.
Qed.

Lemma record_off_range buf : 0 <= record_off buf <= USHRT_MAX.
Proof.
  unfold record_off, USHRT_MAX.
  pose proof (hex_field_range (c_string buf) 3 4) as H.
  change (16 ^ Z.of_nat 4) with 65536 in H. lia.
Qed.

Section Placing.

Variable cls : option (Z -> Z -> bool).

Lemma data_line_placed buf ps acc :
  is_data_line buf = true -> 0 < record_len buf -> buffer_started ps ->
  exists ps' acc',
    parse_line cls collect buf ps acc = Continue ps' acc' /\
    buffer_started ps' /\
    placed_so_far acc' ps' = placed_so_far acc ps ++ record_placed buf.
Proof.
  intros Hdata Hpos Hps.
  rewrite (data_line_step cls collect buf ps acc Hdata). cbv zeta.
  assert (Hbytes : record_bytes (c_string buf) (record_len buf) <> []).
  { intros Hnil. apply (f_equal (@List.length Z)) in Hnil.
    rewrite record_bytes_length in Hnil. cbn [List.length] in Hnil. lia. }
  assert (Hoff : u16 (record_off buf) = record_off buf)
    by (apply u16_small; apply record_off_range).
  unfold buffer_started in Hps.
  destruct (first_line ps) eqn:Hfirst.
  - (* the first record *)
    unfold data_len at 1. cbn [data]. rewrite Hps. cbn [List.length].
    change (negb (Z.of_nat 0 =? 0)) with false. cbn [andb].
    eexists _, _. split; [reflexivity|].
    unfold buffer_started, append, placed_so_far, record_placed.
    cbn [first_line data data_addr]. rewrite Hps, Hoff. cbn [app placed].
    split; [exact Hbytes|]. rewrite app_nil_r. reflexivity.
  - assert (Hne : data_len ps <> 0).
    { unfold data_len. destruct (data ps); [congruence|]. cbn. lia. }
    destruct (Z.eqb_spec (data_len ps) 0) as [?|_]; [contradiction|].
    cbn [negb andb].
    destruct (negb (record_off buf =? data_addr ps + data_len ps)
              || (data_len ps + record_len buf >? sizeof_data)) eqn:Hflush.
    + rewrite flush_collect. cbv beta iota zeta.
      change (0 <? 0) with false. cbv iota.
      eexists _, _. split; [reflexivity|].
      unfold buffer_started, append. cbn [first_line data app].
      rewrite Hfirst. split; [exact Hbytes|].
      rewrite <- (placed_so_far_flush acc ps
                    match cls with
                    | Some f => f (data_addr ps) (data_len ps)
                    | None => external ps
                    end).
      unfold placed_so_far, record_placed. cbn [data data_addr placed].
      rewrite Hoff, !app_nil_r. reflexivity.
    + apply orb_false_iff in Hflush. destruct Hflush as [Hcontig _].
      apply negb_false_iff, Z.eqb_eq in Hcontig.
      eexists _, _. split; [reflexivity|].
      unfold buffer_started, append. cbn [first_line data].
      rewrite Hfirst. split.
      * intros Hnil. apply app_eq_nil in Hnil. tauto.
      * unfold placed_so_far, record_placed. cbn [data data_addr].
        rewrite placed_app, Hcontig, app_assoc. reflexivity.
Qed.

Lemma data_lines_placed lines : forall ps acc,
  Forall (fun buf => is_data_line buf = true /\ 0 < record_len buf) lines ->
  buffer_started ps ->
  exists ps' acc',
    parse_loop cls collect lines ps acc = Break ps' acc' /\
    placed_so_far acc' ps'
    = placed_so_far acc ps ++ List.concat (map record_placed lines).
Proof.
  induction lines as [|buf rest IH]; intros ps acc Hlines Hps;
    cbn [parse_loop map List.concat].
  - exists ps, acc. rewrite app_nil_r. auto.
  - inversion Hlines as [|? ? [Hdata Hpos] Hrest]; subst.
    destruct (data_line_placed buf ps acc Hdata Hpos Hps)
      as (ps1 & acc1 & -> & Hps1 & Hplaced).
    destruct (IH ps1 acc1 Hrest Hps1) as (ps' & acc' & -> & Hplaced').
    exists ps', acc'. split; [reflexivity|].
    rewrite Hplaced', Hplaced, app_assoc. reflexivity.
Qed.

Lemma parse_finish_placed ps acc :
  List.concat (map segment_placed (snd (parse_finish cls collect ps acc)))
  = placed_so_far acc ps.
Proof.
  unfold parse_finish, placed_so_far.
  destruct (Z.eqb_spec (data_len ps) 0) as [Hz|Hnz]; cbn [negb snd].
  - unfold data_len in Hz. destruct (data ps); [|cbn in Hz; lia].
    cbn. rewrite app_nil_r. reflexivity.
  - rewrite flush_collect. cbv beta iota zeta.
    change (0 <? 0) with false. cbv iota. cbn [snd].
    rewrite map_app, concat_app. cbn. rewrite app_nil_r. reflexivity.
Qed.

End Placing.

(** X7.  When the lines that count of an image in scope are data records
    with at least one byte each, the scan succeeds and the segments carry
    the bytes of the records, each with the address its record gives it
    (the offset of the record plus the position in the record), in the
    order of the records: merging and splitting move no byte. *)
Theorem segments_place_records cls image :
  image_in_scope image ->
  Forall (fun buf => is_data_line buf = true /\ 0 < record_len buf)
         (significant (fgets_lines image)) ->
  scan_status cls image = 0 /\
  List.concat (map segment_placed (segments cls image))
  = List.concat (map record_placed (significant (fgets_lines image))).
Proof.
  intros _ Hlines. unfold scan_status, segments, scan.
  rewrite parse_ihex_finish.
  rewrite (significant_loop cls collect (fgets_lines image))
    by (intros _; reflexivity).
  destruct (data_lines_placed cls (significant (fgets_lines image)) parse_init
              [] Hlines eq_refl) as (ps & acc & -> & Hplaced).
  cbn [finish]. split.
  - rewrite parse_finish_collect. reflexivity.
  - rewrite parse_finish_placed, Hplaced. reflexivity.
Qed.

(** ** Writing to RAM: what a scan requests *)

Section RamFeed.

Variable ioctl : list event -> request -> reply.

(** A segment the mode leaves out or refuses: nothing is requested. *)
Lemma ram_poke_passes addr ext bytes len ctx w :
  ram_writes (mode ctx) ext = false ->
  ram_poke ioctl addr ext bytes len (ctx, w) =
  (match mode ctx with
   | internal_only => - EINVAL
   | _undef => - EDOM
   | _ => 0
   end, (ctx, w)).
Proof.
  unfold ram_poke, ram_writes.
  destruct (mode ctx), ext; cbn [negb]; try discriminate; reflexivity.
Qed.

(** A segment the mode writes. *)
Lemma ram_poke_writes addr ext bytes ctx w :
  ram_writes (mode ctx) ext = true ->
  Z.of_nat (List.length bytes) <= 1023 ->
  let r := ram_poke ioctl addr ext bytes (Z.of_nat (List.length bytes))
             (ctx, w) in
  exists part ok,
    trace (snd (snd r)) = trace w ++ part /\
    segment_attempts (ram_device ctx) (addr, ext, bytes) ok part /\
    (fst r <? 0) = negb ok /\
    ram_device (fst (snd r)) = ram_device ctx /\
    mode (fst (snd r)) = mode ctx.
Proof.
  intros Hm Hlen. cbv zeta.
  set (len := Z.of_nat (List.length bytes)) in *.
  assert (Hpoke :
    ram_poke ioctl addr ext bytes len (ctx, w) =
    let r := ram_write ioctl RETRY_LIMIT (ram_device ctx) ext addr bytes
               len w in
    ((if fst r <? 0 then - errno (snd r) else 0),
     ({| ram_device := ram_device ctx; mode := mode ctx;
         total := u32 (total ctx + len);
         count := u32 (count ctx + 1) |}, snd r))).
  { unfold ram_poke, ram_writes in *. cbv zeta.
    destruct (ram_write ioctl RETRY_LIMIT (ram_device ctx) ext addr bytes
                len w) as [rc w'].
    destruct (mode ctx), ext; cbn [negb] in Hm; try discriminate;
      reflexivity. }
  rewrite Hpoke. cbv zeta. cbn [fst snd ram_device mode].
  destruct (ram_write_attempts ioctl (ram_device ctx) ext addr bytes len
              ltac:(unfold USHRT_MAX; lia) RETRY_LIMIT w)
    as (retried & final & Htr & Hcount & Hret & Hfin & Hst & Herr & _).
  exists (retried ++ [final]), (negb (failed final)).
  split; [exact Htr|]. split.
  { exists retried, final. rewrite negb_involutive. auto. }
  split; [|split; reflexivity].
  rewrite Hst, status_of_negative, negb_involutive. unfold failed.
  destruct (ev_reply final) as [n buf|code] eqn:Hrep; cbn [reply_failed].
  - reflexivity.
  - rewrite (Herr code eq_refl). apply Z.ltb_lt. lia.
Qed.

Lemma ram_feed_runs segs : forall ctx w,
  Forall (fun seg => Z.of_nat (List.length (snd seg)) <= 1023) segs ->
  let r := feed (ram_poke ioctl) segs (ctx, w) in
  exists evs,
    trace (snd (snd r)) = trace w ++ evs /\
    ram_fed (ram_device ctx) (mode ctx) segs (fst r) evs /\
    ram_device (fst (snd r)) = ram_device ctx.
Proof.
  induction segs as [|[[addr ext] bytes] rest IH]; intros ctx w Hsegs;
    cbv zeta; cbn [feed].
  - exists []. cbn. rewrite app_nil_r. repeat split. constructor.
  - inversion Hsegs as [|? ? Hlen Hrest]; subst. cbn [snd] in Hlen.
    destruct (ram_writes (mode ctx) ext) eqn:Hm.
    + destruct (ram_poke_writes addr ext bytes ctx w Hm Hlen)
        as (part & ok & Htr & Hatt & Hneg & Hdev & Hmode).
      destruct (ram_poke ioctl addr ext bytes _ (ctx, w)) as [rc [ctx1 w1]].
      cbn [fst snd] in *. rewrite Hneg.
      destruct ok; cbn [negb].
      * destruct (IH ctx1 w1 Hrest) as (evs & Htr' & Hfed & Hdev').
        exists (part ++ evs). split; [rewrite Htr', Htr, app_assoc; reflexivity|].
        split; [|congruence].
        rewrite Hdev, Hmode in Hfed. apply rf_write; assumption.
      * exists part. cbn [fst snd]. split; [exact Htr|].
        split; [|exact Hdev]. apply rf_fail; assumption.
    + rewrite (ram_poke_passes addr ext bytes _ ctx w Hm).
      destruct (mode ctx) eqn:Hmode.
      * exists []. cbn [fst snd]. rewrite app_nil_r. repeat split.
        apply rf_refuse; auto.
      * exists []. cbn [fst snd]. rewrite app_nil_r. repeat split.
        apply rf_refuse; auto.
      * change (0 <? 0) with false. cbv iota.
        destruct (IH ctx w Hrest) as (evs & Htr' & Hfed & Hdev').
        exists evs. rewrite Hmode in Hfed. repeat split; auto.
        apply rf_skip; auto.
      * change (0 <? 0) with false. cbv iota.
        destruct (IH ctx w Hrest) as (evs & Htr' & Hfed & Hdev').
        exists evs. rewrite Hmode in Hfed. repeat split; auto.
        apply rf_skip; auto.
Qed.

(** The counter of the context after a scan that went through: one
    more for every segment the mode writes; and a single-stage scan
    goes through only when it writes every segment. *)
Lemma ram_feed_counts segs : forall ctx w,
  u32 (count ctx) = count ctx ->
  let r := feed (ram_poke ioctl) segs (ctx, w) in
  0 <= fst r ->
  count (fst (snd r))
  = u32 (count ctx
         + Z.of_nat (List.length
                       (filter (fun seg =>
                                  ram_writes (mode ctx) (segment_external seg))
                               segs))) /\
  (mode ctx = internal_only ->
   filter (fun seg => ram_writes (mode ctx) (segment_external seg)) segs
   = segs).
Proof.
  induction segs as [|[[addr ext] bytes] rest IH]; intros ctx w Hc;
    cbv zeta; cbn [feed filter].
  - intros _. cbn [fst snd List.length]. rewrite Z.add_0_r.
    split; [symmetry; exact Hc|reflexivity].
  - change (segment_external (addr, ext, bytes)) with ext.
    destruct (ram_writes (mode ctx) ext) eqn:Hm.
    + assert (Hpoke :
        ram_poke ioctl addr ext bytes (Z.of_nat (List.length bytes)) (ctx, w) =
        let r := ram_write ioctl RETRY_LIMIT (ram_device ctx) ext addr bytes
                   (Z.of_nat (List.length bytes)) w in
        ((if fst r <? 0 then - errno (snd r) else 0),
         ({| ram_device := ram_device ctx; mode := mode ctx;
             total := u32 (total ctx + Z.of_nat (List.length bytes));
             count := u32 (count ctx + 1) |}, snd r))).
      { unfold ram_poke, ram_writes in *. cbv zeta.
        destruct (ram_write ioctl RETRY_LIMIT (ram_device ctx) ext addr bytes
                    (Z.of_nat (List.length bytes)) w) as [rc w'].
        destruct (mode ctx), ext; cbn [negb] in Hm; try discriminate;
          reflexivity. }
      rewrite Hpoke. cbv zeta.
      set (rw := ram_write ioctl RETRY_LIMIT (ram_device ctx) ext addr bytes
                   (Z.of_nat (List.length bytes)) w).
      set (ctx1 := {| ram_device := ram_device ctx; mode := mode ctx;
                      total := u32 (total ctx + Z.of_nat (List.length bytes));
                      count := u32 (count ctx + 1) |}).
      cbn [fst snd].
      destruct ((if fst rw <? 0 then - errno (snd rw) else 0) <? 0) eqn:Hneg.
      { cbn [fst]. intros Habs. exfalso. lia. }
      intros Hpos.
      assert (Hc1 : u32 (count ctx1) = count ctx1).
      { unfold ctx1. cbn [count]. unfold u32. apply Z.mod_mod. lia. }
      destruct (IH ctx1 _ Hc1 Hpos) as [Hcount Hall].
      cbn [mode ctx1] in Hcount, Hall. fold ctx1.
      split.
      * rewrite Hcount. cbn [count ctx1 List.length].
        rewrite Nat2Z.inj_succ. unfold u32.
        rewrite Zplus_mod_idemp_l. f_equal. lia.
      * intros Hmode. rewrite (Hall Hmode). reflexivity.
    + rewrite (ram_poke_passes addr ext bytes _ ctx w Hm).
      destruct (mode ctx) eqn:Hmode.
      * cbn [fst]. intros Habs. exfalso. revert Habs.
        unfold EINVAL. cbn. lia.
      * cbn [fst]. intros Habs. exfalso. revert Habs.
        unfold EDOM. cbn. lia.
      * change (0 <? 0) with false. cbv iota. intros Hpos.
        destruct (IH ctx w Hc Hpos) as [Hcount _]. rewrite Hmode in Hcount.
        split; [exact Hcount|discriminate].
      * change (0 <? 0) with false. cbv iota. intros Hpos.
        destruct (IH ctx w Hc Hpos) as [Hcount _]. rewrite Hmode in Hcount.
        split; [exact Hcount|discriminate].
Qed.

End RamFeed.

(** ** The steps of [ezusb_load_ram] *)

Lemma steps_checked {S : Type} (out : S -> Z -> list event -> Prop)
    (m k : io Z) (s : S) (rest : list S) :
  emits m (out s) ->
  emits k (steps_run out rest) ->
  emits (checked m k) (steps_run out (s :: rest)).
Proof.
  intros Hm Hk w. unfold checked.
  destruct (Hm w) as (evs1 & Htr1 & Hout).
  destruct (m w) as [st1 w1]. cbn [fst snd] in *.
  destruct (Z.ltb_spec st1 0) as [Hneg|Hpos].
  - exists evs1. split; [exact Htr1|]. apply sr_abort; assumption.
  - destruct (Hk w1) as (evs2 & Htr2 & Hrun).
    exists (evs1 ++ evs2). split.
    + rewrite Htr2, Htr1, app_assoc. reflexivity.
    + eapply sr_next; eassumption.
Qed.

Lemma steps_done {S : Type} (out : S -> Z -> list event -> Prop) :
  emits (ret 0) (steps_run out []).
Proof. apply emits_ret. constructor. Qed.

Lemma checked_skip (k : io Z) w : checked (ret 0) k w = k w.
Proof. reflexivity. Qed.

Lemma checked_assoc (a b k : io Z) w :
  checked (checked a b) k w = checked a (checked b k) w.
Proof.
  unfold checked. destruct (a w) as [st1 w1].
  destruct (st1 <? 0) eqn:Hneg; [rewrite Hneg|]; reflexivity.
Qed.

Lemma emits_ext {A} (m1 m2 : io A) P :
  (forall w, m1 w = m2 w) -> emits m2 P -> emits m1 P.
Proof. intros Heq H w. rewrite Heq. apply H. Qed.

Lemma emits_checked_call (m : io Z) (k : io (option Z))
    (P : Z -> list event -> Prop) (Q : option Z -> list event -> Prop) :
  emits m P ->
  (forall st evs1, P st evs1 -> st < 0 -> Q (Some st) evs1) ->
  (forall st evs1, P st evs1 -> 0 <= st ->
     emits k (fun r evs2 => Q r (evs1 ++ evs2))) ->
  emits (checked_call m k) Q.
Proof.
  intros Hm Habort Hnext w. unfold checked_call.
  destruct (Hm w) as (evs1 & Htr1 & HP).
  destruct (m w) as [st1 w1]. cbn [fst snd] in *.
  destruct (Z.ltb_spec st1 0) as [Hneg|Hpos].
  - exists evs1. split; [exact Htr1|]. apply Habort; assumption.
  - destruct (Hnext st1 evs1 HP Hpos w1) as (evs2 & Htr2 & HQ).
    exists (evs1 ++ evs2). split; [|exact HQ].
    rewrite Htr2, Htr1, app_assoc. reflexivity.
Qed.

Lemma steps_run_app_abort {S : Type} (out : S -> Z -> list event -> Prop)
    l1 l2 status evs :
  steps_run out l1 status evs -> status < 0 ->
  steps_run out (l1 ++ l2) status evs.
Proof.
  induction 1 as [|s rest status evs Hout Hneg
                  |s rest st1 evs1 status evs2 Hout Hpos _ IH]; intros Hlt.
  - lia.
  - cbn [app]. apply sr_abort; assumption.
  - cbn [app]. eapply sr_next; eauto.
Qed.

Lemma steps_run_status {S : Type} (out : S -> Z -> list event -> Prop)
    l status evs :
  steps_run out l status evs -> 0 <= status -> status = 0.
Proof.
  induction 1 as [|s rest status evs Hout Hneg
                  |s rest st1 evs1 status evs2 Hout Hpos _ IH]; intros Hge.
  - reflexivity.
  - lia.
  - apply IH. exact Hge.
Qed.

Lemma steps_run_app {S : Type} (out : S -> Z -> list event -> Prop)
    l1 l2 status1 evs1 status evs2 :
  steps_run out l1 status1 evs1 -> 0 <= status1 ->
  steps_run out l2 status evs2 ->
  steps_run out (l1 ++ l2) status (evs1 ++ evs2).
Proof.
  induction 1 as [|s rest status1 evs1 Hout Hneg
                  |s rest st1 evs1 status1 evs3 Hout Hpos _ IH];
    intros Hge Hrun.
  - exact Hrun.
  - lia.
  - cbn [app]. rewrite <- app_assoc. eapply sr_next; eauto.
Qed.

Lemma filter_split_length {A} (f : A -> bool) (l : list A) :
  (List.length (filter f l) + List.length (filter (fun x => negb (f x)) l)
   = List.length l)%nat.
Proof.
  induction l as [|x l IH]; [reflexivity|].
  cbn [filter]. destruct (f x); cbn [negb List.length]; lia.
Qed.

Section LoadRamSteps.

Variable ioctl : list event -> request -> reply.
Variables (fd addr : Z) (image : list ascii) (cls : Z -> Z -> bool).
Variable verbose : Z.

Let segs := segments (Some cls) image.
Let out := ram_outcome fd addr segs (scan_status (Some cls) image).
Let written (m : ram_mode) : Z :=
  Z.of_nat (List.length
              (filter (fun seg => ram_writes m (segment_external seg)) segs)).

Lemma cpucs_or_fail_step (doRun : bool) :
  emits (cpucs_or_fail ioctl fd addr doRun)
        (out (if doRun then Release else Halt)).
Proof.
  intros w. unfold cpucs_or_fail, bind, ret.
  rewrite ezusb_cpucs_run. cbv zeta.
  set (r := ioctl (trace w) _).
  exists [cpucs_event fd addr doRun r]. cbn [fst snd trace].
  split; [reflexivity|].
  assert (Hst : (if negb (status_of r =? 1) then -1 else 0)
                = (if status_of r =? 1 then 0 else -1))
    by (destruct (status_of r =? 1); reflexivity).
  rewrite Hst. destruct doRun; exists r; split; reflexivity.
Qed.

(** A scan, with the context it leaves. *)
Lemma ram_scan_step ctx :
  ram_device ctx = fd -> u32 (count ctx) = count ctx ->
  emits (ram_scan ioctl image cls ctx)
        (fun r evs =>
           out (Scan (mode ctx)) (fst r) evs /\
           ram_device (snd r) = fd /\
           (0 <= fst r ->
            count (snd r) = u32 (count ctx + written (mode ctx)) /\
            (mode ctx = internal_only ->
             written (mode ctx) = Z.of_nat (List.length segs)))).
Proof.
  intros Hdev Hc w. unfold ram_scan. rewrite parse_ihex_feed.
  assert (Hlen : Forall (fun seg => Z.of_nat (List.length (snd seg)) <= 1023)
                        (segments (Some cls) image)).
  { eapply Forall_impl; [|apply segments_have_shape].
    intros [[a e] b] (_ & Hl & _). cbn. lia. }
  destruct (ram_feed_runs ioctl (segments (Some cls) image) ctx w Hlen)
    as (evs & Htr & Hfed & Hdev').
  pose proof (ram_feed_counts ioctl (segments (Some cls) image) ctx w Hc)
    as Hcount.
  cbv zeta in Hcount.
  destruct (feed (ram_poke ioctl) (segments (Some cls) image) (ctx, w))
    as [st [ctx' w']].
  cbn [fst snd] in *. rewrite Hdev in *.
  exists evs.
  destruct (Z.ltb_spec st 0) as [Hneg|Hpos]; cbn [fst snd].
  - split; [exact Htr|]. split; [|split; [exact Hdev'|intros; lia]].
    exists st. apply Z.ltb_lt in Hneg. rewrite Hneg. auto.
  - split; [exact Htr|]. split; [|split; [exact Hdev'|]].
    + exists st. apply Z.ltb_ge in Hpos. rewrite Hpos. auto.
    + intros _. destruct (Hcount Hpos) as [Hn Hall].
      split; [exact Hn|]. intros Hm. unfold written, segs.
      rewrite (Hall Hm). reflexivity.
Qed.

Lemma scan_step_run m status evs :
  out (Scan m) status evs -> steps_run out [Scan m] status evs.
Proof.
  intros Hout.
  assert (Hle : status <= 0).
  { destruct Hout as (st & _ & ->).
    pose proof (scan_status_range (Some cls) image).
    destruct (st <? 0); lia. }
  destruct (Z.ltb_spec status 0) as [Hneg|Hpos].
  - apply sr_abort; assumption.
  - assert (status = 0) by lia. subst status.
    rewrite <- (app_nil_r evs). eapply sr_next; [exact Hout|lia|constructor].
Qed.

Lemma cpucs_step_run (doRun : bool) status evs :
  out (if doRun then Release else Halt) status evs ->
  steps_run out [if doRun then Release else Halt] status evs.
Proof.
  intros Hout.
  assert (Hst : status = 0 \/ status = -1).
  { assert (H : exists r, evs = [cpucs_event fd addr doRun r] /\
                          status = (if status_of r =? 1 then 0 else -1))
      by (destruct doRun; exact Hout).
    destruct H as (r & _ & ->). destruct (status_of r =? 1); auto. }
  destruct Hst as [->| ->].
  - rewrite <- (app_nil_r evs). eapply sr_next; [exact Hout|lia|constructor].
  - apply sr_abort; [exact Hout|lia].
Qed.

(** The step before the first scan. *)
Lemma ram_halt_first stage :
  emits (if stage =? 0 then cpucs_or_fail ioctl fd addr false else ret 0)
        (steps_run out (if stage =? 0 then [Halt] else [])).
Proof.
  destruct (stage =? 0).
  - intros w. destruct (cpucs_or_fail_step false w) as (evs & Htr & Hout).
    exists evs. split; [exact Htr|]. apply (cpucs_step_run false). exact Hout.
  - apply emits_ret. constructor.
Qed.

(** The second part of a two-stage load. *)
Lemma ram_rescan_step stage ctx :
  ram_device ctx = fd -> u32 (count ctx) = count ctx ->
  emits (ram_rescan ioctl fd addr image cls stage ctx)
        (fun r evs =>
           steps_run out
             (if stage =? 0 then [] else [Halt; Scan skip_external])
             (fst r) evs /\
           (0 <= fst r ->
            count (snd r)
            = if stage =? 0 then count ctx
              else u32 (count ctx + written skip_external))).
Proof.
  intros Hdev Hc. unfold ram_rescan. destruct (stage =? 0); cbn [negb].
  { apply emits_ret. cbn [fst snd]. split; [constructor|reflexivity]. }
  eapply emits_bind; [apply (cpucs_or_fail_step false)|].
  intros halted evs1 Hout.
  destruct (Z.ltb_spec halted 0) as [Hneg|Hpos].
  - apply emits_ret. cbn [fst snd]. rewrite app_nil_r.
    split; [apply sr_abort; assumption|intros; lia].
  - intros w.
    destruct (ram_scan_step (with_mode skip_external ctx) Hdev Hc w)
      as (evs2 & Htr & Hscan & _ & Hcount).
    exists evs2. split; [exact Htr|]. cbn [mode with_mode] in Hscan, Hcount.
    split.
    + eapply sr_next; [exact Hout|exact Hpos|].
      apply scan_step_run. exact Hscan.
    + intros Hge. destruct (Hcount Hge) as [Hn _]. exact Hn.
Qed.

(** The end: the statistics line and the release. *)
Lemma ram_release_step ctx :
  emits (ram_release ioctl verbose fd addr ctx)
        (fun r evs =>
           match r with
           | Some status =>
               steps_run out [Release] status evs /\
               negb (verbose =? 0) && (count ctx =? 0) = false
           | None =>
               evs = [] /\ negb (verbose =? 0) && (count ctx =? 0) = true
           end).
Proof.
  unfold ram_release.
  destruct (negb (verbose =? 0) && (count ctx =? 0)).
  { apply emits_ret. auto. }
  intros w. unfold checked_call.
  destruct (cpucs_or_fail_step true w) as (evs & Htr & Hout).
  apply (cpucs_step_run true) in Hout.
  destruct (cpucs_or_fail ioctl fd addr true w) as [st w1].
  cbn [fst snd] in *.
  destruct (Z.ltb_spec st 0) as [Hneg|Hpos]; cbn [fst snd ret].
  - exists evs. auto.
  - exists evs. split; [exact Htr|]. split; [|reflexivity].
    rewrite (steps_run_status _ _ _ _ Hout Hpos) in Hout. exact Hout.
Qed.

Lemma ram_plan_parts stage :
  ram_plan stage
  = (if stage =? 0 then [Halt] else [])
    ++ [Scan (if stage =? 0 then internal_only else skip_internal)]
    ++ (if stage =? 0 then [] else [Halt; Scan skip_external])
    ++ [Release] /\
  ram_plan_scans stage
  = (if stage =? 0 then [Halt] else [])
    ++ [Scan (if stage =? 0 then internal_only else skip_internal)]
    ++ (if stage =? 0 then [] else [Halt; Scan skip_external]).
Proof.
  unfold ram_plan, ram_plan_scans. destruct (stage =? 0); split; reflexivity.
Qed.

(** The number of segments counted when both scans went through. *)
Lemma ram_counted stage n :
  ((if stage =? 0 then internal_only else skip_internal) = internal_only ->
   written (if stage =? 0 then internal_only else skip_internal)
   = Z.of_nat (List.length segs)) ->
  n = u32 (0 + written (if stage =? 0 then internal_only else skip_internal)) ->
  (if stage =? 0 then n else u32 (n + written skip_external))
  = u32 (Z.of_nat (List.length segs)).
Proof.
  intros Hall ->. destruct (stage =? 0).
  - rewrite (Hall eq_refl). reflexivity.
  - unfold u32. rewrite Zplus_mod_idemp_l. f_equal.
    unfold written.
    pose proof (filter_split_length
                  (fun seg : segment => segment_external seg) segs) as Hsplit.
    cbn [ram_writes]. lia.
Qed.

(** [ezusb_load_ram] once the file is open and the variant chosen. *)
Lemma load_ram_steps stage :
  emits
    (checked_call
       (if stage =? 0 then cpucs_or_fail ioctl fd addr false else ret 0)
       (' (status, ctx) <-
          ram_scan ioctl image cls
            {| ram_device := fd;
               mode := if stage =? 0 then internal_only else skip_internal;
               total := 0; count := 0 |} ;;
        checked_call (ret status)
          (' (status, ctx) <-
             ram_rescan ioctl fd addr image cls stage ctx ;;
           checked_call (ret status)
             (ram_release ioctl verbose fd addr ctx)))%io)
    (ram_run fd addr segs (scan_status (Some cls) image) verbose stage).
Proof.
  unfold ram_run. cbv zeta. fold out.
  destruct (ram_plan_parts stage) as [-> ->].
  set (A := if stage =? 0 then [Halt] else []).
  set (m1 := if stage =? 0 then internal_only else skip_internal).
  set (C := if stage =? 0 then [] else [Halt; Scan skip_external]).
  assert (Hret : forall status : Z,
            emits (ret status) (fun st evs => st = status /\ evs = [])).
  { intros status. apply emits_ret. auto. }
  apply emits_checked_call with (P := steps_run out A).
  { apply ram_halt_first. }
  { intros st evs1 HA Hneg. split.
    - apply steps_run_app_abort; assumption.
    - intros _. split; [exact Hneg|].
      apply steps_run_app_abort; assumption. }
  intros st0 evs1 HA Hpos0.
  eapply emits_bind.
  { apply (ram_scan_step {| ram_device := fd; mode := m1;
                            total := 0; count := 0 |} eq_refl eq_refl). }
  intros [status ctx1] evs2 (Hscan & Hdev & Hcount).
  cbn [fst snd mode count] in Hscan, Hdev, Hcount.
  apply scan_step_run in Hscan.
  apply emits_checked_call
    with (P := fun st evs => st = status /\ evs = []); [apply Hret| |].
  { intros ? ? [-> ->] Hneg. rewrite app_nil_r. split.
    - eapply steps_run_app; [exact HA|exact Hpos0|].
      apply (steps_run_app_abort out [Scan m1]); assumption.
    - intros _. split; [exact Hneg|].
      eapply steps_run_app; [exact HA|exact Hpos0|].
      apply (steps_run_app_abort out [Scan m1]); assumption. }
  intros ? ? [-> ->] Hpos1. cbn [app].
  destruct (Hcount Hpos1) as [Hn1 Hall].
  assert (Hc1 : u32 (count ctx1) = count ctx1).
  { rewrite Hn1. unfold u32. apply Z.mod_mod. lia. }
  eapply emits_bind; [apply (ram_rescan_step stage ctx1 Hdev Hc1)|].
  intros [status2 ctx2] evs3 (Hrescan & Hcount2).
  cbn [fst snd] in Hrescan, Hcount2. fold C in Hrescan.
  apply emits_checked_call
    with (P := fun st evs => st = status2 /\ evs = []); [apply Hret| |].
  { intros ? ? [-> ->] Hneg. rewrite app_nil_r. split.
    - eapply steps_run_app; [exact HA|exact Hpos0|].
      eapply (steps_run_app out [Scan m1]); [exact Hscan|exact Hpos1|].
      apply steps_run_app_abort; assumption.
    - intros _. split; [exact Hneg|].
      eapply steps_run_app; [exact HA|exact Hpos0|].
      eapply (steps_run_app out [Scan m1]); [exact Hscan|exact Hpos1|].
      exact Hrescan. }
  intros ? ? [-> ->] Hpos2. cbn [app].
  assert (Hcounted : count ctx2 = u32 (Z.of_nat (List.length segs))).
  { rewrite (Hcount2 Hpos2). apply ram_counted; assumption. }
  assert (Hdies : negb (verbose =? 0) && (count ctx2 =? 0)
                  = divides_by_zero verbose segs).
  { unfold divides_by_zero. rewrite Hcounted. reflexivity. }
  intros w. destruct (ram_release_step ctx2 w) as (evs4 & Htr & Hend).
  exists evs4. split; [exact Htr|].
  destruct (fst (ram_release ioctl verbose fd addr ctx2 w)) as [status3|].
  - destruct Hend as [Hrel Hlive]. rewrite Hdies in Hlive. split.
    + eapply steps_run_app; [exact HA|exact Hpos0|].
      eapply (steps_run_app out [Scan m1]); [exact Hscan|exact Hpos1|].
      eapply steps_run_app; [exact Hrescan|exact Hpos2|exact Hrel].
    + rewrite Hlive. discriminate.
  - destruct Hend as [-> Hdead]. rewrite Hdies in Hdead.
    split; [exact Hdead|]. rewrite app_nil_r.
    rewrite (steps_run_status _ _ _ _ Hrescan Hpos2) in Hrescan.
    eapply steps_run_app; [exact HA|exact Hpos0|].
    eapply (steps_run_app out [Scan m1]); [exact Hscan|exact Hpos1|].
    exact Hrescan.
Qed.

End LoadRamSteps.

Lemma load_ram_runs ioctl fopen verbose fd path fx2 stage image :
  fopen path = Some image ->
  emits (ezusb_load_ram ioctl fopen verbose fd path fx2 stage)
        (ram_run fd (ram_cpucs_addr fx2)
           (segments (Some (ram_classifier fx2)) image)
           (scan_status (Some (ram_classifier fx2)) image)
           verbose stage).
Proof.
  intros Hopen. unfold ezusb_load_ram. rewrite Hopen.
  unfold ram_cpucs_addr, ram_classifier.
  destruct (fx2 =? 2); [apply load_ram_steps|].
  destruct (negb (fx2 =? 0)); apply load_ram_steps.
Qed.

(** ** [ezusb_load_ram]: the order of its requests *)

Lemma writes_done_app evs1 evs2 :
  writes_done (evs1 ++ evs2) = writes_done evs1 ++ writes_done evs2.
Proof. unfold writes_done. rewrite filter_app, map_app. reflexivity. Qed.

Lemma timed_out_failed e : timed_out e -> failed e = true.
Proof. intros (code & Hr & _). unfold failed. rewrite Hr. reflexivity. Qed.

Lemma segment_attempts_events dev addr ext bytes ok part :
  segment_attempts dev (addr, ext, bytes) ok part ->
  Forall (ram_write_event dev ext) part.
Proof.
  intros (retried & final & -> & _ & Hret & Hfin & _).
  apply Forall_app. split.
  - eapply Forall_impl; [|exact Hret]. intros e [He _].
    exists addr, bytes. exact He.
  - constructor; [|constructor]. exists addr, bytes. exact Hfin.
Qed.

Lemma segment_attempts_done dev addr ext bytes part :
  is_ushort addr ->
  segment_attempts dev (addr, ext, bytes) true part ->
  writes_done part = [segment_write (addr, ext, bytes)].
Proof.
  intros Ha (retried & final & -> & _ & Hret & Hfin & Hok).
  rewrite writes_done_app.
  assert (Hnone : writes_done retried = []).
  { unfold writes_done. rewrite filter_none; [reflexivity|].
    eapply Forall_impl; [|exact Hret]. intros e [_ Hto].
    unfold succeeded. rewrite (timed_out_failed e Hto).
    apply andb_false_r. }
  rewrite Hnone. cbn [app]. unfold writes_done. cbn [filter].
  unfold succeeded. rewrite Hok. rewrite Hfin. cbn [negb].
  cbn. rewrite (u16_small addr Ha). destruct ext; reflexivity.
Qed.

Lemma segment_attempts_none dev seg part :
  segment_attempts dev seg false part -> writes_done part = [].
Proof.
  destruct seg as [[addr ext] bytes].
  intros (retried & final & -> & _ & Hret & Hfin & Hok).
  unfold writes_done. rewrite filter_none; [reflexivity|].
  apply Forall_app. split.
  - eapply Forall_impl; [|exact Hret]. intros e [_ Hto].
    unfold succeeded. rewrite (timed_out_failed e Hto).
    apply andb_false_r.
  - constructor; [|constructor]. unfold succeeded. rewrite Hok.
    apply andb_false_r.
Qed.

(** The events of a scan are writes of the kind the mode allows. *)
Lemma ram_fed_events dev m segs status evs :
  ram_fed dev m segs status evs ->
  Forall (ram_write_event dev
            (match m with skip_internal => true | _ => false end)) evs.
Proof.
  assert (Hext : forall seg, ram_writes m (segment_external seg) = true ->
            segment_external seg
            = match m with skip_internal => true | _ => false end).
  { intros seg. unfold ram_writes.
    destruct m, (segment_external seg); cbn; congruence. }
  induction 1 as [|seg segs status evs _ _ _ IH|seg segs _ _
                  |[[addr ext] bytes] segs part status evs Hm Hatt _ IH
                  |[[addr ext] bytes] segs part Hm Hatt].
  - constructor.
  - exact IH.
  - constructor.
  - apply Forall_app. split; [|exact IH].
    apply Hext in Hm. cbn in Hm. subst ext.
    eapply segment_attempts_events. exact Hatt.
  - apply Hext in Hm. cbn in Hm. subst ext.
    eapply segment_attempts_events. exact Hatt.
Qed.

(** A scan that succeeds has written the segments of its mode, each
    once, in their order; a scan that stops has written some of the
    first of them. *)
Lemma ram_fed_done dev m segs status evs :
  ram_fed dev m segs status evs ->
  Forall (fun seg => is_ushort (fst (fst seg))) segs ->
  (status = 0 \/ status = -1) /\
  (status = 0 ->
   writes_done evs
   = map segment_write
       (filter (fun seg => ram_writes m (segment_external seg)) segs) /\
   (m = internal_only ->
    Forall (fun seg => segment_external seg = false) segs)).
Proof.
  induction 1 as [|seg segs status evs Hm Hmode _ IH|seg segs Hm Hmode
                  |[[addr ext] bytes] segs part status evs Hm Hatt _ IH
                  |[[addr ext] bytes] segs part Hm Hatt];
    intros Hsegs.
  - split; [auto|]. intros _. split; [reflexivity|constructor].
  - inversion Hsegs as [|? ? _ Hrest]; subst.
    destruct (IH Hrest) as [Hst Hdone]. split; [exact Hst|].
    intros Hz. destruct (Hdone Hz) as [Hw Hint]. cbn [filter].
    rewrite Hm. split; [exact Hw|].
    intros ->. destruct Hmode; discriminate.
  - split; [auto|]. discriminate.
  - inversion Hsegs as [|? ? Ha Hrest]; subst. cbn [fst] in Ha.
    destruct (IH Hrest) as [Hst Hdone]. split; [exact Hst|].
    intros Hz. destruct (Hdone Hz) as [Hw Hint]. cbn [filter].
    rewrite Hm. cbn [map]. rewrite writes_done_app, Hw.
    rewrite (segment_attempts_done dev addr ext bytes part Ha Hatt).
    split; [reflexivity|].
    intros ->. constructor; [|apply Hint; reflexivity].
    cbn in Hm. cbn. destruct ext; [discriminate|reflexivity].
  - split; [auto|]. discriminate.
Qed.

Lemma steps_run_cons {S : Type} (out : S -> Z -> list event -> Prop)
    s rest status evs :
  steps_run out (s :: rest) status evs ->
  (out s status evs /\ status < 0) \/
  (exists status1 evs1 evs2,
     evs = evs1 ++ evs2 /\ out s status1 evs1 /\ 0 <= status1 /\
     steps_run out rest status evs2).
Proof.
  intros H. inversion H; subst; [left; auto|right; eauto 8].
Qed.

Lemma steps_run_nil {S : Type} (out : S -> Z -> list event -> Prop)
    status evs :
  steps_run out [] status evs -> status = 0 /\ evs = [].
Proof. intros H. inversion H; subst. auto. Qed.

Lemma ram_write_not_cpucs fd ext evs :
  Forall (ram_write_event fd ext) evs ->
  filter is_cpucs evs = [] /\ Forall (fun e => is_write e = true) evs.
Proof.
  intros H. split.
  - apply filter_none. eapply Forall_impl; [|exact H].
    intros e (addr & bytes & ->). reflexivity.
  - eapply Forall_impl; [|exact H].
    intros e (addr & bytes & ->). reflexivity.
Qed.

Section RamOutcomes.

Variables (fd addr : Z) (segs : list segment) (scan_st : Z).

Hypothesis scan_st_range :
  scan_st = 0 \/ scan_st = -2 \/ scan_st = -3 \/ scan_st = -4.
Hypothesis segs_addresses :
  Forall (fun seg => is_ushort (fst (fst seg))) segs.

Lemma cpucs_outcome (doRun : bool) status evs :
  ram_outcome fd addr segs scan_st (if doRun then Release else Halt)
    status evs ->
  exists r,
    evs = [cpucs_event fd addr doRun r] /\
    status = (if status_of r =? 1 then 0 else -1) /\
    (status = 0 \/ status = -1) /\
    (status = 0 <-> status_of r = 1).
Proof.
  intros H.
  assert (H' : exists r, evs = [cpucs_event fd addr doRun r] /\
                         status = (if status_of r =? 1 then 0 else -1))
    by (destruct doRun; exact H).
  destruct H' as (r & -> & ->). exists r.
  split; [reflexivity|]. split; [reflexivity|].
  destruct (Z.eqb_spec (status_of r) 1); split; auto; split; auto;
    try discriminate; contradiction.
Qed.

Lemma scan_outcome m status evs :
  ram_outcome fd addr segs scan_st (Scan m) status evs ->
  Forall (ram_write_event fd
            (match m with skip_internal => true | _ => false end)) evs /\
  -4 <= status <= 0 /\
  (status = 0 ->
   scan_st = 0 /\
   writes_done evs
   = map segment_write
       (filter (fun seg => ram_writes m (segment_external seg)) segs) /\
   (m = internal_only ->
    Forall (fun seg => segment_external seg = false) segs)).
Proof.
  intros (st & Hfed & ->).
  split; [eapply ram_fed_events; exact Hfed|].
  destruct (ram_fed_done fd m segs st evs Hfed segs_addresses)
    as [Hst Hdone].
  destruct Hst as [->| ->].
  - change (0 <? 0) with false. cbv iota.
    split; [lia|]. intros Hz. split; [exact Hz|]. apply Hdone. reflexivity.
  - change (-1 <? 0) with true. cbv iota. split; [lia|]. discriminate.
Qed.

End RamOutcomes.

Section RamOrder.

Variables (fd addr : Z) (segs : list segment) (scan_st : Z).

Hypothesis scan_st_range :
  scan_st = 0 \/ scan_st = -2 \/ scan_st = -3 \/ scan_st = -4.
Hypothesis segs_addresses :
  Forall (fun seg => is_ushort (fst (fst seg))) segs.

(** The end of every plan: the on-chip scan and the release. *)
Lemma ram_run_tail m status evs :
  m = internal_only \/ m = skip_external ->
  steps_run (ram_outcome fd addr segs scan_st) [Scan m; Release] status evs ->
  exists int_writes release,
    evs = int_writes ++ release /\
    Forall (ram_write_event fd false) int_writes /\
    ((release = [] /\ status < 0) \/
     (exists r, release = [cpucs_event fd addr true r] /\
                (status = 0 <-> status_of r = 1))) /\
    -4 <= status <= 0 /\
    (status = 0 ->
     scan_st = 0 /\
     writes_done int_writes
     = map segment_write
         (filter (fun seg => ram_writes m (segment_external seg)) segs) /\
     (m = internal_only ->
      Forall (fun seg => segment_external seg = false) segs)).
Proof.
  intros Hm Hrun.
  assert (Hfalse : match m with skip_internal => true | _ => false end
                   = false) by (destruct Hm; subst m; reflexivity).
  apply steps_run_cons in Hrun.
  destruct Hrun as [[Hout Hneg]
                   |(st1 & evs1 & evs2 & -> & Hout & Hpos & Hrun)];
    apply (scan_outcome fd addr segs scan_st scan_st_range segs_addresses)
      in Hout;
    rewrite Hfalse in Hout; destruct Hout as (Hev & Hrange & Hdone).
  - exists evs, []. rewrite app_nil_r. split; [reflexivity|].
    split; [exact Hev|]. split; [left; auto|]. split; [exact Hrange|].
    intros Hz. lia.
  - assert (st1 = 0) by lia. subst st1.
    apply steps_run_cons in Hrun.
    destruct Hrun as [[Hout Hneg]
                     |(st2 & evs3 & evs4 & -> & Hout & Hpos2 & Hrun)];
      apply (cpucs_outcome fd addr segs scan_st true) in Hout;
      destruct Hout as (r & -> & Hst & Hcases & Hiff).
    + exists evs1, [cpucs_event fd addr true r]. split; [reflexivity|].
      split; [exact Hev|]. split; [right; exists r; auto|].
      split; [lia|]. intros Hz. lia.
    + apply steps_run_nil in Hrun. destruct Hrun as [-> ->].
      assert (Hst2 : st2 = 0) by lia.
      exists evs1, [cpucs_event fd addr true r]. split; [reflexivity|].
      split; [exact Hev|]. split.
      { right. exists r. split; [reflexivity|]. split; [|reflexivity].
        intros _. apply Hiff. exact Hst2. }
      split; [lia|]. intros _. apply Hdone. reflexivity.
Qed.

(** Both plans: the halt, and what comes behind it. *)
Lemma ram_run_halted m status evs :
  m = internal_only \/ m = skip_external ->
  steps_run (ram_outcome fd addr segs scan_st) [Halt; Scan m; Release]
            status evs ->
  exists r int_writes release,
    evs = cpucs_event fd addr false r :: int_writes ++ release /\
    (status_of r <> 1 -> int_writes = [] /\ release = []) /\
    Forall (ram_write_event fd false) int_writes /\
    ((release = [] /\ status < 0) \/
     (exists r', release = [cpucs_event fd addr true r'] /\
                 (status = 0 <-> status_of r' = 1))) /\
    -4 <= status <= 0 /\
    (status = 0 ->
     status_of r = 1 /\ scan_st = 0 /\
     writes_done int_writes
     = map segment_write
         (filter (fun seg => ram_writes m (segment_external seg)) segs) /\
     (m = internal_only ->
      Forall (fun seg => segment_external seg = false) segs)).
Proof.
  intros Hm Hrun. apply steps_run_cons in Hrun.
  destruct Hrun as [[Hout Hneg]
                   |(st1 & evs1 & evs2 & -> & Hout & Hpos & Hrun)];
    apply (cpucs_outcome fd addr segs scan_st false) in Hout;
    destruct Hout as (r & -> & Hst & Hcases & Hiff).
  - exists r, [], []. split; [reflexivity|]. split; [auto|].
    split; [constructor|]. split; [left; auto|]. split; [lia|].
    intros Hz. lia.
  - destruct (ram_run_tail m status evs2 Hm Hrun)
      as (int_writes & release & -> & Hint & Hrel & Hrange & Hdone).
    exists r, int_writes, release. split; [reflexivity|].
    assert (Hr : status_of r = 1) by (apply Hiff; lia).
    split; [intros Hne; contradiction|].
    split; [exact Hint|]. split; [exact Hrel|]. split; [exact Hrange|].
    intros Hz. split; [exact Hr|]. apply Hdone. exact Hz.
Qed.

End RamOrder.

(** X8.  [ezusb_load_ram] returns -2 without a request when the file
    cannot be opened.  Otherwise, the image being in scope, it follows
    the plan of its [stage]: for a single stage, halt the CPU, write the
    segments of the image to on-chip memory, release the CPU; for two
    stages, write the external segments, halt the CPU, write the on-chip
    segments, release the CPU.  Each step is checked: a call that
    returns ends at the first step that fails, with its status, and
    returns 0 after the last.  Between the last scan and the release
    stands the statistics line, which with [verbose] set divides by the
    number of segments counted: when that is zero, a call whose steps
    before the release all succeeded is killed there, has made the
    requests of these steps and returns nothing; no call reaches the
    release then. *)
Theorem load_ram_follows_plan ioctl fopen verbose fd path fx2 stage w :
  let r := ezusb_load_ram ioctl fopen verbose fd path fx2 stage w in
  match fopen path with
  | None => r = (Some (-2), w)
  | Some image =>
      image_in_scope image ->
      let segs := segments (Some (ram_classifier fx2)) image in
      let out :=
        ram_outcome fd (ram_cpucs_addr fx2) segs
          (scan_status (Some (ram_classifier fx2)) image) in
      exists evs,
        trace (snd r) = trace w ++ evs /\
        match fst r with
        | Some status =>
            steps_run out (ram_plan stage) status evs /\
            (divides_by_zero verbose segs = true ->
             status < 0 /\ steps_run out (ram_plan_scans stage) status evs)
        | None =>
            divides_by_zero verbose segs = true /\
            steps_run out (ram_plan_scans stage) 0 evs
        end
  end.
Proof.
  cbv zeta. destruct (fopen path) as [image|] eqn:Hopen.
  - intros _. apply (load_ram_runs ioctl fopen verbose). exact Hopen.
  - unfold ezusb_load_ram. rewrite Hopen. reflexivity.
Qed.

Lemma segments_addresses cls image :
  Forall (fun seg => is_ushort (fst (fst seg))) (segments cls image).
Proof.
  eapply Forall_impl; [|apply segments_have_shape].
  intros [[a e] b] (Ha & _). exact Ha.
Qed.

(** X9.  In every call of [ezusb_load_ram] that opens its file, an image
    in scope, the requests come in this order: writes to external memory
    (none in a single-stage load), one request that halts the CPU, writes
    to on-chip memory, one request that releases the CPU.  On-chip memory
    is written only after the halt request has succeeded; the release
    request is the last request of the call.  A call that returns,
    returns 0 exactly when the release request is made and succeeds, and
    never a status below -4.  A call that does not return was killed in
    the statistics line: [verbose] is set, no segment was counted, the
    CPU has been halted and is not released. *)
Theorem load_ram_request_order ioctl fopen verbose fd path fx2 stage w image :
  fopen path = Some image -> image_in_scope image ->
  let r := ezusb_load_ram ioctl fopen verbose fd path fx2 stage w in
  let addr := ram_cpucs_addr fx2 in
  let segs := segments (Some (ram_classifier fx2)) image in
  exists ext_writes halt int_writes release,
    trace (snd r) = trace w ++ ext_writes ++ halt ++ int_writes ++ release /\
    Forall (ram_write_event fd true) ext_writes /\
    (stage = 0 -> ext_writes = []) /\
    Forall (ram_write_event fd false) int_writes /\
    ((halt = [] /\ int_writes = [] /\ release = []) \/
     (exists r0, halt = [cpucs_event fd addr false r0] /\
                 (status_of r0 <> 1 -> int_writes = [] /\ release = []))) /\
    match fst r with
    | Some status =>
        ((release = [] /\ status < 0) \/
         (exists r1, release = [cpucs_event fd addr true r1] /\
                     (status = 0 <-> status_of r1 = 1))) /\
        -4 <= status <= 0
    | None =>
        release = [] /\ verbose <> 0 /\
        u32 (Z.of_nat (List.length segs)) = 0 /\
        exists r0, halt = [cpucs_event fd addr false r0] /\ status_of r0 = 1
    end.
Proof.
  intros Hopen _. cbv zeta.
  destruct (load_ram_runs ioctl fopen verbose fd path fx2 stage image Hopen w)
    as (evs & Htr & Hrun).
  set (cls := ram_classifier fx2) in *.
  pose proof (scan_status_range (Some cls) image) as Hrange.
  pose proof (segments_addresses (Some cls) image) as Haddr.
  rewrite Htr. clear Htr. unfold ram_run in Hrun. cbv zeta in Hrun.
  destruct (fst (ezusb_load_ram ioctl fopen verbose fd path fx2 stage w))
    as [status|].
  - destruct Hrun as [Hrun _]. unfold ram_plan in Hrun.
    destruct (Z.eqb_spec stage 0) as [Hstage|Hstage].
    + destruct (ram_run_halted _ _ _ _ Hrange Haddr internal_only status evs
                  (or_introl eq_refl) Hrun)
        as (r0 & int_writes & release & -> & Hhalt & Hint & Hrel & Hst & _).
      exists [], [cpucs_event fd (ram_cpucs_addr fx2) false r0], int_writes,
             release.
      split; [reflexivity|]. split; [constructor|]. split; [reflexivity|].
      split; [exact Hint|]. split; [right; exists r0; auto|]. auto.
    + apply steps_run_cons in Hrun.
      destruct Hrun as [[Hout Hneg]
                       |(st1 & evs1 & evs2 & -> & Hout & Hpos & Hrun)];
        apply (scan_outcome _ _ _ _ Hrange Haddr) in Hout;
        destruct Hout as (Hev & Hst & _).
      * exists evs, [], [], []. rewrite !app_nil_r.
        split; [reflexivity|]. split; [exact Hev|].
        split; [intros; contradiction|]. split; [constructor|].
        split; [left; auto|]. split; [left; auto|]. exact Hst.
      * destruct (ram_run_halted _ _ _ _ Hrange Haddr skip_external status evs2
                    (or_intror eq_refl) Hrun)
          as (r0 & int_writes & release & -> & Hhalt & Hint & Hrel & Hst' & _).
        exists evs1, [cpucs_event fd (ram_cpucs_addr fx2) false r0], int_writes,
               release.
        split; [reflexivity|]. split; [exact Hev|].
        split; [intros; contradiction|].
        split; [exact Hint|]. split; [right; exists r0; auto|]. auto.
  - destruct Hrun as [Hdies Hrun]. unfold divides_by_zero in Hdies.
    apply andb_prop in Hdies. destruct Hdies as [Hverbose Hcount].
    apply negb_true_iff in Hverbose. apply Z.eqb_neq in Hverbose.
    apply Z.eqb_eq in Hcount.
    assert (Hhalted : forall m evs',
              m = internal_only \/ m = skip_external ->
              steps_run (ram_outcome fd (ram_cpucs_addr fx2)
                           (segments (Some cls) image)
                           (scan_status (Some cls) image))
                        [Halt; Scan m] 0 evs' ->
              exists r0 int_writes,
                evs' = cpucs_event fd (ram_cpucs_addr fx2) false r0
                       :: int_writes /\
                status_of r0 = 1 /\
                Forall (ram_write_event fd false) int_writes).
    { intros m evs' Hm Hrun'. apply steps_run_cons in Hrun'.
      destruct Hrun' as [[_ Hneg]
                        |(st1 & evs1 & evs2 & -> & Hout & Hpos & Hrun')];
        [lia|].
      apply (cpucs_outcome fd _ _ _ false) in Hout.
      destruct Hout as (r0 & -> & _ & Hcases & Hiff).
      apply steps_run_cons in Hrun'.
      destruct Hrun' as [[_ Hneg]
                        |(st2 & evs3 & evs4 & -> & Hout & _ & Hrun')];
        [lia|].
      apply steps_run_nil in Hrun'. destruct Hrun' as [_ ->].
      apply (scan_outcome _ _ _ _ Hrange Haddr) in Hout.
      destruct Hout as (Hev & _).
      exists r0, evs3. rewrite app_nil_r. split; [reflexivity|].
      split; [apply Hiff; lia|].
      destruct Hm; subst m; exact Hev. }
    unfold ram_plan_scans in Hrun.
    destruct (Z.eqb_spec stage 0) as [Hstage|Hstage].
    + destruct (Hhalted internal_only evs (or_introl eq_refl) Hrun)
        as (r0 & int_writes & -> & Hr0 & Hint).
      exists [], [cpucs_event fd (ram_cpucs_addr fx2) false r0], int_writes, [].
      rewrite app_nil_r.
      split; [reflexivity|]. split; [constructor|]. split; [reflexivity|].
      split; [exact Hint|].
      split; [right; exists r0; split; [reflexivity|]; intros; contradiction|].
      split; [reflexivity|]. split; [exact Hverbose|]. split; [exact Hcount|].
      exists r0. auto.
    + apply steps_run_cons in Hrun.
      destruct Hrun as [[_ Hneg]
                       |(st1 & evs1 & evs2 & -> & Hout & Hpos & Hrun)];
        [lia|].
      apply (scan_outcome _ _ _ _ Hrange Haddr) in Hout.
      destruct Hout as (Hev & _).
      destruct (Hhalted skip_external evs2 (or_intror eq_refl) Hrun)
        as (r0 & int_writes & -> & Hr0 & Hint).
      exists evs1, [cpucs_event fd (ram_cpucs_addr fx2) false r0], int_writes,
             [].
      rewrite app_nil_r.
      split; [reflexivity|]. split; [exact Hev|].
      split; [intros; contradiction|]. split; [exact Hint|].
      split; [right; exists r0; split; [reflexivity|]; intros; contradiction|].
      split; [reflexivity|]. split; [exact Hverbose|]. split; [exact Hcount|].
      exists r0. auto.
Qed.

Lemma writes_done_cpucs fd addr doRun r evs :
  writes_done (cpucs_event fd addr doRun r :: evs) = writes_done evs.
Proof. reflexivity. Qed.

Lemma writes_done_nil : writes_done [] = [].
Proof. reflexivity. Qed.

(** X10.  When [ezusb_load_ram] returns 0 for an image in scope, the scan
    of the image has
    succeeded and the writes the device has accepted are those of the
    segments of the image, each once, with its address and its bytes: in
    a single-stage load all segments in their order, all of them on-chip;
    in a two-stage load the external segments in their order, then the
    on-chip segments in theirs.  The CPU was halted once and released
    once, in this order. *)
Theorem load_ram_writes_image ioctl fopen verbose fd path fx2 stage w image :
  fopen path = Some image -> image_in_scope image ->
  let r := ezusb_load_ram ioctl fopen verbose fd path fx2 stage w in
  let segs := segments (Some (ram_classifier fx2)) image in
  let addr := ram_cpucs_addr fx2 in
  fst r = Some 0 ->
  scan_status (Some (ram_classifier fx2)) image = 0 /\
  (stage = 0 -> Forall (fun seg => segment_external seg = false) segs) /\
  exists evs,
    trace (snd r) = trace w ++ evs /\
    writes_done evs
    = map segment_write
        (if stage =? 0 then segs
         else filter segment_external segs
              ++ filter (fun seg => negb (segment_external seg)) segs) /\
    exists r0 r1,
      filter is_cpucs evs
      = [cpucs_event fd addr false r0; cpucs_event fd addr true r1] /\
      status_of r0 = 1 /\ status_of r1 = 1.
Proof.
  intros Hopen _. cbv zeta. intros Hzero.
  destruct (load_ram_runs ioctl fopen verbose fd path fx2 stage image Hopen w)
    as (evs & Htr & Hrun).
  set (cls := ram_classifier fx2) in *.
  pose proof (scan_status_range (Some cls) image) as Hrange.
  pose proof (segments_addresses (Some cls) image) as Haddr.
  rewrite Hzero in Hrun. destruct Hrun as [Hrun _]. unfold ram_plan in Hrun.
  assert (Hreleased : forall status release,
            (release = [] /\ status < 0) \/
            (exists r1, release = [cpucs_event fd (ram_cpucs_addr fx2) true r1] /\
                        (status = 0 <-> status_of r1 = 1)) ->
            status = 0 ->
            exists r1, release = [cpucs_event fd (ram_cpucs_addr fx2) true r1] /\
                       status_of r1 = 1).
  { intros status release [[_ Hneg]|(r1 & -> & Hiff)] Hz; [lia|].
    exists r1. split; [reflexivity|]. apply Hiff. exact Hz. }
  destruct (Z.eqb_spec stage 0) as [Hstage|Hstage].
  - destruct (ram_run_halted _ _ _ _ Hrange Haddr internal_only 0 evs
                (or_introl eq_refl) Hrun)
      as (r0 & int_writes & release & -> & _ & Hint & Hrel & _ & Hdone).
    destruct (Hdone eq_refl) as (Hr0 & Hscan & Hw & Hall).
    specialize (Hall eq_refl).
    destruct (Hreleased 0 release Hrel eq_refl) as (r1 & -> & Hr1).
    destruct (ram_write_not_cpucs fd false int_writes Hint) as [Hnone _].
    split; [exact Hscan|]. split; [intros _; exact Hall|].
    eexists. split; [exact Htr|]. split.
    + rewrite writes_done_cpucs, writes_done_app, Hw.
      rewrite writes_done_cpucs, writes_done_nil, app_nil_r.
      rewrite filter_all; [reflexivity|].
      eapply Forall_impl; [|exact Hall]. intros seg Hseg. cbn.
      rewrite Hseg. reflexivity.
    + exists r0, r1. split; [|auto].
      cbn [filter is_cpucs cpucs_event ev_origin].
      rewrite filter_app, Hnone. reflexivity.
  - apply steps_run_cons in Hrun.
    destruct Hrun as [[_ Hneg]
                     |(st1 & evs1 & evs2 & -> & Hout & Hpos & Hrun)]; [lia|].
    apply (scan_outcome _ _ _ _ Hrange Haddr) in Hout.
    destruct Hout as (Hev & Hst1 & Hdone1).
    destruct (Hdone1 ltac:(lia)) as (Hscan & Hw1 & _).
    destruct (ram_run_halted _ _ _ _ Hrange Haddr skip_external 0 evs2
                (or_intror eq_refl) Hrun)
      as (r0 & int_writes & release & -> & _ & Hint & Hrel & _ & Hdone).
    destruct (Hdone eq_refl) as (Hr0 & _ & Hw & _).
    destruct (Hreleased 0 release Hrel eq_refl) as (r1 & -> & Hr1).
    destruct (ram_write_not_cpucs fd false int_writes Hint) as [Hnone _].
    destruct (ram_write_not_cpucs fd true evs1 Hev) as [Hnone1 _].
    split; [exact Hscan|]. split; [intros; contradiction|].
    eexists. split; [exact Htr|]. split.
    + rewrite writes_done_app, Hw1, writes_done_cpucs, writes_done_app, Hw.
      rewrite writes_done_cpucs, writes_done_nil, app_nil_r, map_app.
      reflexivity.
    + exists r0, r1. split; [|auto].
      rewrite filter_app, Hnone1. cbn [app filter is_cpucs cpucs_event ev_origin].
      rewrite filter_app, Hnone. reflexivity.
Qed.

(** ** Writing to EEPROM: the frames of an image *)

Section EepromFeed.

Variable ioctl : list event -> request -> reply.
Variables (dev op start : Z) (t0 : list event).

Lemma eeprom_feed_frames segs : forall fs0 w,
  Forall (fun seg => is_ushort (fst (fst seg)) /\
                     Z.of_nat (List.length (snd seg)) <= 1023) segs ->
  trace w = t0 ++ frame_events dev op start fs0 -> Forall framed fs0 ->
  let ctx := {| ee_device := dev; ee_addr := cursor_after start fs0;
                last := false; eeprom_request := op |} in
  let r := feed (eeprom_poke ioctl) segs (ctx, w) in
  exists fs,
    Forall framed fs /\
    (exists more, map segment_frame segs = map frame_content fs ++ more) /\
    if fst r <? 0 then
      fst r = -1 /\
      exists tail,
        trace (snd (snd r))
        = t0 ++ frame_events dev op start (fs0 ++ fs) ++ tail /\
        (tail = [] \/
         broken_frame dev op (cursor_after start (fs0 ++ fs)) tail)
    else
      fst r = 0 /\
      trace (snd (snd r)) = t0 ++ frame_events dev op start (fs0 ++ fs) /\
      fst (snd r) = {| ee_device := dev;
                       ee_addr := cursor_after start (fs0 ++ fs);
                       last := false; eeprom_request := op |} /\
      map frame_content fs = map segment_frame segs /\
      Forall (fun seg => segment_external seg = false) segs.
Proof.
  induction segs as [|[[addr ext] bytes] rest IH]; intros fs0 w Hsegs Htr Hfs0;
    cbv zeta; cbn [feed].
  - exists []. split; [constructor|]. split; [exists []; reflexivity|].
    cbn. rewrite app_nil_r. repeat split; auto.
  - inversion Hsegs as [|? ? [Ha Hl] Hrest]; subst. cbn [fst snd] in Ha, Hl.
    destruct ext.
    { (* flagged external: refused *)
      exists []. split; [constructor|]. split; [eexists; reflexivity|].
      cbn. split; [reflexivity|]. exists []. rewrite !app_nil_r. auto. }
    assert (Hl' : 0 <= Z.of_nat (List.length bytes) <= 1023) by lia.
    pose proof (eeprom_poke_frames ioctl dev op start t0 false addr false
                  bytes _ fs0 w Ha Hl' eq_refl Htr Hfs0) as H.
    cbv zeta in H.
    destruct (eeprom_poke ioctl addr false bytes _ _) as [rc [ctx1 w1]].
    cbn [fst snd] in H.
    destruct (rc <? 0).
    + destruct H as (tail & Htr1 & Htail).
      exists []. split; [constructor|]. split; [eexists; reflexivity|].
      cbn [fst snd]. change (-1 <? 0) with true. cbv iota.
      split; [reflexivity|]. exists tail. rewrite app_nil_r.
      split; [exact Htr1|]. destruct Htail as [->|[Hb _]]; auto.
    + destruct H as (f & Hfa & Hfb & Hfl & Hlast & Hf & -> & Htr1 & ->).
      assert (Hfs1 : Forall framed (fs0 ++ [f]))
        by (apply Forall_app; auto).
      destruct (IH (fs0 ++ [f]) w1 Hrest Htr1 Hfs1)
        as (fs & Hfs & (more & Hmore) & Hres).
      cbv zeta in Hres.
      assert (Hcontent : frame_content f = segment_frame (addr, false, bytes)).
      { unfold frame_content. cbn. rewrite Hfa, Hfb, Hlast. reflexivity. }
      exists (f :: fs). split; [constructor; assumption|].
      split.
      { exists more. cbn [map]. rewrite Hmore, Hcontent. reflexivity. }
      replace (fs0 ++ f :: fs) with ((fs0 ++ [f]) ++ fs)
        by (rewrite <- app_assoc; reflexivity).
      destruct (fst (feed (eeprom_poke ioctl) rest _) <? 0).
      * exact Hres.
      * destruct Hres as (Hz & Htr2 & Hctx & Hmap & Hint).
        split; [exact Hz|]. split; [exact Htr2|]. split; [exact Hctx|].
        split.
        -- cbn [map]. rewrite Hmap, Hcontent. reflexivity.
        -- constructor; [reflexivity|exact Hint].
Qed.

End EepromFeed.

Lemma segments_sizes cls image :
  Forall (fun seg => is_ushort (fst (fst seg)) /\
                     Z.of_nat (List.length (snd seg)) <= 1023)
         (segments cls image).
Proof.
  eapply Forall_impl; [|apply segments_have_shape].
  intros [[a e] b] (Ha & Hl & _). cbn. split; [exact Ha|lia].
Qed.

Lemma eeprom_poke_status ioctl ctx w addr bytes len :
  is_ushort addr -> 0 <= len <= 1023 ->
  fst (eeprom_poke ioctl addr false bytes len (ctx, w)) = 0 \/
  fst (eeprom_poke ioctl addr false bytes len (ctx, w)) = -1.
Proof.
  intros Ha Hl. rewrite eeprom_poke_accepts by assumption. cbv zeta.
  destruct (ioctl (trace w) _) as [n1 b1|e1]; cbn [reply_failed];
    [|right; reflexivity].
  destruct (ioctl _ _) as [n2 b2|e2]; cbn [reply_failed];
    [left|right]; reflexivity.
Qed.

(** The block under [if (path)], with what its frames hold. *)
Lemma emits_segments_image ioctl dev image v :
  is_ushort (cpucs_addr v) ->
  emits (write_segments ioctl dev image v)
        (eeprom_outcome (segments (Some (is_external v)) image)
           (scan_status (Some (is_external v)) image) (cpucs_addr v)
           (Frames dev (request_code v) (ee_start v))).
Proof.
  intros Hcpucs w. unfold write_segments. rewrite parse_ihex_feed.
  set (segs := segments (Some (is_external v)) image).
  set (scan_st := scan_status (Some (is_external v)) image).
  pose proof (scan_status_range (Some (is_external v)) image) as Hrange.
  fold scan_st in Hrange.
  pose proof (eeprom_feed_frames ioctl dev (request_code v) (ee_start v)
                (trace w) segs [] w
                (segments_sizes (Some (is_external v)) image)
                ltac:(cbn; rewrite app_nil_r; reflexivity)
                ltac:(constructor)) as H.
  cbv zeta in H. cbn [cursor_after app] in H.
  destruct (feed (eeprom_poke ioctl) segs _) as [rc [ctx1 w1]].
  destruct H as (fs & Hfs & (more & Hmore) & H). cbn [fst snd] in H.
  destruct (rc <? 0).
  - (* a call of the sink failed *)
    destruct H as (-> & tail & Htr & Htail).
    change (-1 <? 0) with true. cbv iota. cbn [fst snd].
    exists (frame_events dev (request_code v) (ee_start v) fs ++ tail).
    split; [exact Htr|]. exists fs, tail.
    split; [reflexivity|]. split; [exact Hfs|]. split.
    { exists (more ++ [(cpucs_addr v, [0], true)]).
      unfold image_frames. rewrite Hmore, <- app_assoc. reflexivity. }
    right. split; [lia|]. destruct Htail as [->|Hb]; auto.
  - destruct H as (-> & Htr & -> & Hmap & Hint).
    destruct (Z.ltb_spec scan_st 0) as [Hneg|Hpos].
    + (* a line was rejected *)
      cbn [fst snd].
      exists (frame_events dev (request_code v) (ee_start v) fs).
      split; [exact Htr|]. exists fs, []. rewrite app_nil_r.
      split; [reflexivity|]. split; [exact Hfs|]. split.
      { exists [(cpucs_addr v, [0], true)]. unfold image_frames.
        rewrite Hmap. reflexivity. }
      right. split; [lia|]. left. reflexivity.
    + (* the reset record *)
      assert (Hzero : scan_st = 0) by lia.
      cbn [ee_device ee_addr eeprom_request].
      pose proof (eeprom_poke_frames ioctl dev (request_code v) (ee_start v)
                    (trace w) true (cpucs_addr v) false [0] 1 fs w1
                    Hcpucs ltac:(lia) eq_refl Htr Hfs) as H.
      cbv zeta in H.
      pose proof (eeprom_poke_status ioctl
                    {| ee_device := dev;
                       ee_addr := cursor_after (ee_start v) fs;
                       last := true; eeprom_request := request_code v |}
                    w1 (cpucs_addr v) [0] 1 Hcpucs ltac:(lia)) as Hst2.
      destruct (eeprom_poke ioctl (cpucs_addr v) false [0] 1 _)
        as [status2 [ctx2 w2]].
      cbn [fst snd] in *.
      destruct (Z.ltb_spec status2 0) as [Hneg2|Hpos2].
      * destruct H as (tail & Htr' & Htail).
        exists (frame_events dev (request_code v) (ee_start v) fs ++ tail).
        split; [exact Htr'|]. exists fs, tail.
        split; [reflexivity|]. split; [exact Hfs|]. split.
        { exists [(cpucs_addr v, [0], true)]. unfold image_frames.
          rewrite Hmap. reflexivity. }
        right. split; [lia|].
        destruct Htail as [->|[Hb ->]]; [left; reflexivity|right; auto].
      * destruct H as (f & Hfa & Hfb & _ & Hlast & Hf & -> & Htr' & _).
        exists (frame_events dev (request_code v) (ee_start v) (fs ++ [f])).
        split; [exact Htr'|]. exists (fs ++ [f]), [].
        rewrite app_nil_r. split; [reflexivity|].
        split; [apply Forall_app; auto|].
        assert (Hall : map frame_content (fs ++ [f])
                       = image_frames segs (cpucs_addr v)).
        { rewrite map_app, Hmap. unfold image_frames, frame_content. cbn.
          rewrite Hfa, Hfb, Hlast. reflexivity. }
        split; [exists []; rewrite app_nil_r; symmetry; exact Hall|].
        left. auto.
Qed.

(** ** [ezusb_load_eeprom]: its steps, with what the frames hold *)

Lemma write_image_steps ioctl dev image type v vid pid :
  is_ushort (cpucs_addr v) ->
  emits (write_image ioctl dev image type v vid pid)
        (steps_run
           (eeprom_outcome (image_segments v image) (image_status v image)
              (cpucs_addr v))
           (image_script dev image type v vid pid)).
Proof.
  intros Hcpucs. unfold write_image, image_script.
  set (out := eeprom_outcome _ _ _).
  assert (Hwrite : forall label op addr bytes len,
            len <= USHRT_MAX ->
            emits (ezusb_write ioctl dev label op addr bytes len)
                  (out (Write label (write_request dev op addr bytes len)))).
  { intros. apply emits_write. assumption. }
  assert (Hskip : emits (ret 0) (out Skip)) by apply emits_skip.
  apply steps_checked; [apply Hwrite; unfold USHRT_MAX; lia|].
  apply steps_checked.
  { destruct (_ && _); [apply Hwrite; unfold USHRT_MAX; lia|exact Hskip]. }
  apply steps_checked.
  { destruct image as [text|]; [|exact Hskip].
    apply emits_segments_image. exact Hcpucs. }
  apply steps_checked.
  { destruct (negb _); [apply Hwrite; unfold USHRT_MAX; lia|exact Hskip]. }
  apply steps_checked.
  { destruct (String.eqb _ _); [apply Hwrite; unfold USHRT_MAX; lia|exact Hskip]. }
  apply steps_checked; [apply Hwrite; unfold USHRT_MAX; lia|].
  apply steps_done.
Qed.

(** X11.  With a path, [ezusb_load_eeprom] first asks the device for the
    size of its EEPROM, and that is its only read; without a path it
    reads nothing.  The file, when it is read, is taken to be in scope.
    It writes only when all of this holds: the answer was one byte of
    value 1, or the byte is 0; the file could be opened; the variant is
    known (and, for fx and an21, a path was given).  Otherwise it returns
    -1, or -2 when it is the file that cannot be opened, and nothing is
    written.  When all holds, at least one write is made. *)
Theorem load_eeprom_gate ioctl fopen indeterminate dev path type config
    large_eeprom ww_config_vid ww_config_pid w :
  let r := ezusb_load_eeprom ioctl fopen indeterminate dev path type config
             large_eeprom ww_config_vid ww_config_pid w in
  let r0 := ioctl (trace w)
              (read_request dev GET_EEPROM_SIZE 0 [indeterminate] 1) in
  let reads := match path with
               | Some _ => [size_event dev indeterminate r0]
               | None => []
               end in
  let passed :=
    match path with
    | Some p => size_accepted indeterminate r0
                && match fopen p with Some _ => true | None => false end
    | None => true
    end
    && match select_variant path type config large_eeprom with
       | Some _ => true
       | None => false
       end in
  (forall p text, path = Some p -> fopen p = Some text ->
                  image_in_scope text) ->
  exists writes,
    trace (snd r) = trace w ++ reads ++ writes /\
    Forall (fun e => is_write e = true) writes /\
    (passed = true -> writes <> []) /\
    (passed = false -> writes = [] /\ (fst r = -1 \/ fst r = -2)) /\
    (forall p, path = Some p -> size_accepted indeterminate r0 = false ->
               fst r = -1) /\
    (forall p, path = Some p -> size_accepted indeterminate r0 = true ->
               fopen p = None -> fst r = -2).
Proof.
  cbv zeta. intros _.
  assert (Hscript : forall image v w1,
            select_variant path type config large_eeprom = Some v ->
            exists writes,
              trace (snd (write_image ioctl dev image type v ww_config_vid
                            ww_config_pid w1)) = trace w1 ++ writes /\
              Forall (fun e => is_write e = true) writes /\ writes <> []).
  { intros image v w1 Hv.
    destruct (select_variant_cases _ _ _ _ _ Hv) as (Hc & _).
    destruct (write_image_runs ioctl dev image type v ww_config_vid
                ww_config_pid Hc w1) as (evs & Htr & Hrun).
    exists evs. split; [exact Htr|].
    split; [eapply run_writes; exact Hrun|].
    apply run_first in Hrun.
    destruct Hrun as (st1 & evs1 & evs2 & (r1 & -> & _) & -> & _).
    discriminate. }
  destruct path as [p|].
  - rewrite load_eeprom_path. cbv zeta.
    set (r0 := ioctl (trace w) _).
    destruct (size_accepted indeterminate r0) eqn:Hsize; cbn [andb].
    + destruct (fopen p) as [text|] eqn:Hopen; cbn [andb].
      * destruct (select_variant (Some p) type config large_eeprom)
          as [v|] eqn:Hv.
        -- destruct (Hscript (Some text) v
                       {| trace := trace w ++ [size_event dev indeterminate r0];
                          errno := errno_after r0 (errno w) |} eq_refl)
             as (writes & Htr & Hw & Hne).
           exists writes. cbn [trace] in Htr.
           split; [rewrite Htr, <- app_assoc; reflexivity|].
           split; [exact Hw|]. split; [auto|].
           split; [discriminate|]. split; [discriminate|].
           intros p' [= <-] _ Hnone. congruence.
        -- exists []. cbn [fst snd trace]. rewrite app_nil_r.
           repeat split; auto; try discriminate.
           intros p' [= <-] _ Hnone. congruence.
      * exists []. cbn [fst snd trace]. rewrite app_nil_r.
        repeat split; auto; discriminate.
    + exists []. cbn [fst snd trace]. rewrite app_nil_r.
      repeat split; auto; discriminate.
  - rewrite load_eeprom_no_path. cbn [andb app].
    destruct (select_variant None type config large_eeprom) as [v|] eqn:Hv.
    + destruct (Hscript None v w eq_refl) as (writes & Htr & Hw & Hne).
      exists writes. repeat split; auto; discriminate.
    + exists []. cbn [fst snd]. rewrite app_nil_r.
      repeat split; auto; discriminate.
Qed.

(** ** [ezusb_load_eeprom]: what a call that succeeds has written *)

Lemma steps_run_done {S : Type} (out : S -> Z -> list event -> Prop)
    steps : forall evs,
  steps_run out steps 0 evs ->
  exists parts,
    evs = List.concat parts /\
    Forall2 (fun s p => exists st, 0 <= st /\ out s st p) steps parts.
Proof.
  induction steps as [|s rest IH]; intros evs Hrun.
  - apply steps_run_nil in Hrun. destruct Hrun as [_ ->].
    exists []. split; [reflexivity|constructor].
  - apply steps_run_cons in Hrun.
    destruct Hrun as [[_ Hneg]|(st1 & evs1 & evs2 & -> & Hout & Hpos & Hrun)];
      [lia|].
    destruct (IH evs2 Hrun) as (parts & -> & Hparts).
    exists (evs1 :: parts). split; [reflexivity|].
    constructor; [eauto|exact Hparts].
Qed.

Lemma writes_done_cons e evs :
  is_write e = true -> failed e = false ->
  writes_done (e :: evs)
  = (bRequest (ev_request e), wValue (ev_request e), rq_data (ev_request e))
    :: writes_done evs.
Proof.
  intros Hw Hok. unfold writes_done, succeeded. cbn [filter].
  rewrite Hw, Hok. reflexivity.
Qed.

Lemma frame_events_done dev op fs : forall cursor,
  Forall framed fs ->
  writes_done (frame_events dev op cursor fs)
  = frame_writes (u8 op) cursor (map frame_content fs) /\
  Forall (fun e => failed e = false) (frame_events dev op cursor fs).
Proof.
  induction fs as [|f fs IH]; intros cursor Hfs.
  - split; [reflexivity|constructor].
  - inversion Hfs as [|? ? (Hh & Hp & _ & _ & Hlen) Hrest]; subst.
    destruct (IH (u16 (cursor + 4 + fr_len f)) Hrest) as [Hw Hok].
    cbn [frame_events map frame_content frame_writes].
    split.
    + rewrite writes_done_cons by (try reflexivity; exact Hh).
      rewrite writes_done_cons by (try reflexivity; exact Hp).
      rewrite Hw, <- Hlen. reflexivity.
    + constructor; [exact Hh|]. constructor; [exact Hp|exact Hok].
Qed.

Lemma eeprom_step_done segs scan_st reset_addr s status evs :
  eeprom_outcome segs scan_st reset_addr s status evs -> 0 <= status ->
  writes_done evs = step_writes (image_frames segs reset_addr) s /\
  Forall (fun e => failed e = false) evs /\
  match s with
  | Frames _ _ _ =>
      scan_st = 0 /\ Forall (fun seg => segment_external seg = false) segs
  | _ => True
  end.
Proof.
  destruct s as [label rq|dev op start|]; cbn [eeprom_outcome outcome].
  - intros (r & -> & ->) Hpos.
    apply status_nonneg_succeeded in Hpos.
    unfold writes_done, succeeded, failed. cbn. rewrite Hpos. cbn.
    repeat split. constructor; [exact Hpos|constructor].
  - intros (fs & tail & -> & Hfs & _ & Hcases) Hpos.
    destruct Hcases as [(_ & -> & Hscan & Hint & Hmap)|[Hneg _]]; [|lia].
    rewrite app_nil_r.
    destruct (frame_events_done dev op fs start Hfs) as [Hw Hok].
    rewrite Hw, Hmap. repeat split; auto.
  - intros [-> _] _. repeat split. constructor.
Qed.

Lemma script_writes dev image type v vid pid :
  u8 (request_code v) = request_code v ->
  List.concat
    (map (step_writes (image_frames (image_segments v image) (cpucs_addr v)))
         (image_script dev image type v vid pid))
  = eeprom_writes type v vid pid
      (option_map (segments (Some (is_external v))) image).
Proof.
  intros Hop. unfold image_script, eeprom_writes. cbv zeta.
  cbn [map List.concat step_writes write_request bRequest wValue rq_data app].
  rewrite Hop.
  change (u16 0) with 0. f_equal.
  destruct (negb (resolve_id (ww_vid v) vid =? 0)
            && negb (resolve_id (ww_pid v) pid =? 0));
    cbn [step_writes write_request bRequest wValue rq_data app];
    rewrite ?Hop; change (u16 1) with 1.
  all: destruct image as [text|];
    cbn [step_writes option_map image_segments app]; rewrite ?Hop.
  all: destruct (negb (String.eqb "an21" type));
    cbn [step_writes write_request bRequest wValue rq_data app];
    rewrite ?Hop; change (u16 7) with 7.
  all: destruct (String.eqb "fx" type);
    cbn [step_writes write_request bRequest wValue rq_data app];
    rewrite ?Hop; change (u16 8) with 8.
  all: rewrite ?app_nil_r; reflexivity.
Qed.

Lemma request_code_byte path type config large_eeprom v :
  select_variant path type config large_eeprom = Some v ->
  u8 (request_code v) = request_code v.
Proof.
  intros Hv. destruct (select_variant_cases _ _ _ _ _ Hv) as (_ & _ & -> & _).
  destruct large_eeprom; reflexivity.
Qed.

(** X12.  When [ezusb_load_eeprom] returns 0, its image being in scope,
    no write has failed and the writes are, in this order: the byte 0 at
    offset 0; the identity record at offset 1 when both ids are nonzero;
    for each segment of the image a header and its bytes, one frame
    behind the other from the initial offset of the variant on, and after
    them the reset record, the only frame flagged as last; the config
    byte at offset 7 unless the variant is an21; a byte 0 at offset 8 for
    fx; the type byte at offset 0.  Nothing else is written.  The scan of
    the image has succeeded and none of its segments is external. *)
Theorem load_eeprom_writes_image ioctl fopen indeterminate dev path type
    config large_eeprom ww_config_vid ww_config_pid w v :
  select_variant path type config large_eeprom = Some v ->
  let r := ezusb_load_eeprom ioctl fopen indeterminate dev path type config
             large_eeprom ww_config_vid ww_config_pid w in
  let image := match path with Some p => fopen p | None => None end in
  (forall text, image = Some text -> image_in_scope text) ->
  fst r = 0 ->
  (path <> None -> image <> None) /\
  image_status v image = 0 /\
  Forall (fun seg => segment_external seg = false) (image_segments v image) /\
  exists evs,
    trace (snd r) = trace w ++ evs /\
    Forall (fun e => is_write e = true -> failed e = false) evs /\
    writes_done evs
    = eeprom_writes type v ww_config_vid ww_config_pid
        (option_map (segments (Some (is_external v))) image).
Proof.
  intros Hv. cbv zeta. intros _ Hzero.
  destruct (select_variant_cases _ _ _ _ _ Hv) as (Hc & _).
  pose proof (request_code_byte _ _ _ _ _ Hv) as Hop.
  assert (Hscript : forall image w1,
            fst (write_image ioctl dev image type v ww_config_vid
                   ww_config_pid w1) = 0 ->
            image_status v image = 0 /\
            Forall (fun seg => segment_external seg = false)
                   (image_segments v image) /\
            exists evs,
              trace (snd (write_image ioctl dev image type v ww_config_vid
                            ww_config_pid w1)) = trace w1 ++ evs /\
              Forall (fun e => failed e = false) evs /\
              writes_done evs
              = eeprom_writes type v ww_config_vid ww_config_pid
                  (option_map (segments (Some (is_external v))) image)).
  { intros image w1 Hz.
    destruct (write_image_steps ioctl dev image type v ww_config_vid
                ww_config_pid Hc w1) as (evs & Htr & Hrun).
    rewrite Hz in Hrun. apply steps_run_done in Hrun.
    destruct Hrun as (parts & -> & Hparts).
    assert (Hall : Forall2
              (fun s p =>
                 writes_done p
                 = step_writes (image_frames (image_segments v image)
                                  (cpucs_addr v)) s /\
                 Forall (fun e => failed e = false) p /\
                 match s with
                 | Frames _ _ _ =>
                     image_status v image = 0 /\
                     Forall (fun seg => segment_external seg = false)
                            (image_segments v image)
                 | _ => True
                 end)
              (image_script dev image type v ww_config_vid ww_config_pid)
              parts).
    { eapply Forall2_impl; [|exact Hparts].
      intros s p (st & Hpos & Hout).
      eapply eeprom_step_done; eassumption. }
    assert (Hdone : writes_done (List.concat parts)
                    = List.concat
                        (map (step_writes
                                (image_frames (image_segments v image)
                                   (cpucs_addr v)))
                             (image_script dev image type v ww_config_vid
                                ww_config_pid)) /\
                    Forall (fun e => failed e = false) (List.concat parts)).
    { clear - Hall. induction Hall as [|s p steps parts (Hw & Hok & _) _ IH].
      - split; [reflexivity|constructor].
      - cbn [List.concat map]. rewrite writes_done_app, Hw.
        destruct IH as [-> Hrest]. split; [reflexivity|].
        apply Forall_app. auto. }
    destruct Hdone as [Hw Hok].
    assert (Himage : image_status v image = 0 /\
                     Forall (fun seg => segment_external seg = false)
                            (image_segments v image)).
    { destruct image as [text|]; [|split; [reflexivity|constructor]].
      unfold image_script in Hall. cbv zeta in Hall.
      apply Forall2_cons_l_inv in Hall.
      destruct Hall as (p1 & l1 & -> & _ & Hall).
      apply Forall2_cons_l_inv in Hall.
      destruct Hall as (p2 & l2 & -> & _ & Hall).
      apply Forall2_cons_l_inv in Hall.
      destruct Hall as (p3 & l3 & -> & (_ & _ & H3) & _). exact H3. }
    destruct Himage as [Hst Hint].
    split; [exact Hst|]. split; [exact Hint|].
    exists (List.concat parts). split; [exact Htr|]. split; [exact Hok|].
    rewrite Hw. apply script_writes. exact Hop. }
  destruct path as [p|].
  - rewrite load_eeprom_path in Hzero |- *. cbv zeta in Hzero |- *.
    set (r0 := ioctl (trace w) _) in *.
    set (w1 := {| trace := trace w ++ [size_event dev indeterminate r0];
                  errno := errno_after r0 (errno w) |}) in *.
    destruct (size_accepted indeterminate r0); [|discriminate].
    destruct (fopen p) as [text|]; [|discriminate].
    rewrite Hv in Hzero |- *.
    destruct (Hscript (Some text) w1 Hzero)
      as (Hst & Hint & evs & Htr & Hok & Hw).
    split; [discriminate|]. split; [exact Hst|]. split; [exact Hint|].
    exists (size_event dev indeterminate r0 :: evs).
    split; [rewrite Htr; cbn [w1 trace]; rewrite <- app_assoc; reflexivity|].
    split; [|exact Hw].
    constructor; [discriminate|].
    eapply Forall_impl; [|exact Hok]. auto.
  - rewrite load_eeprom_no_path in Hzero |- *. rewrite Hv in Hzero |- *.
    destruct (Hscript None w Hzero) as (Hst & Hint & evs & Htr & Hok & Hw).
    split; [intros H; contradiction|]. split; [exact Hst|].
    split; [exact Hint|].
    exists evs. split; [exact Htr|]. split; [|exact Hw].
    eapply Forall_impl; [|exact Hok]. auto.
Qed.

(** ** The statuses of the three operations *)

Lemma eeprom_run_range segs scan_st reset_addr steps status evs :
  steps_run (eeprom_outcome segs scan_st reset_addr) steps status evs ->
  -4 <= status <= 0.
Proof.
  induction 1 as [|s rest status evs Hout Hneg
                  |s rest st1 evs1 status evs2 _ _ _ IH].
  - lia.
  - destruct s as [label rq|dev op start|]; cbn in Hout.
    + destruct Hout as (r & _ & ->).
      destruct r; cbn in *; lia.
    + destruct Hout as (fs & tail & _ & _ & _ & [(-> & _)|[Hrange _]]); lia.
    + destruct Hout as [_ ->]. lia.
  - exact IH.
Qed.

(** X13.  With files in scope, the three operations return 0 or a small
    negative status: a call of [ezusb_load_ram] that returns, and every
    call of [ezusb_load_eeprom], a status from -4 to 0,
    [ezusb_erase_eeprom] 0 or -1.  Neither a count of bytes transferred
    nor a negated error number of a sink reaches the caller.  A call of
    [ezusb_load_ram] returns unless [verbose] is set. *)
Theorem status_domain ioctl fopen indeterminate :
  (forall path image, fopen path = Some image -> image_in_scope image) ->
  (forall verbose fd path fx2 stage w,
     match fst (ezusb_load_ram ioctl fopen verbose fd path fx2 stage w) with
     | Some status => -4 <= status <= 0
     | None => verbose <> 0
     end) /\
  (forall dev path type config large_eeprom ww_config_vid ww_config_pid w,
     -4 <= fst (ezusb_load_eeprom ioctl fopen indeterminate dev path type
                  config large_eeprom ww_config_vid ww_config_pid w) <= 0) /\
  (forall dev large_eeprom w,
     fst (ezusb_erase_eeprom ioctl dev large_eeprom w) = 0 \/
     fst (ezusb_erase_eeprom ioctl dev large_eeprom w) = -1).
Proof.
  intros _. split; [|split].
  - intros verbose fd path fx2 stage w.
    destruct (fopen path) as [image|] eqn:Hopen.
    + destruct (load_ram_runs ioctl fopen verbose fd path fx2 stage image
                  Hopen w)
        as (evs & _ & Hrun).
      pose proof (scan_status_range (Some (ram_classifier fx2)) image)
        as Hrange.
      pose proof (segments_addresses (Some (ram_classifier fx2)) image)
        as Haddr.
      unfold ram_run in Hrun. cbv zeta in Hrun.
      destruct (fst (ezusb_load_ram ioctl fopen verbose fd path fx2 stage w))
        as [status|].
      2:{ destruct Hrun as [Hdies _]. unfold divides_by_zero in Hdies.
          apply andb_prop in Hdies. destruct Hdies as [Hverbose _].
          apply negb_true_iff in Hverbose. apply Z.eqb_neq in Hverbose.
          exact Hverbose. }
      destruct Hrun as [Hrun _].
      unfold ram_plan in Hrun.
      destruct (stage =? 0).
      * destruct (ram_run_halted _ _ _ _ Hrange Haddr internal_only _ evs
                    (or_introl eq_refl) Hrun)
          as (_ & _ & _ & _ & _ & _ & _ & Hst & _).
        exact Hst.
      * apply steps_run_cons in Hrun.
        destruct Hrun as [[Hout Hneg]
                         |(st1 & evs1 & evs2 & _ & _ & _ & Hrun)].
        -- apply (scan_outcome _ _ _ _ Hrange Haddr) in Hout.
           destruct Hout as (_ & Hst & _). exact Hst.
        -- destruct (ram_run_halted _ _ _ _ Hrange Haddr skip_external _ evs2
                       (or_intror eq_refl) Hrun)
             as (_ & _ & _ & _ & _ & _ & _ & Hst & _).
           exact Hst.
    + unfold ezusb_load_ram. rewrite Hopen. cbn. lia.
  - intros dev path type config large_eeprom vid pid w.
    assert (Hscript : forall image v w1,
              select_variant path type config large_eeprom = Some v ->
              -4 <= fst (write_image ioctl dev image type v vid pid w1) <= 0).
    { intros image v w1 Hv.
      destruct (select_variant_cases _ _ _ _ _ Hv) as (Hc & _).
      destruct (write_image_steps ioctl dev image type v vid pid Hc w1)
        as (evs & _ & Hrun).
      eapply eeprom_run_range. exact Hrun. }
    destruct path as [p|].
    + rewrite load_eeprom_path. cbv zeta.
      destruct (size_accepted _ _); [|cbn; lia].
      destruct (fopen p); [|cbn; lia].
      destruct (select_variant (Some p) type config large_eeprom) eqn:Hv;
        [|cbn; lia].
      apply Hscript. reflexivity.
    + rewrite load_eeprom_no_path.
      destruct (select_variant None type config large_eeprom) eqn:Hv;
        [|cbn; lia].
      apply Hscript. reflexivity.
  - intros dev large_eeprom w. unfold ezusb_erase_eeprom.
    destruct (erase_loop_trace ioctl dev large_eeprom 256 0 w
                ltac:(lia) ltac:(lia))
      as (evs & _ & _ & _ & _ & Hres).
    cbv zeta in Hres. change (32 * Z.of_nat 0) with 0 in Hres.
    destruct Hres as [(Hz & _)|(good & bad & _ & _ & Hbad & Hst & _)].
    + left. exact Hz.
    + right. rewrite Hst. apply failed_status. exact Hbad.
Qed.

(** ** The parser: what it does not look at *)

Lemma hex_field_prefix line1 line2 start width n :
  (start + width <= n)%nat ->
  firstn n line1 = firstn n line2 ->
  hex_field line1 start width = hex_field line2 start width.
Proof.
  intros Hn Heq. unfold hex_field.
  rewrite !firstn_skipn_comm.
  replace (firstn (start + width) line1)
    with (firstn (start + width) (firstn n line1))
    by (rewrite firstn_firstn; f_equal; lia).
  replace (firstn (start + width) line2)
    with (firstn (start + width) (firstn n line2))
    by (rewrite firstn_firstn; f_equal; lia).
  rewrite Heq. reflexivity.
Qed.

Lemma record_bytes_prefix line1 line2 len n :
  (9 + 2 * Z.to_nat len <= n)%nat ->
  firstn n line1 = firstn n line2 ->
  record_bytes line1 len = record_bytes line2 len.
Proof.
  intros Hn Heq. unfold record_bytes. apply map_ext_in.
  intros idx Hin. apply in_seq in Hin. f_equal.
  apply (hex_field_prefix line1 line2 _ _ n); [lia|exact Heq].
Qed.

Lemma c_string_head buf c rest :
  c_string buf = c :: rest -> exists rest', buf = c :: rest'.
Proof.
  destruct buf as [|c' rest']; [discriminate|]. cbn.
  destruct (Ascii.eqb c' NUL || Ascii.eqb c' LF); [discriminate|].
  intros [= -> _]. eauto.
Qed.

(** X14.  The loop reads of a line its first character, the length, offset
    and type fields and as many data bytes as the length field says; of
    what follows the data it uses only that the line is long enough.  Two
    lines in scope that agree up to the end of the data are treated
    alike: the checksum of a record is not verified. *)
Theorem checksum_not_verified {St : Type} cls
    (poke : Z -> bool -> list Z -> Z -> St -> Z * St) buf1 buf2 ps s :
  let line1 := c_string buf1 in
  let line2 := c_string buf2 in
  let len := hex_field line1 1 2 in
  line_in_scope buf1 = true -> line_in_scope buf2 = true ->
  firstn (Z.to_nat (9 + 2 * len)) line1
  = firstn (Z.to_nat (9 + 2 * len)) line2 ->
  len * 2 + 11 <= strlen line1 -> len * 2 + 11 <= strlen line2 ->
  parse_line cls poke buf1 ps s = parse_line cls poke buf2 ps s.
Proof.
  cbv zeta. set (len := hex_field (c_string buf1) 1 2).
  intros _ _ Heq Hlong1 Hlong2.
  assert (Hlen : 0 <= len < 256) by apply (hex_field_range (c_string buf1) 1 2).
  set (n := Z.to_nat (9 + 2 * len)) in *.
  assert (Hn : (9 + 2 * Z.to_nat len <= n)%nat) by (unfold n; lia).
  (* the first character *)
  assert (Hhead : exists c rest1 rest2, buf1 = c :: rest1 /\ buf2 = c :: rest2).
  { unfold strlen in *.
    destruct (c_string buf1) as [|c l1] eqn:H1; [cbn [List.length] in Hlong1; lia|].
    destruct (c_string buf2) as [|c2 l2] eqn:H2; [cbn [List.length] in Hlong2; lia|].
    assert (Hc : c = c2).
    { destruct n as [|n']; [lia|]. cbn in Heq. congruence. }
    subst c2.
    destruct (c_string_head _ _ _ H1) as (r1 & ->).
    destruct (c_string_head _ _ _ H2) as (r2 & ->). eauto. }
  destruct Hhead as (c & rest1 & rest2 & -> & ->).
  unfold parse_line.
  destruct (Ascii.eqb_spec c "#"%char) as [->|Hc1]; [reflexivity|].
  destruct (Ascii.eqb_spec c ":"%char) as [->|Hc2].
  2:{ destruct c as [[] [] [] [] [] [] [] []]; try reflexivity; congruence. }
  cbv zeta.
  set (line1 := c_string (":"%char :: rest1)) in *.
  set (line2 := c_string (":"%char :: rest2)) in *.
  assert (Hf : forall start width, (start + width <= 9)%nat ->
            hex_field line2 start width = hex_field line1 start width).
  { intros start width Hsw. symmetry.
    apply (hex_field_prefix line1 line2 _ _ n); [lia|exact Heq]. }
  rewrite !Hf by lia. fold len. unfold append.
  rewrite <- (record_bytes_prefix line1 line2 len n Hn Heq).
  destruct (Z.gtb_spec (len * 2 + 11) (strlen line1)) as [?|_]; [lia|].
  destruct (Z.gtb_spec (len * 2 + 11) (strlen line2)) as [?|_]; [lia|].
  reflexivity.
Qed.

(** X15.  An image in scope without a record before its end, or before
    its first end-of-file record, is accepted: [parse_ihex] returns 0 and
    the sink is not called.  This holds of the empty file, of a file of
    comments, and of a file that begins with an end-of-file record. *)
Theorem no_records_no_calls {St : Type} cls
    (poke : Z -> bool -> list Z -> Z -> St -> Z * St) image s :
  image_in_scope image ->
  significant (fgets_lines image) = [] ->
  parse_ihex cls poke image s = (0, s).
Proof.
  intros _ H. rewrite parse_ihex_finish.
  rewrite (significant_loop cls poke (fgets_lines image))
    by (intros _; reflexivity).
  rewrite H. reflexivity.
Qed.

(** ** [ezusb_load_eeprom]: the frames of every call *)

Lemma steps_run_parts {S : Type} (out : S -> Z -> list event -> Prop)
    steps status evs :
  steps_run out steps status evs ->
  exists parts,
    evs = List.concat parts /\
    Forall2 (fun s p => p = [] \/ exists st, out s st p) steps parts.
Proof.
  induction 1 as [|s rest status evs Hout _
                  |s rest st1 evs1 status evs2 Hout _ _ IH].
  - exists []. split; [reflexivity|constructor].
  - exists (evs :: map (fun _ => []) rest). split.
    + cbn. replace (List.concat (map (fun _ => []) rest)) with (@nil event);
        [rewrite app_nil_r; reflexivity|].
      induction rest as [|s' rest IH]; cbn; auto.
    + constructor; [right; eauto|].
      induction rest as [|s' rest IH]; cbn; constructor; auto.
  - destruct IH as (parts & -> & Hparts).
    exists (evs1 :: parts). split; [reflexivity|].
    constructor; [right; eauto|exact Hparts].
Qed.

Lemma frame_events_all_frames dev op fs : forall cursor,
  Forall (fun e => is_frame_event e = true) (frame_events dev op cursor fs).
Proof.
  induction fs as [|f fs IH]; intros cursor; cbn [frame_events].
  - constructor.
  - constructor; [reflexivity|]. constructor; [reflexivity|apply IH].
Qed.

Lemma broken_frame_all_frames dev op cursor tail :
  broken_frame dev op cursor tail ->
  Forall (fun e => is_frame_event e = true) tail.
Proof.
  intros (f & [[-> _]|[-> _]]); repeat constructor.
Qed.

(** What a step leaves of frames. *)
Lemma eeprom_step_frames segs scan_st reset_addr s p :
  p = [] \/ (exists st, eeprom_outcome segs scan_st reset_addr s st p) ->
  match s with
  | Frames dev op start =>
      filter is_frame_event p = p /\
      (p = [] \/
       exists fs tail,
         p = frame_events dev op start fs ++ tail /\
         Forall framed fs /\
         (exists more,
            image_frames segs reset_addr = map frame_content fs ++ more) /\
         (tail = [] \/ broken_frame dev op (cursor_after start fs) tail))
  | Write label _ =>
      label <> header_label -> label <> payload_label ->
      filter is_frame_event p = []
  | Skip => p = []
  end.
Proof.
  intros [->|(st & Hout)].
  { destruct s; cbn; auto. }
  destruct s as [label rq|dev op start|]; cbn in Hout.
  - destruct Hout as (r & -> & _). intros Hh Hp.
    cbn [filter]. unfold is_frame_event, labelled. cbn.
    apply String.eqb_neq in Hh, Hp. rewrite Hh, Hp. reflexivity.
  - destruct Hout as (fs & tail & -> & Hfs & Hmore & Hcases).
    assert (Htail : tail = [] \/
                    broken_frame dev op (cursor_after start fs) tail).
    { destruct Hcases as [(_ & -> & _)|(_ & [->|[Hb _]])]; auto. }
    split.
    + apply filter_all. apply Forall_app.
      split; [apply frame_events_all_frames|].
      destruct Htail as [->|Hb]; [constructor|].
      eapply broken_frame_all_frames. exact Hb.
    + right. exists fs, tail. auto.
  - destruct Hout as [-> _]. reflexivity.
Qed.

Lemma image_run_frames dev image type v vid pid status evs :
  steps_run (eeprom_outcome (image_segments v image) (image_status v image)
               (cpucs_addr v))
            (image_script dev image type v vid pid) status evs ->
  filter is_frame_event evs = [] \/
  exists fs tail,
    image <> None /\
    filter is_frame_event evs
    = frame_events dev (request_code v) (ee_start v) fs ++ tail /\
    Forall framed fs /\
    (exists more,
       image_frames (image_segments v image) (cpucs_addr v)
       = map frame_content fs ++ more) /\
    (tail = [] \/
     broken_frame dev (request_code v) (cursor_after (ee_start v) fs) tail).
Proof.
  intros Hrun. apply steps_run_parts in Hrun.
  destruct Hrun as (parts & -> & Hparts).
  unfold image_script in Hparts. cbv zeta in Hparts.
  apply Forall2_cons_l_inv in Hparts.
  destruct Hparts as (p1 & l1 & -> & H1 & Hparts).
  apply Forall2_cons_l_inv in Hparts.
  destruct Hparts as (p2 & l2 & -> & H2 & Hparts).
  apply Forall2_cons_l_inv in Hparts.
  destruct Hparts as (p3 & l3 & -> & H3 & Hparts).
  apply Forall2_cons_l_inv in Hparts.
  destruct Hparts as (p4 & l4 & -> & H4 & Hparts).
  apply Forall2_cons_l_inv in Hparts.
  destruct Hparts as (p5 & l5 & -> & H5 & Hparts).
  apply Forall2_cons_l_inv in Hparts.
  destruct Hparts as (p6 & l6 & -> & H6 & Hparts).
  apply Forall2_nil_l_inv in Hparts. subst l6.
  cbn [List.concat]. rewrite app_nil_r, !filter_app.
  apply eeprom_step_frames in H1, H2, H3, H4, H5, H6.
  rewrite (H1 ltac:(discriminate) ltac:(discriminate)).
  rewrite (H6 ltac:(discriminate) ltac:(discriminate)).
  assert (E2 : filter is_frame_event p2 = []).
  { destruct (_ && _) in H2;
      [apply H2; discriminate|rewrite H2; reflexivity]. }
  assert (E4 : filter is_frame_event p4 = []).
  { destruct (negb _) in H4;
      [apply H4; discriminate|rewrite H4; reflexivity]. }
  assert (E5 : filter is_frame_event p5 = []).
  { destruct (String.eqb _ _) in H5;
      [apply H5; discriminate|rewrite H5; reflexivity]. }
  rewrite E2, E4, E5. cbn [app]. rewrite app_nil_r.
  destruct image as [text|].
  - destruct H3 as [-> [->|(fs & tail & -> & Hfs & Hmore & Htail)]].
    + left. reflexivity.
    + right. exists fs, tail. split; [discriminate|]. auto.
  - left. rewrite H3. reflexivity.
Qed.

(** X16.  In every call of [ezusb_load_eeprom] for a known variant and
    an image in scope, the requests that belong to frames are the frames
    of the first segments of the image in their order, complete and
    written one behind the other from the initial offset on, followed at
    most by one frame that was begun and whose header or bytes could not
    be written.  No frame is written without an image. *)
Theorem load_eeprom_frames ioctl fopen indeterminate dev path type config
    large_eeprom ww_config_vid ww_config_pid w v :
  select_variant path type config large_eeprom = Some v ->
  let r := ezusb_load_eeprom ioctl fopen indeterminate dev path type config
             large_eeprom ww_config_vid ww_config_pid w in
  let image := match path with Some p => fopen p | None => None end in
  (forall text, image = Some text -> image_in_scope text) ->
  exists evs fs tail,
    trace (snd r) = trace w ++ evs /\
    filter is_frame_event evs
    = frame_events dev (request_code v) (ee_start v) fs ++ tail /\
    Forall framed fs /\
    (exists more,
       image_frames (image_segments v image) (cpucs_addr v)
       = map frame_content fs ++ more) /\
    (tail = [] \/
     broken_frame dev (request_code v) (cursor_after (ee_start v) fs) tail) /\
    (image = None -> fs = [] /\ tail = []).
Proof.
  intros Hv. cbv zeta. intros _.
  destruct (select_variant_cases _ _ _ _ _ Hv) as (Hc & _).
  assert (Hnone : forall image,
            exists more,
              image_frames (image_segments v image) (cpucs_addr v)
              = map frame_content [] ++ more)
    by (intros image; eexists; reflexivity).
  assert (Hscript : forall image w1,
            exists evs fs tail,
              trace (snd (write_image ioctl dev image type v ww_config_vid
                            ww_config_pid w1)) = trace w1 ++ evs /\
              filter is_frame_event evs
              = frame_events dev (request_code v) (ee_start v) fs ++ tail /\
              Forall framed fs /\
              (exists more,
                 image_frames (image_segments v image) (cpucs_addr v)
                 = map frame_content fs ++ more) /\
              (tail = [] \/
               broken_frame dev (request_code v)
                 (cursor_after (ee_start v) fs) tail) /\
              (image = None -> fs = [] /\ tail = [])).
  { intros image w1.
    destruct (write_image_steps ioctl dev image type v ww_config_vid
                ww_config_pid Hc w1) as (evs & Htr & Hrun).
    apply image_run_frames in Hrun.
    destruct Hrun as [Hnil|(fs & tail & Himg & Hf & Hfs & Hmore & Htail)].
    - exists evs, [], []. rewrite Hnil. repeat split; auto.
    - exists evs, fs, tail. repeat split; auto; contradiction. }
  destruct path as [p|].
  - rewrite load_eeprom_path. cbv zeta.
    set (r0 := ioctl (trace w) _).
    set (w1 := {| trace := trace w ++ [size_event dev indeterminate r0];
                  errno := errno_after r0 (errno w) |}).
    assert (Hrefused : forall (status : Z) image,
      exists evs fs tail,
        trace (snd (status, w1)) = trace w ++ evs /\
        filter is_frame_event evs
        = frame_events dev (request_code v) (ee_start v) fs ++ tail /\
        Forall framed fs /\
        (exists more,
           image_frames (image_segments v image) (cpucs_addr v)
           = map frame_content fs ++ more) /\
        (tail = [] \/
         broken_frame dev (request_code v)
           (cursor_after (ee_start v) fs) tail) /\
        (image = None -> fs = [] /\ tail = [])).
    { intros status image. exists [size_event dev indeterminate r0], [], [].
      repeat split; auto. }
    destruct (size_accepted indeterminate r0); [|apply Hrefused].
    destruct (fopen p) as [text|]; [|apply Hrefused].
    rewrite Hv.
    destruct (Hscript (Some text) w1)
      as (evs & fs & tail & Htr & Hf & Hfs & Hmore & Htail & _).
    exists (size_event dev indeterminate r0 :: evs), fs, tail.
    split; [rewrite Htr; cbn [w1 trace]; rewrite <- app_assoc; reflexivity|].
    split; [exact Hf|]. repeat split; auto; discriminate.
  - rewrite load_eeprom_no_path, Hv. apply Hscript.
Qed.

(** ** The further theorems at sample inputs *)

Lemma fx_classification_witness :
  fx_internal 0x1b00 0x40 /\ fx_is_external 0x1b00 0x40 = false.
Proof.
  assert (H1 : is_ushort 0x1b00) by (unfold is_ushort, USHRT_MAX; lia).
  assert (H2 : is_size_t 0x40) by (unfold is_size_t, SIZE_MAX; lia).
  assert (H3 : 0x1b00 + 0x40 <= SIZE_MAX) by (unfold SIZE_MAX; lia).
  assert (H4 : fx_internal 0x1b00 0x40)
    by (unfold fx_internal, within_window; lia).
  split; [exact H4|].
  apply (proj1 (fx_classification 0x1b00 0x40 H1 H2 H3)). exact H4.
Defined.

Lemma classifiers_nested_witness :
  fx_is_external 0x1b00 0x40 = false /\ fx2_is_external 0x1b00 0x40 = false.
Proof.
  assert (H : fx_is_external 0x1b00 0x40 = false) by reflexivity.
  split; [exact H|].
  apply (proj1 (classifiers_nested 0x1b00 0x40)). exact H.
Defined.

Lemma parse_ihex_significant_lines_witness :
  significant (fgets_lines commented_image)
  = significant (fgets_lines unterminated_image) /\
  parse_ihex None collect commented_image []
  = parse_ihex None collect unterminated_image [].
Proof.
  assert (H : significant (fgets_lines commented_image)
              = significant (fgets_lines unterminated_image))
    by (vm_compute; reflexivity).
  split; [exact H|].
  apply (parse_ihex_significant_lines None collect commented_image
           unterminated_image []); [| |exact H];
    apply in_scope_by_check; vm_compute; reflexivity.
Defined.

Lemma segments_place_records_witness :
  scan_status None two_record_image = 0 /\
  List.concat (map segment_placed (segments None two_record_image))
  = List.concat
      (map record_placed (significant (fgets_lines two_record_image))).
Proof.
  apply (segments_place_records None two_record_image).
  - apply in_scope_by_check. vm_compute. reflexivity.
  - vm_compute. repeat constructor.
Defined.

Lemma load_ram_request_order_witness :
  sample_fopen "fw.ihx" = Some one_record_image /\
  exists release r1,
    trace (snd sample_ram_load)
    = removelast (trace (snd sample_ram_load)) ++ release /\
    release = [cpucs_event 3 (ram_cpucs_addr 1) true r1] /\
    status_of r1 = 1.
Proof.
  assert (H : sample_fopen "fw.ihx" = Some one_record_image) by reflexivity.
  assert (S : image_in_scope one_record_image)
    by (apply in_scope_by_check; vm_compute; reflexivity).
  assert (E : fst sample_ram_load = Some 0) by (vm_compute; reflexivity).
  split; [exact H|].
  destruct (load_ram_request_order obliging_device sample_fopen 1 3 "fw.ihx"
              1 0 fresh_world one_record_image H S)
    as (ext_writes & halt & int_writes & release & Htr & _ & _ & _ & _ & Hend).
  fold sample_ram_load in Htr, Hend. rewrite E in Hend.
  destruct Hend as [[[_ Hneg]|(r1 & Hrel & Hiff)] _]; [exfalso; lia|].
  exists release, r1. split; [|split; [exact Hrel|apply Hiff; reflexivity]].
  rewrite Htr at 2. cbn [fresh_world trace app]. rewrite Hrel.
  rewrite !app_assoc. rewrite removelast_last. rewrite Htr.
  cbn [fresh_world trace app]. rewrite Hrel, !app_assoc. reflexivity.
Defined.

Lemma load_ram_writes_image_witness :
  fst sample_ram_load = Some 0 /\
  scan_status (Some (ram_classifier 1)) one_record_image = 0.
Proof.
  assert (H : fst sample_ram_load = Some 0) by (vm_compute; reflexivity).
  assert (S : image_in_scope one_record_image)
    by (apply in_scope_by_check; vm_compute; reflexivity).
  split; [exact H|].
  apply (load_ram_writes_image obliging_device sample_fopen 1 3 "fw.ihx" 1 0
           fresh_world one_record_image eq_refl S H).
Defined.

Lemma load_eeprom_gate_witness :
  exists writes,
    trace (snd sample_load)
    = size_event 3 0 (Transferred 1 [1]) :: writes /\
    writes <> [].
Proof.
  assert (S : forall (p : string) text,
                Some "fw.ihx"%string = Some p ->
                Some one_record_image = Some text -> image_in_scope text).
  { intros p text _ [= <-]. apply in_scope_by_check. vm_compute.
    reflexivity. }
  destruct (load_eeprom_gate obliging_device (fun _ => Some one_record_image)
              0 3 (Some "fw.ihx"%string) "fx2" 0 true (-1) (-1) fresh_world S)
    as (writes & Htr & _ & Hne & _).
  exists writes. split; [exact Htr|]. apply Hne. vm_compute. reflexivity.
Defined.

Lemma load_eeprom_writes_image_witness :
  select_variant (Some "fw.ihx"%string) "fx2" 0 true = Some fx2_setup /\
  fst sample_load = 0 /\
  image_status fx2_setup (Some one_record_image) = 0.
Proof.
  assert (Hv : select_variant (Some "fw.ihx"%string) "fx2" 0 true
               = Some fx2_setup) by reflexivity.
  assert (Hz : fst sample_load = 0) by (vm_compute; reflexivity).
  assert (S : forall text, Some one_record_image = Some text ->
                           image_in_scope text).
  { intros text [= <-]. apply in_scope_by_check. vm_compute. reflexivity. }
  split; [exact Hv|]. split; [exact Hz|].
  apply (load_eeprom_writes_image obliging_device
           (fun _ => Some one_record_image) 0 3 (Some "fw.ihx"%string)
           "fx2" 0 true (-1) (-1) fresh_world fx2_setup Hv S Hz).
Defined.

Lemma checksum_not_verified_witness :
  parse_line None collect unterminated_image parse_init []
  = parse_line None collect bad_checksum_line parse_init [].
Proof.
  apply (checksum_not_verified None collect unterminated_image
           bad_checksum_line parse_init []).
  - vm_compute. reflexivity.
  - vm_compute. reflexivity.
  - vm_compute. reflexivity.
  - vm_compute. discriminate.
  - vm_compute. discriminate.
Defined.

Lemma no_records_no_calls_witness :
  significant (fgets_lines comment_only_image) = [] /\
  parse_ihex None collect comment_only_image [] = (0, []).
Proof.
  assert (H : significant (fgets_lines comment_only_image) = [])
    by (vm_compute; reflexivity).
  split; [exact H|].
  apply (no_records_no_calls None collect comment_only_image []);
    [|exact H].
  apply in_scope_by_check. vm_compute. reflexivity.
Defined.

Lemma load_eeprom_frames_witness :
  select_variant (Some "fw.ihx"%string) "fx2" 0 true = Some fx2_setup /\
  exists evs fs tail,
    trace (snd sample_load) = evs /\
    filter is_frame_event evs
    = frame_events 3 RW_EEPROM_LARGE 8 fs ++ tail.
Proof.
  assert (Hv : select_variant (Some "fw.ihx"%string) "fx2" 0 true
               = Some fx2_setup) by reflexivity.
  assert (S : forall text, Some one_record_image = Some text ->
                           image_in_scope text).
  { intros text [= <-]. apply in_scope_by_check. vm_compute. reflexivity. }
  split; [exact Hv|].
  destruct (load_eeprom_frames obliging_device
              (fun _ => Some one_record_image) 0 3 (Some "fw.ihx"%string)
              "fx2" 0 true (-1) (-1) fresh_world fx2_setup Hv S)
    as (evs & fs & tail & Htr & Hf & _).
  exists evs, fs, tail. split; [exact Htr|exact Hf].
Defined.

Lemma parse_ihex_feeds_segments_witness :
  image_in_scope two_record_image /\
  parse_ihex None collect two_record_image []
  = let (rc, s') := feed collect (segments None two_record_image) [] in
    if rc <? 0 then (-1, s') else (scan_status None two_record_image, s').
Proof.
  assert (S : image_in_scope two_record_image)
    by (apply in_scope_by_check; vm_compute; reflexivity).
  split; [exact S|].
  apply (parse_ihex_feeds_segments None collect two_record_image [] S).
Defined.

Lemma scan_status_first_rejected_witness :
  image_in_scope commented_image /\ scan_status None commented_image = 0.
Proof.
  assert (S : image_in_scope commented_image)
    by (apply in_scope_by_check; vm_compute; reflexivity).
  split; [exact S|].
  rewrite (proj1 (scan_status_first_rejected None commented_image S)).
  vm_compute. reflexivity.
Defined.

Lemma segments_shape_witness :
  image_in_scope two_record_image /\
  Forall (segment_shape None) (segments None two_record_image).
Proof.
  assert (S : image_in_scope two_record_image)
    by (apply in_scope_by_check; vm_compute; reflexivity).
  split; [exact S|].
  apply (segments_shape None two_record_image S).
Defined.

Lemma load_ram_follows_plan_witness :
  image_in_scope one_record_image /\ image_in_scope comment_only_image /\
  (exists evs,
     trace (snd sample_ram_load) = evs /\
     steps_run
       (ram_outcome 3 (ram_cpucs_addr 1)
          (segments (Some (ram_classifier 1)) one_record_image)
          (scan_status (Some (ram_classifier 1)) one_record_image))
       (ram_plan 0) 0 evs) /\
  (exists evs,
     trace (snd sample_killed_load) = evs /\
     steps_run
       (ram_outcome 3 (ram_cpucs_addr 1)
          (segments (Some (ram_classifier 1)) comment_only_image)
          (scan_status (Some (ram_classifier 1)) comment_only_image))
       (ram_plan_scans 0) 0 evs).
Proof.
  assert (S1 : image_in_scope one_record_image)
    by (apply in_scope_by_check; vm_compute; reflexivity).
  assert (S2 : image_in_scope comment_only_image)
    by (apply in_scope_by_check; vm_compute; reflexivity).
  assert (E1 : fst sample_ram_load = Some 0) by (vm_compute; reflexivity).
  assert (E2 : fst sample_killed_load = None) by (vm_compute; reflexivity).
  split; [exact S1|]. split; [exact S2|]. split.
  - destruct (load_ram_follows_plan obliging_device sample_fopen 1 3 "fw.ihx"
                1 0 fresh_world S1)
      as (evs & Htr & Hrun).
    fold sample_ram_load in Htr, Hrun. rewrite E1 in Hrun.
    exists evs. split; [exact Htr|exact (proj1 Hrun)].
  - destruct (load_ram_follows_plan obliging_device
                (fun _ => Some comment_only_image) 1 3 "fw.ihx"
                1 0 fresh_world S2)
      as (evs & Htr & Hrun).
    fold sample_killed_load in Htr, Hrun. rewrite E2 in Hrun.
    exists evs. split; [exact Htr|exact (proj2 Hrun)].
Defined.

Lemma status_domain_witness :
  (forall path image, sample_fopen path = Some image -> image_in_scope image) /\
  exists status, fst sample_ram_load = Some status /\ -4 <= status <= 0.
Proof.
  assert (S : forall (path : string) image,
                sample_fopen path = Some image -> image_in_scope image).
  { intros path image [= <-]. apply in_scope_by_check. vm_compute.
    reflexivity. }
  assert (E : fst sample_ram_load = Some 0) by (vm_compute; reflexivity).
  split; [exact S|].
  pose proof (proj1 (status_domain obliging_device sample_fopen 0 S)
                1 3 "fw.ihx"%string 1 0 fresh_world) as H.
  fold sample_ram_load in H. rewrite E in H.
  exists 0. split; [exact E|exact H].
Defined.
